(** * KFX: authentication, session lifecycle and workspace authorization

    A shallow embedding of the server's token utilities ([utils/jwt.ts]),
    the auth middleware ([middleware/auth.ts]), the auth controller
    ([controllers/auth.ts]) and the workspace controller
    ([controllers/workspace.ts]) together with the routes that compose them.

    The persistent store (Prisma) is a record of finite maps; handlers are
    state-passing functions [Db -> Response * Db]; a thrown exception is a
    value of an error monad whose state survives the throw, so that writes
    made before a throw persist unless a transaction rolls them back. *)

From Stdlib Require Import ZArith Ascii String DecimalString DecimalZ.
From stdpp Require Import gmap strings list fin_maps.

(* ===================================================================== *)
(** ** JavaScript values and string primitives *)
(* ===================================================================== *)

(** A member of [req.body] as the handlers see it.  The model covers flat
    bodies, whose members are scalars; an object-valued member (such as the
    store's update operation [{ set: v }]) is outside it.  Numbers are
    carried but never computed on by the modelled code; they are integers
    here. *)
Inductive JsVal :=
  | JUndefined
  | JNull
  | JBool (b : bool)
  | JNum (n : Z)
  | JStr (s : string).

(** JavaScript truthiness, as used by [!token], [a || b] and [x && {...}]. *)
Definition truthy (v : JsVal) : bool :=
  match v with
  | JUndefined | JNull => false
  | JBool b => b
  | JNum n => negb (n =? 0)%Z
  | JStr s => negb (String.eqb s "")
  end.

(** [o.k] on a JSON object: a missing key reads as [undefined]. *)
Definition field (k : string) (o : gmap string JsVal) : JsVal :=
  default JUndefined (o !! k).

(** [s.startsWith(prefix)] *)
Fixpoint startsWith (prefix s : string) : bool :=
  match prefix, s with
  | EmptyString, _ => true
  | String _ _, EmptyString => false
  | String a p, String b r => if Ascii.eqb a b then startsWith p r else false
  end.

(** [s.slice(n)] for [0 <= n] *)
Fixpoint slice (n : nat) (s : string) : string :=
  match n, s with
  | O, _ => s
  | S _, EmptyString => EmptyString
  | S k, String _ r => slice k r
  end.

(** [String.prototype.toLowerCase] of the JavaScript runtime: the Unicode
    lower-case mapping, kept abstract.  Nothing is assumed of it; what is
    proved below holds of whatever function the runtime provides. *)
Class CaseMapping := { toLowerCase : string -> string }.

(** A reference instance, for the sample data: the letters A to Z are
    lowered, every other code unit is left alone.  It agrees with the
    runtime on ASCII strings. *)
Definition lowerAscii (c : ascii) : ascii :=
  let n := nat_of_ascii c in
  if (65 <=? n)%nat && (n <=? 90)%nat then ascii_of_nat (n + 32) else c.

Fixpoint asciiLowerCase (s : string) : string :=
  match s with
  | EmptyString => EmptyString
  | String c r => String (lowerAscii c) (asciiLowerCase r)
  end.

Definition ascii_case : CaseMapping := {| toLowerCase := asciiLowerCase |}.

(** [\d] *)
Definition isDigit (c : ascii) : bool :=
  let n := nat_of_ascii c in (48 <=? n)%nat && (n <=? 57)%nat.

(** [parseInt(s, 10)] on a string of decimal digits, most significant first. *)
Fixpoint parseDigits (acc : Z) (s : string) : Z :=
  match s with
  | EmptyString => acc
  | String c r => parseDigits (acc * 10 + Z.of_nat (nat_of_ascii c - 48)) r
  end.

Fixpoint allDigits (s : string) : bool :=
  match s with
  | EmptyString => true
  | String c r => isDigit c && allDigits r
  end.

(** Splits a non-empty string into everything but its last character and
    that last character. *)
Fixpoint splitLast (s : string) : option (string * ascii) :=
  match s with
  | EmptyString => None
  | String c EmptyString => Some (EmptyString, c)
  | String c r =>
      match splitLast r with
      | Some (init, l) => Some (String c init, l)
      | None => None
      end
  end.

(* ===================================================================== *)
(** ** Configuration ([config/index.ts]) *)
(* ===================================================================== *)

Record Config := {
  jwtSecret : string;
  jwtExpiresIn : string;
  refreshTokenExpiresIn : string;
  (** [parseInt(env || '7', 10)]; [None] stands for [NaN]. *)
  invitationExpiryDays : option Z;
  clientUrl : string;
}.

(* ===================================================================== *)
(** ** The jsonwebtoken dependency *)
(* ===================================================================== *)

(** [JwtPayload] of [types/index.ts]. *)
Record JwtPayload := { jp_userId : string; jp_email : string }.

(** The claim set jsonwebtoken signs: the payload plus the registered
    [iat] and [exp] claims, both in seconds. *)
Record JwtClaims := { claims_payload : JwtPayload; iat : Z; exp : Z }.

Inductive JwtError :=
  | SecretMissing      (* secretOrPrivateKey must have a value *)
  | BadTimespan        (* "expiresIn" should be a number of seconds or ... *)
  | JwtMalformed
  | InvalidSignature
  | TokenExpired.

(** The primitives jsonwebtoken is built on, kept abstract: the [ms]
    duration parser, the HS256 keyed hash, and the JWS compact
    serialisation with its parser. *)
Class Jws := {
  ms : string -> option Z;
  hs256 : string -> string -> string;
  jws_input : JwtClaims -> string;
  jws_compact : JwtClaims -> string -> string;
  jws_parse : string -> option (JwtClaims * string);
}.

(** The one law the serialisation has to obey: parsing what was
    serialised gives back the claims and the signature. *)
Class JwsLaws (J : Jws) : Prop :=
  jws_parse_compact : forall c sg, jws_parse (jws_compact c sg) = Some (c, sg).

(** [jwt.sign(payload, secret, { expiresIn })] at wall-clock [now]
    (milliseconds): [iat = floor(now / 1000)],
    [exp = floor(iat + ms(expiresIn) / 1000)]. *)
Definition jwt_sign `{J : Jws} (payload : JwtPayload) (secret expiresIn : string)
    (now : Z) : JwtError + string :=
  if String.eqb secret "" then inl SecretMissing
  else match ms expiresIn with
       | None => inl BadTimespan
       | Some millis =>
           let t := (now / 1000)%Z in
           let c := {| claims_payload := payload; iat := t;
                       exp := (t + millis / 1000)%Z |} in
           inr (jws_compact c (hs256 secret (jws_input c)))
       end.

(** [jwt.verify(token, secret)] at wall-clock [now]: the token is expired
    when [floor(now / 1000) >= exp]. *)
Definition jwt_verify `{J : Jws} (token secret : string) (now : Z)
    : JwtError + JwtClaims :=
  match jws_parse token with
  | None => inl JwtMalformed
  | Some (c, sg) =>
      if String.eqb secret "" then inl SecretMissing
      else if negb (String.eqb sg (hs256 secret (jws_input c)))
      then inl InvalidSignature
      else if (exp c <=? now / 1000)%Z then inl TokenExpired
      else inr c
  end.

(** *** A reference instance of the primitives

    Fields are framed by their length in unary, numbers are printed in
    decimal.  It shows the law above is satisfiable. *)

Fixpoint tally (n : nat) : string :=
  match n with
  | O => EmptyString
  | S k => String "1" (tally k)
  end.

Definition frame (s : string) : string :=
  tally (String.length s) +:+ String "0" s.

Fixpoint untally (s : string) : option (nat * string) :=
  match s with
  | String "0" r => Some (O, r)
  | String "1" r =>
      match untally r with
      | Some (n, t) => Some (S n, t)
      | None => None
      end
  | _ => None
  end.

Fixpoint splitAt (n : nat) (s : string) : option (string * string) :=
  match n, s with
  | O, _ => Some (EmptyString, s)
  | S _, EmptyString => None
  | S k, String c r =>
      match splitAt k r with
      | Some (a, b) => Some (String c a, b)
      | None => None
      end
  end.

Definition unframe (s : string) : option (string * string) :=
  match untally s with
  | Some (n, r) => splitAt n r
  | None => None
  end.

Definition showZ (z : Z) : string := NilEmpty.string_of_int (Z.to_int z).

Definition readZ (s : string) : option Z :=
  match NilEmpty.int_of_string s with
  | Some d => Some (Z.of_int d)
  | None => None
  end.

Definition ref_compact (c : JwtClaims) (sg : string) : string :=
  frame (jp_userId (claims_payload c)) +:+ frame (jp_email (claims_payload c))
  +:+ frame (showZ (iat c)) +:+ frame (showZ (exp c)) +:+ frame sg.

Definition ref_parse (s : string) : option (JwtClaims * string) :=
  match unframe s with
  | Some (u, s1) =>
  match unframe s1 with
  | Some (e, s2) =>
  match unframe s2 with
  | Some (i, s3) =>
  match unframe s3 with
  | Some (x, s4) =>
  match unframe s4 with
  | Some (sg, EmptyString) =>
      match readZ i, readZ x with
      | Some i', Some x' =>
          Some ({| claims_payload := {| jp_userId := u; jp_email := e |};
                   iat := i'; exp := x' |}, sg)
      | _, _ => None
      end
  | _ => None
  end | None => None end | None => None end | None => None end | None => None
  end.

Definition ref_ms (s : string) : option Z :=
  match splitLast s with
  | Some (digits, u) =>
      if negb (allDigits digits) || String.eqb digits "" then None
      else if Ascii.eqb u "s" then Some (parseDigits 0 digits * 1000)%Z
      else if Ascii.eqb u "m" then Some (parseDigits 0 digits * 60000)%Z
      else if Ascii.eqb u "h" then Some (parseDigits 0 digits * 3600000)%Z
      else if Ascii.eqb u "d" then Some (parseDigits 0 digits * 86400000)%Z
      else None
  | None => None
  end.

Definition ref_jws : Jws := {|
  ms := ref_ms;
  hs256 := fun key msg => frame key +:+ msg;
  jws_input := fun c => ref_compact c EmptyString;
  jws_compact := ref_compact;
  jws_parse := ref_parse;
|}.

(* ===================================================================== *)
(** ** Token utilities ([utils/jwt.ts]): access tokens *)
(* ===================================================================== *)

Definition generateAccessToken `{J : Jws} (cfg : Config) (now : Z)
    (payload : JwtPayload) : JwtError + string :=
  jwt_sign payload (jwtSecret cfg) (jwtExpiresIn cfg) now.

(** Every failure of [jwt.verify] is caught and collapsed to [null]. *)
Definition verifyAccessToken `{J : Jws} (cfg : Config) (now : Z)
    (token : string) : option JwtPayload :=
  match jwt_verify token (jwtSecret cfg) now with
  | inr c => Some (claims_payload c)
  | inl _ => None
  end.

(* ===================================================================== *)
(** ** The persistent store *)
(* ===================================================================== *)

Inductive WorkspaceType := SOLE_TRADER | PARTNERSHIP.
Inductive MemberRole := OWNER | ADMIN | MEMBER.
Inductive InvitationStatus := PENDING | ACCEPTED | EXPIRED | CANCELLED.

Global Instance WorkspaceType_eq_dec : EqDecision WorkspaceType.
Proof. solve_decision. Defined.
Global Instance MemberRole_eq_dec : EqDecision MemberRole.
Proof. solve_decision. Defined.
Global Instance InvitationStatus_eq_dec : EqDecision InvitationStatus.
Proof. solve_decision. Defined.

(** Enum members are plain strings at run time. *)
Definition roleName (r : MemberRole) : string :=
  match r with OWNER => "OWNER" | ADMIN => "ADMIN" | MEMBER => "MEMBER" end.

Definition workspaceTypeOfString (s : string) : option WorkspaceType :=
  if String.eqb s "SOLE_TRADER" then Some SOLE_TRADER
  else if String.eqb s "PARTNERSHIP" then Some PARTNERSHIP
  else None.

(** The columns of each table that the modelled code reads or writes.  A
    table is a finite map from its key column to the rest of the row: the
    refresh-token ledger is keyed by its unique [token], every other table
    by its primary key [id].  A row read from the store is the pair of its
    key and these columns. *)
Record User := { u_email : string; u_name : option string }.

Record RefreshToken := { rt_id : string; rt_userId : string; rt_expiresAt : Z }.

Record Workspace := { ws_name : string; ws_type : WorkspaceType }.

Record WorkspaceMember := {
  wm_userId : string; wm_workspaceId : string;
  wm_role : MemberRole; wm_isOwner : bool; wm_profitSplit : Z }.

Record Invitation := {
  inv_workspaceId : string; inv_email : string;
  inv_invitedById : string; inv_invitedUserId : option string;
  inv_profitSplit : Z; inv_token : string; inv_status : InvitationStatus;
  inv_expiresAt : Z }.

(** A rate left out on creation takes the column default ([None]). *)
Record WorkspaceSettings := {
  st_workspaceId : string;
  st_defaultBuyRate : option Z; st_defaultSellRate : option Z }.

Record Db := {
  users : gmap string User;
  refreshTokens : gmap string RefreshToken;
  workspaces : gmap string Workspace;
  workspaceMembers : gmap string WorkspaceMember;
  invitations : gmap string Invitation;
  workspaceSettings : gmap string WorkspaceSettings;
}.

Definition with_refreshTokens
    (f : gmap string RefreshToken -> gmap string RefreshToken) (db : Db) : Db :=
  {| users := users db; refreshTokens := f (refreshTokens db);
     workspaces := workspaces db; workspaceMembers := workspaceMembers db;
     invitations := invitations db; workspaceSettings := workspaceSettings db |}.

Definition with_workspaces
    (f : gmap string Workspace -> gmap string Workspace) (db : Db) : Db :=
  {| users := users db; refreshTokens := refreshTokens db;
     workspaces := f (workspaces db); workspaceMembers := workspaceMembers db;
     invitations := invitations db; workspaceSettings := workspaceSettings db |}.

Definition with_workspaceMembers
    (f : gmap string WorkspaceMember -> gmap string WorkspaceMember) (db : Db) : Db :=
  {| users := users db; refreshTokens := refreshTokens db;
     workspaces := workspaces db; workspaceMembers := f (workspaceMembers db);
     invitations := invitations db; workspaceSettings := workspaceSettings db |}.

Definition with_invitations
    (f : gmap string Invitation -> gmap string Invitation) (db : Db) : Db :=
  {| users := users db; refreshTokens := refreshTokens db;
     workspaces := workspaces db; workspaceMembers := workspaceMembers db;
     invitations := f (invitations db); workspaceSettings := workspaceSettings db |}.

Definition with_workspaceSettings
    (f : gmap string WorkspaceSettings -> gmap string WorkspaceSettings) (db : Db) : Db :=
  {| users := users db; refreshTokens := refreshTokens db;
     workspaces := workspaces db; workspaceMembers := workspaceMembers db;
     invitations := invitations db; workspaceSettings := f (workspaceSettings db) |}.

(** What the environment supplies to one request: the wall clock
    ([Date.now()] and [new Date()], milliseconds; one reading serves the
    whole request) and the random identifiers drawn while it is served
    ([uuidv4()] and the identifiers the store generates for new rows), in
    the order they are drawn. *)
Record Env := { now : Z; rand : nat -> string }.

(** *** Exceptions *)

Inductive Thrown :=
  | UniqueConstraint        (* P2002 *)
  | ForeignKeyConstraint    (* P2003 *)
  | RecordNotFound          (* P2025 *)
  | ValidationError         (* PrismaClientValidationError *)
  | InconsistentResult      (* a required relation resolved to no row *)
  | TypeError
  | JwtThrown (e : JwtError).

(** A computation on the store that returns or throws; the store it leaves
    behind is returned in both cases. *)
Definition Prisma (A : Type) : Type := Db -> (Thrown + A) * Db.

Definition ret {A} (a : A) : Prisma A := fun db => (inr a, db).
Definition throw {A} (e : Thrown) : Prisma A := fun db => (inl e, db).
Definition bind {A B} (c : Prisma A) (k : A -> Prisma B) : Prisma B :=
  fun db => match c db with
            | (inr a, db') => k a db'
            | (inl e, db') => (inl e, db')
            end.
Definition query {A} (f : Db -> A) : Prisma A := fun db => (inr (f db), db).
Definition write (f : Db -> Db) : Prisma unit := fun db => (inr tt, f db).

Notation "'let!' x ':=' c 'in' k" := (bind c (fun x => k))
  (at level 10, x name, c at level 100, k at level 200).

(** [prisma.$transaction]: a throw inside restores the store. *)
Definition transaction {A} (c : Prisma A) : Prisma A :=
  fun db => match c db with
            | (inr a, db') => (inr a, db')
            | (inl e, _) => (inl e, db)
            end.

(** [findFirst] and [findUnique] on a column that is not the key: some row
    satisfying the filter, if there is one. *)
Definition findFirst {A} (P : string -> A -> bool) (m : gmap string A)
    : option (string * A) :=
  List.find (fun kv => P kv.1 kv.2) (map_to_list m).

(** A [where: { id: x }] filter; Prisma ignores a filter whose value is
    [undefined]. *)
Definition idFilter (x : option string) (id : string) : bool :=
  match x with
  | Some x => bool_decide (id = x)
  | None => true
  end.

Definition has {A} (id : string) (m : gmap string A) : bool :=
  bool_decide (is_Some (m !! id)).

Definition hasRow {A} (P : string -> A -> bool) (m : gmap string A) : bool :=
  bool_decide (is_Some (findFirst P m)).

(** *** Writes

    The schema file [prisma/schema.prisma] is not part of the sources.  The
    constraints below are the ones the code relies on: it addresses rows by
    [id], reads refresh tokens and invitations by [token], members by the
    pair (user, workspace) and settings by workspace with [findUnique], and
    follows the relations to users and workspaces with [include]. *)

(** Modelled from the spec: the column defaults of the missing schema.  A
    member created without [isOwner] is not the owner ("created ... when an
    invitation is accepted (non-owner, role MEMBER)"); an invitation is
    "created PENDING". *)
Definition default_isOwner : bool := false.
Definition default_status : InvitationStatus := PENDING.

(** Modelled from the spec: the constraints of the missing schema on
    [prisma.refreshToken.create]: a generated unique identifier, a "unique
    token string" and an "owning user reference". *)
Definition refreshToken_create (token : string) (row : RefreshToken)
    : Prisma unit :=
  fun db =>
    if has token (refreshTokens db) then (inl UniqueConstraint, db)
    else if hasRow (fun _ r => bool_decide (rt_id r = rt_id row))
                   (refreshTokens db) then (inl UniqueConstraint, db)
    else if negb (has (rt_userId row) (users db)) then
      (inl ForeignKeyConstraint, db)
    else (inr tt, with_refreshTokens (insert token row) db).

(** [prisma.refreshToken.delete({ where: { id } })] *)
Definition refreshToken_delete (id : string) : Prisma unit :=
  fun db =>
    if hasRow (fun _ r => bool_decide (rt_id r = id)) (refreshTokens db) then
      (inr tt, with_refreshTokens (filter (fun kv => rt_id kv.2 <> id)) db)
    else (inl RecordNotFound, db).

(** Modelled from the spec: the constraint of the missing schema on
    [prisma.workspace.create]: the identifier is unique. *)
Definition workspace_create (id : string) (row : Workspace) : Prisma unit :=
  fun db =>
    if has id (workspaces db) then (inl UniqueConstraint, db)
    else (inr tt, with_workspaces (insert id row) db).

(** [prisma.workspace.update({ where: { id }, data })] *)
Definition workspace_update (id : string) (f : Workspace -> Workspace)
    : Prisma (string * Workspace) :=
  fun db =>
    match workspaces db !! id with
    | Some w => (inr (id, f w), with_workspaces (insert id (f w)) db)
    | None => (inl RecordNotFound, db)
    end.

(** Modelled from the spec: the constraints of the missing schema on
    [prisma.workspaceMember.create]: a unique identifier, a "unique (user,
    workspace) pair", and references to an existing user and workspace. *)
Definition workspaceMember_create (id : string) (row : WorkspaceMember)
    : Prisma unit :=
  fun db =>
    if has id (workspaceMembers db) then (inl UniqueConstraint, db)
    else if hasRow (fun _ m => bool_decide (wm_userId m = wm_userId row)
                               && bool_decide (wm_workspaceId m = wm_workspaceId row))
                   (workspaceMembers db) then (inl UniqueConstraint, db)
    else if negb (has (wm_userId row) (users db)) then
      (inl ForeignKeyConstraint, db)
    else if negb (has (wm_workspaceId row) (workspaces db)) then
      (inl ForeignKeyConstraint, db)
    else (inr tt, with_workspaceMembers (insert id row) db).

(** [prisma.workspaceMember.update({ where: { id }, data })] *)
Definition workspaceMember_update (id : string)
    (f : WorkspaceMember -> WorkspaceMember) : Prisma (string * WorkspaceMember) :=
  fun db =>
    match workspaceMembers db !! id with
    | Some m => (inr (id, f m), with_workspaceMembers (insert id (f m)) db)
    | None => (inl RecordNotFound, db)
    end.

(** [prisma.workspaceMember.delete({ where: { id } })] *)
Definition workspaceMember_delete (id : string) : Prisma unit :=
  fun db =>
    if has id (workspaceMembers db) then
      (inr tt, with_workspaceMembers (delete id) db)
    else (inl RecordNotFound, db).

(** Modelled from the spec: the constraints of the missing schema on the
    nested [settings: { create }]: a unique identifier, one settings row
    per workspace, and a reference to an existing workspace. *)
Definition workspaceSettings_create (id : string) (row : WorkspaceSettings)
    : Prisma unit :=
  fun db =>
    if has id (workspaceSettings db) then (inl UniqueConstraint, db)
    else if hasRow (fun _ s => bool_decide (st_workspaceId s = st_workspaceId row))
                   (workspaceSettings db) then (inl UniqueConstraint, db)
    else if negb (has (st_workspaceId row) (workspaces db)) then
      (inl ForeignKeyConstraint, db)
    else (inr tt, with_workspaceSettings (insert id row) db).

(** Modelled from the spec: the constraints of the missing schema on
    [prisma.invitation.create]: a unique identifier, a unique "single-use
    token", and references to an existing workspace, inviting user and
    (when resolved) invited user. *)
Definition invitation_create (id : string) (row : Invitation) : Prisma unit :=
  fun db =>
    if has id (invitations db) then (inl UniqueConstraint, db)
    else if hasRow (fun _ i => bool_decide (inv_token i = inv_token row))
                   (invitations db) then (inl UniqueConstraint, db)
    else if negb (has (inv_workspaceId row) (workspaces db)) then
      (inl ForeignKeyConstraint, db)
    else if negb (has (inv_invitedById row) (users db)) then
      (inl ForeignKeyConstraint, db)
    else if negb (from_option (fun u => has u (users db)) true
                              (inv_invitedUserId row)) then
      (inl ForeignKeyConstraint, db)
    else (inr tt, with_invitations (insert id row) db).

(** [prisma.invitation.update({ where: { id }, data })] *)
Definition invitation_update (id : string) (f : Invitation -> Invitation)
    : Prisma unit :=
  fun db =>
    match invitations db !! id with
    | Some i => (inr tt, with_invitations (insert id (f i)) db)
    | None => (inl RecordNotFound, db)
    end.

(** [prisma.invitation.delete({ where: { id } })] *)
Definition invitation_delete (id : string) : Prisma unit :=
  fun db =>
    if has id (invitations db) then
      (inr tt, with_invitations (delete id) db)
    else (inl RecordNotFound, db).

(* ===================================================================== *)
(** ** Token utilities ([utils/jwt.ts]): the refresh-token ledger *)
(* ===================================================================== *)

(** [/^(\d+)([smhd])$/], defaulting to fifteen minutes. *)
Definition parseDuration (duration : string) : Z :=
  match splitLast duration with
  | Some (digits, unit) =>
      if allDigits digits && negb (String.eqb digits "") then
        let value := parseDigits 0 digits in
        if Ascii.eqb unit "s" then value * 1000
        else if Ascii.eqb unit "m" then value * 60 * 1000
        else if Ascii.eqb unit "h" then value * 60 * 60 * 1000
        else if Ascii.eqb unit "d" then value * 24 * 60 * 60 * 1000
        else 15 * 60 * 1000
      else 15 * 60 * 1000
  | None => 15 * 60 * 1000
  end%Z.

Definition generateRefreshToken (cfg : Config) (env : Env) (userId : string)
    : Prisma string :=
  let token := rand env 0 in
  let expiresAt := (now env + parseDuration (refreshTokenExpiresIn cfg))%Z in
  (* Store refresh token in database *)
  let! _ := refreshToken_create token
              {| rt_id := rand env 1; rt_userId := userId;
                 rt_expiresAt := expiresAt |} in
  ret token.

Record TokenPair := { accessToken : string; refreshToken_ : string }.

Definition generateTokenPair `{J : Jws} (cfg : Config) (env : Env)
    (userId email : string) : Prisma TokenPair :=
  match generateAccessToken cfg (now env)
          {| jp_userId := userId; jp_email := email |} with
  | inl e => throw (JwtThrown e)
  | inr access =>
      let! refresh := generateRefreshToken cfg env userId in
      ret {| accessToken := access; refreshToken_ := refresh |}
  end.

Definition verifyRefreshToken (env : Env) (token : string)
    : Prisma (option string) :=
  let! refreshToken := query (fun db => refreshTokens db !! token) in
  match refreshToken with
  | None => ret None
  | Some r =>
      if (rt_expiresAt r <? now env)%Z then
        (* Clean up expired token *)
        let! _ := refreshToken_delete (rt_id r) in
        ret None
      else ret (Some (rt_userId r))
  end.

Definition revokeRefreshToken (token : string) : Prisma unit :=
  write (with_refreshTokens (delete token)).

Definition revokeAllUserTokens (userId : string) : Prisma unit :=
  write (with_refreshTokens (filter (fun kv => rt_userId kv.2 <> userId))).

(** Cleanup expired tokens (call periodically) *)
Definition cleanupExpiredTokens (env : Env) : Prisma unit :=
  write (with_refreshTokens
           (filter (fun kv => ~ (rt_expiresAt kv.2 < now env)%Z))).
(* ===================================================================== *)
(** ** Requests and responses *)
(* ===================================================================== *)

(** [AuthUser] of [types/index.ts]: [select: { id, email, name }]. *)
Record AuthUser := { au_id : string; au_email : string; au_name : option string }.

Definition selectAuthUser (u : string * User) : AuthUser :=
  {| au_id := u.1; au_email := u_email u.2; au_name := u_name u.2 |}.

(** An Express request with the context the middleware attaches to it. *)
Record Request := {
  authorization : option string;
  cookies : gmap string string;
  params : gmap string string;
  queryString : gmap string string;
  reqBody : gmap string JsVal;
  user : option AuthUser;
  workspace : option (string * Workspace);
  workspaceMember : option (string * WorkspaceMember);
}.

Definition with_user (u : AuthUser) (req : Request) : Request :=
  {| authorization := authorization req; cookies := cookies req;
     params := params req; queryString := queryString req;
     reqBody := reqBody req; user := Some u;
     workspace := workspace req; workspaceMember := workspaceMember req |}.

Definition with_membership (w : string * Workspace)
    (m : string * WorkspaceMember) (req : Request) : Request :=
  {| authorization := authorization req; cookies := cookies req;
     params := params req; queryString := queryString req;
     reqBody := reqBody req; user := user req;
     workspace := Some w; workspaceMember := Some m |}.

Definition with_reqBody (b : gmap string JsVal) (req : Request) : Request :=
  {| authorization := authorization req; cookies := cookies req;
     params := params req; queryString := queryString req;
     reqBody := b; user := user req;
     workspace := workspace req; workspaceMember := workspaceMember req |}.

(** The [data] member of a success body. *)
Inductive Data :=
  | SessionData (u : AuthUser) (access : string)
  | OnboardedData (w : string * Workspace) (m : string * WorkspaceMember)
      (s : string * WorkspaceSettings)
  | WorkspaceData (w : string * Workspace)
      (settings : option (string * WorkspaceSettings))
  | MemberData (m : string * WorkspaceMember)
  | InvitationData (i : string * Invitation) (inviteLink : string).

Inductive Body :=
  | ErrorBody (error : string)        (* { success: false, error } *)
  | MessageBody (message : string)    (* { success: true, message } *)
  | DataBody (data : Data).           (* { success: true, data } *)

Inductive CookieOp :=
  | CookieKeep
  | CookieSet (name value : string)   (* res.cookie(name, value, ...) *)
  | CookieClear (name : string).      (* res.clearCookie(name) *)

Record Response := { status : nat; setCookie : CookieOp; body : Body }.

Definition reject (code : nat) (error : string) : Response :=
  {| status := code; setCookie := CookieKeep; body := ErrorBody error |}.

Definition Handler : Type := Request -> Db -> Response * Db.

(** [try { ... } catch (error) { res.status(500).json(...) }] *)
Definition tryCatch (c : Prisma Response) (onError : Response)
    : Db -> Response * Db :=
  fun db => match c db with
            | (inr r, db') => (r, db')
            | (inl _, db') => (onError, db')
            end.

(* ===================================================================== *)
(** ** Auth controller ([controllers/auth.ts]) *)
(* ===================================================================== *)

(** [req.cookies?.refreshToken || req.body.refreshToken] *)
Definition presentedRefreshToken (req : Request) : JsVal :=
  match cookies req !! "refreshToken" with
  | Some c => if truthy (JStr c) then JStr c
              else field "refreshToken" (reqBody req)
  | None => field "refreshToken" (reqBody req)
  end.

Definition refreshToken `{J : Jws} (cfg : Config) (env : Env) : Handler := fun req =>
  tryCatch
    (let token := presentedRefreshToken req in
     if negb (truthy token) then ret (reject 401 "Refresh token required")
     else
       match token with
       | JStr t =>
           (* Verify refresh token *)
           let! userId := verifyRefreshToken env t in
           match userId with
           | None => ret (reject 401 "Invalid refresh token")
           | Some uid =>
               if String.eqb uid "" then ret (reject 401 "Invalid refresh token")
               else
                 (* Get user *)
                 let! u := query (fun db => users db !! uid) in
                 match u with
                 | None => ret (reject 401 "User not found")
                 | Some u =>
                     let u := selectAuthUser (uid, u) in
                     (* Revoke old refresh token *)
                     let! _ := revokeRefreshToken t in
                     (* Generate new tokens *)
                     let! tokens := generateTokenPair cfg env (au_id u) (au_email u) in
                     ret {| status := 200;
                            setCookie := CookieSet "refreshToken" (refreshToken_ tokens);
                            body := DataBody (SessionData u (accessToken tokens)) |}
                 end
           end
       | _ => throw ValidationError
       end)
    (reject 500 "Token refresh failed").

Definition logout : Handler := fun req =>
  tryCatch
    (let! _ :=
       match cookies req !! "refreshToken" with
       | Some token => if truthy (JStr token) then revokeRefreshToken token
                       else ret tt
       | None => ret tt
       end in
     ret {| status := 200; setCookie := CookieClear "refreshToken";
            body := MessageBody "Logged out successfully" |})
    (reject 500 "Logout failed").

Definition logoutAll : Handler := fun req =>
  tryCatch
    (match user req with
     | None => ret (reject 401 "Authentication required")
     | Some u =>
         let! _ := revokeAllUserTokens (au_id u) in
         ret {| status := 200; setCookie := CookieClear "refreshToken";
                body := MessageBody "Logged out from all devices" |}
     end)
    (reject 500 "Logout failed").

(* ===================================================================== *)
(** ** Middleware ([middleware/auth.ts]) *)
(* ===================================================================== *)

(** A middleware either answers the request or calls [next()] with the
    request it may have extended.  None of them writes to the store. *)
Definition Middleware : Type := Request -> Db -> Response + Request.

(** [authHeader?.startsWith('Bearer ') ? authHeader.slice(7)
                                       : req.cookies?.accessToken] *)
Definition bearerToken (req : Request) : option string :=
  match authorization req with
  | Some authHeader =>
      if startsWith "Bearer " authHeader then Some (slice 7 authHeader)
      else cookies req !! "accessToken"
  | None => cookies req !! "accessToken"
  end.

Definition authenticate `{J : Jws} (cfg : Config) (env : Env) : Middleware :=
  fun req db =>
    match bearerToken req with
    | None => inl (reject 401 "Authentication required")
    | Some token =>
        if negb (truthy (JStr token)) then
          inl (reject 401 "Authentication required")
        else
          (* Verify token *)
          match verifyAccessToken cfg (now env) token with
          | None => inl (reject 401 "Invalid or expired token")
          | Some payload =>
              (* Get user from database *)
              match users db !! jp_userId payload with
              | None => inl (reject 401 "User not found")
              | Some u =>
                  inr (with_user (selectAuthUser (jp_userId payload, u)) req)
              end
          end
    end.

(** [a || b] on two optional strings. *)
Definition orElse (a b : option string) : option string :=
  match a with
  | Some s => if truthy (JStr s) then Some s else b
  | None => b
  end.

Definition requireWorkspace : Middleware := fun req db =>
  match user req with
  | None => inl (reject 401 "Authentication required")
  | Some u =>
      (* Get workspace ID from params or query *)
      let workspaceId :=
        orElse (params req !! "workspaceId") (queryString req !! "workspaceId") in
      match workspaceId with
      | None => inl (reject 400 "Workspace ID required")
      | Some workspaceId =>
          if negb (truthy (JStr workspaceId)) then
            inl (reject 400 "Workspace ID required")
          else
            (* Check if user is a member of the workspace *)
            match findFirst
                    (fun _ m => bool_decide (wm_userId m = au_id u)
                                && bool_decide (wm_workspaceId m = workspaceId))
                    (workspaceMembers db) with
            | None => inl (reject 403 "Access denied to this workspace")
            | Some membership =>
                match workspaces db !! wm_workspaceId membership.2 with
                | Some w =>
                    inr (with_membership (wm_workspaceId membership.2, w)
                                         membership req)
                | None => inl (reject 500 "Authorization error")
                end
            end
      end
  end.

Definition requireRole (roles : list string) : Middleware := fun req _ =>
  match workspaceMember req with
  | None => inl (reject 403 "Workspace access required")
  | Some m =>
      if negb (bool_decide (roleName (wm_role m.2) ∈ roles)) then
        inl (reject 403 "Insufficient permissions")
      else inr req
  end.

(** [router.METHOD(path, mw1, ..., mwN, handler)] *)
Fixpoint route (mws : list Middleware) (h : Handler) (req : Request) (db : Db)
    : Response * Db :=
  match mws with
  | [] => h req db
  | mw :: rest =>
      match mw req db with
      | inl resp => (resp, db)
      | inr req' => route rest h req' db
      end
  end.

(* ===================================================================== *)
(** ** Workspace controller ([controllers/workspace.ts]) *)
(* ===================================================================== *)

Definition ok (code : nat) (data : Data) : Response :=
  {| status := code; setCookie := CookieKeep; body := DataBody data |}.

Definition okMessage (message : string) : Response :=
  {| status := 200; setCookie := CookieKeep; body := MessageBody message |}.

Definition isOwnerOrAdmin (m : string * WorkspaceMember) : bool :=
  bool_decide (roleName (wm_role m.2) ∈ ["OWNER"; "ADMIN"]).

(** A numeric column written from a JSON value: a number is stored, a
    missing value leaves the column to its default, anything else fails
    validation. *)
Definition numericColumn (v : JsVal) : Thrown + option Z :=
  match v with
  | JNum n => inr (Some n)
  | JUndefined => inr None
  | _ => inl ValidationError
  end.

(** Record updates: [data: { ... }] of an [update]. *)
Definition ws_set_name (n : string) (w : Workspace) : Workspace :=
  {| ws_name := n; ws_type := ws_type w |}.

Definition ws_set_type (t : WorkspaceType) (w : Workspace) : Workspace :=
  {| ws_name := ws_name w; ws_type := t |}.

Definition inv_set_status (s : InvitationStatus) (i : Invitation) : Invitation :=
  {| inv_workspaceId := inv_workspaceId i; inv_email := inv_email i;
     inv_invitedById := inv_invitedById i;
     inv_invitedUserId := inv_invitedUserId i;
     inv_profitSplit := inv_profitSplit i; inv_token := inv_token i;
     inv_status := s; inv_expiresAt := inv_expiresAt i |}.

Definition inv_accept (userId : string) (i : Invitation) : Invitation :=
  {| inv_workspaceId := inv_workspaceId i; inv_email := inv_email i;
     inv_invitedById := inv_invitedById i;
     inv_invitedUserId := Some userId;
     inv_profitSplit := inv_profitSplit i; inv_token := inv_token i;
     inv_status := ACCEPTED; inv_expiresAt := inv_expiresAt i |}.

Definition wm_set_profitSplit (split : option Z) (m : WorkspaceMember)
    : WorkspaceMember :=
  {| wm_userId := wm_userId m; wm_workspaceId := wm_workspaceId m;
     wm_role := wm_role m; wm_isOwner := wm_isOwner m;
     wm_profitSplit := default (wm_profitSplit m) split |}.

(** Complete onboarding - create workspace *)
Definition completeOnboarding (env : Env) : Handler := fun req =>
  tryCatch
    (match user req with
     | None => ret (reject 401 "Authentication required")
     | Some u =>
         let workspaceName := field "workspaceName" (reqBody req) in
         let accountType := field "accountType" (reqBody req) in
         let defaultBuyRate := field "defaultBuyRate" (reqBody req) in
         let defaultSellRate := field "defaultSellRate" (reqBody req) in
         (* Check if user already has a workspace *)
         let! existingMember :=
           query (fun db =>
             findFirst (fun _ m => bool_decide (wm_userId m = au_id u))
                       (workspaceMembers db)) in
         match existingMember with
         | Some _ => ret (reject 400 "Workspace already exists")
         | None =>
             (* Create workspace with settings in a transaction *)
             let! result := transaction
               (match workspaceName, accountType with
                | JStr name, JStr type =>
                    match workspaceTypeOfString type,
                          numericColumn defaultBuyRate,
                          numericColumn defaultSellRate with
                    | Some type, inr buy, inr sell =>
                        let w := (rand env 0,
                                  {| ws_name := name; ws_type := type |}) in
                        let m := (rand env 1,
                                  {| wm_userId := au_id u; wm_workspaceId := w.1;
                                     wm_role := OWNER; wm_isOwner := true;
                                     wm_profitSplit := 100 |}) in
                        let s := (rand env 2,
                                  {| st_workspaceId := w.1;
                                     st_defaultBuyRate := buy;
                                     st_defaultSellRate := sell |}) in
                        let! _ := workspace_create w.1 w.2 in
                        let! _ := workspaceMember_create m.1 m.2 in
                        let! _ := workspaceSettings_create s.1 s.2 in
                        ret (OnboardedData w m s)
                    | _, _, _ => throw ValidationError
                    end
                | _, _ => throw ValidationError
                end) in
             ret (ok 201 result)
         end
     end)
    (reject 500 "Failed to complete onboarding").

(** Update workspace.  [{ ...(name && { name }), ...(type && { type }) }]:
    a truthy member of the body is passed on to the store, which accepts a
    string for the name and an enum member for the type. *)
Definition updateWorkspace : Handler := fun req =>
  tryCatch
    (match workspace req, workspaceMember req with
     | Some ws, Some member =>
         (* Only owner/admin can update *)
         if negb (isOwnerOrAdmin member) then
           ret (reject 403 "Insufficient permissions")
         else
           let name := field "name" (reqBody req) in
           let type := field "type" (reqBody req) in
           let setName : Thrown + (Workspace -> Workspace) :=
             if truthy name then
               match name with
               | JStr n => inr (ws_set_name n)
               | _ => inl ValidationError
               end
             else inr (fun w => w) in
           let setType : Thrown + (Workspace -> Workspace) :=
             if truthy type then
               match type with
               | JStr t =>
                   match workspaceTypeOfString t with
                   | Some t => inr (ws_set_type t)
                   | None => inl ValidationError
                   end
               | _ => inl ValidationError
               end
             else inr (fun w => w) in
           match setName, setType with
           | inr setName, inr setType =>
               let! w := workspace_update ws.1 (fun w => setType (setName w)) in
               let! settings :=
                 query (fun db =>
                   findFirst (fun _ s => bool_decide (st_workspaceId s = w.1))
                             (workspaceSettings db)) in
               ret (ok 200 (WorkspaceData w settings))
           | _, _ => throw ValidationError
           end
     | _, _ => ret (reject 404 "Workspace not found")
     end)
    (reject 500 "Failed to update workspace").

(** Invite partner *)
Definition invitePartner `{U : CaseMapping} (cfg : Config) (env : Env)
    : Handler := fun req =>
  tryCatch
    (match workspace req, workspaceMember req with
     | Some ws, Some member =>
         (* Only owner/admin can invite *)
         if negb (isOwnerOrAdmin member) then
           ret (reject 403 "Insufficient permissions")
         else
           let profitSplit := field "profitSplit" (reqBody req) in
           match field "email" (reqBody req) with
           | JStr email =>
               (* Check if user is already a member *)
               let! existingInvitee :=
                 query (fun db =>
                   findFirst (fun _ u => bool_decide (u_email u = toLowerCase email))
                             (users db)) in
               let! existingMember :=
                 match existingInvitee with
                 | Some invitee =>
                     query (fun db =>
                       findFirst
                         (fun _ m => bool_decide (wm_userId m = invitee.1)
                                     && bool_decide (wm_workspaceId m = ws.1))
                         (workspaceMembers db))
                 | None => ret None
                 end in
               match existingMember with
               | Some _ => ret (reject 400 "User is already a member")
               | None =>
                   (* Check for pending invitation *)
                   let! pendingInvite :=
                     query (fun db =>
                       findFirst
                         (fun _ i => bool_decide (inv_workspaceId i = ws.1)
                                     && bool_decide (inv_email i = toLowerCase email)
                                     && bool_decide (inv_status i = PENDING))
                         (invitations db)) in
                   match pendingInvite with
                   | Some _ => ret (reject 400 "Invitation already pending")
                   | None =>
                       (* Create invitation *)
                       match user req, profitSplit, invitationExpiryDays cfg with
                       | None, _, _ => throw TypeError
                       | Some u, JNum split, Some days =>
                           let invitation :=
                             (rand env 0,
                              {| inv_workspaceId := ws.1;
                                 inv_email := toLowerCase email;
                                 inv_invitedById := au_id u;
                                 inv_invitedUserId := fst <$> existingInvitee;
                                 inv_profitSplit := split;
                                 inv_token := rand env 1;
                                 inv_status := default_status;
                                 inv_expiresAt :=
                                   (now env + days * 24 * 60 * 60 * 1000)%Z |}) in
                           let! _ := invitation_create invitation.1 invitation.2 in
                           ret (ok 201
                                  (InvitationData invitation
                                     (clientUrl cfg +:+ "/invite/"
                                      +:+ inv_token invitation.2)))
                       | Some _, _, _ => throw ValidationError
                       end
                   end
               end
           | _ => throw TypeError
           end
     | _, _ => ret (reject 404 "Workspace not found")
     end)
    (reject 500 "Failed to send invitation").

(** Accept invitation *)
Definition acceptInvitation `{U : CaseMapping} (env : Env) : Handler := fun req =>
  tryCatch
    (match user req with
     | None => ret (reject 401 "Authentication required")
     | Some u =>
         match field "token" (reqBody req) with
         | JStr token =>
             (* Find invitation *)
             let! invitation :=
               query (fun db =>
                 findFirst (fun _ i => bool_decide (inv_token i = token))
                           (invitations db)) in
             match invitation with
             | None => ret (reject 404 "Invitation not found")
             | Some invitation =>
                 (* include: { workspace: true }, a required relation *)
                 let! invitationWorkspace :=
                   query (fun db => workspaces db !! inv_workspaceId invitation.2) in
                 match invitationWorkspace with
                 | None => throw InconsistentResult
                 | Some invitationWorkspace =>
                     if negb (bool_decide (inv_status invitation.2 = PENDING)) then
                       ret (reject 400 "Invitation is no longer valid")
                     else if (inv_expiresAt invitation.2 <? now env)%Z then
                       let! _ := invitation_update invitation.1
                                   (inv_set_status EXPIRED) in
                       ret (reject 400 "Invitation has expired")
                     (* Verify email matches *)
                     else if negb (String.eqb (toLowerCase (inv_email invitation.2))
                                              (toLowerCase (au_email u))) then
                       ret (reject 403
                              "This invitation is for a different email address")
                     else
                       (* Accept invitation in transaction *)
                       let! result := transaction
                         ((* Update invitation *)
                          let! _ := invitation_update invitation.1
                                      (inv_accept (au_id u)) in
                          (* Add user to workspace *)
                          let member :=
                            (rand env 0,
                             {| wm_userId := au_id u;
                                wm_workspaceId := inv_workspaceId invitation.2;
                                wm_role := MEMBER;
                                wm_isOwner := default_isOwner;
                                wm_profitSplit := inv_profitSplit invitation.2 |}) in
                          let! _ := workspaceMember_create member.1 member.2 in
                          (* Update workspace type to PARTNERSHIP if not already *)
                          let! _ :=
                            if bool_decide (ws_type invitationWorkspace = SOLE_TRADER)
                            then
                              let! _ := workspace_update
                                (inv_workspaceId invitation.2)
                                (ws_set_type PARTNERSHIP) in
                              ret tt
                            else ret tt in
                          ret member) in
                       ret (ok 200 (MemberData result))
                 end
             end
         | _ => throw ValidationError
         end
     end)
    (reject 500 "Failed to accept invitation").

(** How a [where]/[data] member of string type reads a JSON value. *)
Definition stringFilter (v : JsVal) : Thrown + option string :=
  match v with
  | JStr s => inr (Some s)
  | JUndefined => inr None
  | _ => inl ValidationError
  end.

(** Update profit split *)
Definition updateProfitSplit : Handler := fun req =>
  tryCatch
    (match workspace req, workspaceMember req with
     | Some ws, Some caller =>
         (* Only owner can update profit splits *)
         if negb (bool_decide (roleName (wm_role caller.2) = "OWNER")) then
           ret (reject 403 "Only owner can update profit splits")
         else
           let memberId := field "memberId" (reqBody req) in
           let profitSplit := field "profitSplit" (reqBody req) in
           match stringFilter memberId with
           | inl e => throw e
           | inr idWhere =>
               (* Verify member exists in workspace *)
               let! member :=
                 query (fun db =>
                   findFirst
                     (fun id m => idFilter idWhere id
                                  && bool_decide (wm_workspaceId m = ws.1))
                     (workspaceMembers db)) in
               match member with
               | None => ret (reject 404 "Member not found")
               | Some _ =>
                   (* Update profit split *)
                   match idWhere, numericColumn profitSplit with
                   | Some id, inr split =>
                       let! updated := workspaceMember_update id
                                         (wm_set_profitSplit split) in
                       ret (ok 200 (MemberData updated))
                   | _, _ => throw ValidationError
                   end
               end
           end
     | _, _ => ret (reject 404 "Workspace not found")
     end)
    (reject 500 "Failed to update profit split").

(** Remove member from workspace *)
Definition removeMember : Handler := fun req =>
  tryCatch
    (match workspace req, workspaceMember req with
     | Some ws, Some caller =>
         (* Only owner can remove members *)
         if negb (bool_decide (roleName (wm_role caller.2) = "OWNER")) then
           ret (reject 403 "Only owner can remove members")
         else
           let memberId := params req !! "memberId" in
           (* Find member *)
           let! member :=
             query (fun db =>
               findFirst
                 (fun id m => idFilter memberId id
                              && bool_decide (wm_workspaceId m = ws.1))
                 (workspaceMembers db)) in
           match member with
           | None => ret (reject 404 "Member not found")
           | Some member =>
               (* Cannot remove owner *)
               if wm_isOwner member.2 then
                 ret (reject 400 "Cannot remove workspace owner")
               else
                 (* Remove member *)
                 match memberId with
                 | Some memberId =>
                     let! _ := workspaceMember_delete memberId in
                     ret (okMessage "Member removed successfully")
                 | None => throw ValidationError
                 end
           end
     | _, _ => ret (reject 404 "Workspace not found")
     end)
    (reject 500 "Failed to remove member").

(** Cancel invitation *)
Definition cancelInvitation : Handler := fun req =>
  tryCatch
    (match workspace req, workspaceMember req with
     | Some ws, Some caller =>
         if negb (isOwnerOrAdmin caller) then
           ret (reject 403 "Insufficient permissions")
         else
           let invitationId := params req !! "invitationId" in
           let! invitation :=
             query (fun db =>
               findFirst
                 (fun id i => idFilter invitationId id
                              && bool_decide (inv_workspaceId i = ws.1)
                              && bool_decide (inv_status i = PENDING))
                 (invitations db)) in
           match invitation with
           | None => ret (reject 404 "Invitation not found")
           | Some _ =>
               match invitationId with
               | Some invitationId =>
                   let! _ := invitation_delete invitationId in
                   ret (okMessage "Invitation cancelled")
               | None => throw ValidationError
               end
           end
     | _, _ => ret (reject 404 "Workspace not found")
     end)
    (reject 500 "Failed to cancel invitation").

(* ===================================================================== *)
(** ** Routes ([routes/auth.ts], [routes/workspace.ts]) *)
(* ===================================================================== *)

(** [validate(acceptInvitationSchema)]:
    [z.object({ token: z.string().min(1) })]; the parsed object, which
    keeps the declared keys only, replaces the body. *)
Definition validateAcceptInvitation : Middleware := fun req _ =>
  match field "token" (reqBody req) with
  | JStr t =>
      if String.eqb t "" then inl (reject 400 "Validation failed")
      else inr (with_reqBody {[ "token" := JStr t ]} req)
  | _ => inl (reject 400 "Validation failed")
  end.

Section Routes.
Context `{J : Jws} `{U : CaseMapping} (cfg : Config) (env : Env).

Definition post_auth_refresh : Handler := refreshToken cfg env.
Definition post_auth_logout : Handler := logout.
Definition post_auth_logoutAll : Handler :=
  route [authenticate cfg env] logoutAll.

Definition post_invitations_accept : Handler :=
  route [authenticate cfg env; validateAcceptInvitation] (acceptInvitation env).

Definition patch_workspace : Handler :=
  route [authenticate cfg env; requireWorkspace; requireRole ["OWNER"; "ADMIN"]]
        updateWorkspace.

Definition delete_member : Handler :=
  route [authenticate cfg env; requireWorkspace; requireRole ["OWNER"]]
        removeMember.

Definition delete_invitation : Handler :=
  route [authenticate cfg env; requireWorkspace; requireRole ["OWNER"; "ADMIN"]]
        cancelInvitation.
End Routes.

(** The handlers that write to the store, as one step function. *)
Inductive Endpoint :=
  | E_refreshToken
  | E_logout
  | E_logoutAll
  | E_completeOnboarding
  | E_updateWorkspace
  | E_invitePartner
  | E_acceptInvitation
  | E_updateProfitSplit
  | E_removeMember
  | E_cancelInvitation.

Definition serve `{J : Jws} `{U : CaseMapping} (cfg : Config) (env : Env)
    (e : Endpoint) : Handler :=
  match e with
  | E_refreshToken => refreshToken cfg env
  | E_logout => logout
  | E_logoutAll => logoutAll
  | E_completeOnboarding => completeOnboarding env
  | E_updateWorkspace => updateWorkspace
  | E_invitePartner => invitePartner cfg env
  | E_acceptInvitation => acceptInvitation env
  | E_updateProfitSplit => updateProfitSplit
  | E_removeMember => removeMember
  | E_cancelInvitation => cancelInvitation
  end.

(** The refresh-token ledger is written only through the five functions of
    [utils/jwt.ts]; every caller (login, registration, the OAuth callbacks,
    refresh, logout, the periodic cleanup) is a sequence of these calls,
    interleaved with writes to the other tables. *)
Inductive LedgerCall :=
  | Generate (cfg : Config) (env : Env) (userId : string)
  | Verify (env : Env) (token : string)
  | Revoke (token : string)
  | RevokeAll (userId : string)
  | Cleanup (env : Env)
  | Elsewhere (f : Db -> Db).

Definition ledgerCall (c : LedgerCall) (db : Db) : Db :=
  match c with
  | Generate cfg env userId => (generateRefreshToken cfg env userId db).2
  | Verify env token => (verifyRefreshToken env token db).2
  | Revoke token => (revokeRefreshToken token db).2
  | RevokeAll userId => (revokeAllUserTokens userId db).2
  | Cleanup env => (cleanupExpiredTokens env db).2
  | Elsewhere f => with_refreshTokens (fun _ => refreshTokens db) (f db)
  end.

Definition ledgerRun (cs : list LedgerCall) (db : Db) : Db :=
  fold_left (fun db c => ledgerCall c db) cs db.

(** The [uuidv4()] value a call draws for a new token, if it draws one. *)
Definition draws (c : LedgerCall) : option string :=
  match c with
  | Generate _ env _ => Some (rand env 0)
  | _ => None
  end.

(** *** What one request can do to the store

    [Effect e req db db'] lists the ways endpoint [e], serving [req], can
    turn [db] into [db']; each handler is shown below to stay within it. *)
Inductive Effect (e : Endpoint) (req : Request) (db : Db) : Db -> Prop :=
  | eff_none :
      Effect e req db db
  | eff_ledger db' :
      users db' = users db ->
      workspaces db' = workspaces db ->
      workspaceMembers db' = workspaceMembers db ->
      invitations db' = invitations db ->
      workspaceSettings db' = workspaceSettings db ->
      Effect e req db db'
  | eff_onboarded wid w mid uid sid s :
      e = E_completeOnboarding ->
      workspaces db !! wid = None ->
      workspaceMembers db !! mid = None ->
      Effect e req db
        (with_workspaceSettings (insert sid s)
           (with_workspaceMembers
              (insert mid {| wm_userId := uid; wm_workspaceId := wid;
                             wm_role := OWNER; wm_isOwner := true;
                             wm_profitSplit := 100 |})
              (with_workspaces (insert wid w) db)))
  | eff_workspace_updated wid w w' :
      e = E_updateWorkspace ->
      workspaces db !! wid = Some w ->
      (ws_type w' = ws_type w \/
       exists t, field "type" (reqBody req) = JStr t /\
                 workspaceTypeOfString t = Some (ws_type w')) ->
      Effect e req db (with_workspaces (insert wid w') db)
  | eff_invited id i :
      e = E_invitePartner ->
      invitations db !! id = None ->
      inv_status i = PENDING ->
      Effect e req db (with_invitations (insert id i) db)
  | eff_expired id i :
      e = E_acceptInvitation ->
      invitations db !! id = Some i ->
      inv_status i = PENDING ->
      Effect e req db
        (with_invitations (insert id (inv_set_status EXPIRED i)) db)
  | eff_accepted id i uid mid w :
      e = E_acceptInvitation ->
      invitations db !! id = Some i ->
      inv_status i = PENDING ->
      workspaceMembers db !! mid = None ->
      workspaces db !! inv_workspaceId i = Some w ->
      Effect e req db
        (with_workspaces
           (insert (inv_workspaceId i) (ws_set_type PARTNERSHIP w))
           (with_workspaceMembers
              (insert mid {| wm_userId := uid;
                             wm_workspaceId := inv_workspaceId i;
                             wm_role := MEMBER; wm_isOwner := false;
                             wm_profitSplit := inv_profitSplit i |})
              (with_invitations (insert id (inv_accept uid i)) db)))
  | eff_split id m split :
      e = E_updateProfitSplit ->
      workspaceMembers db !! id = Some m ->
      Effect e req db
        (with_workspaceMembers (insert id (wm_set_profitSplit split m)) db)
  | eff_removed id m :
      e = E_removeMember ->
      workspaceMembers db !! id = Some m ->
      wm_isOwner m = false ->
      Effect e req db (with_workspaceMembers (delete id) db)
  | eff_cancelled id i :
      e = E_cancelInvitation ->
      invitations db !! id = Some i ->
      inv_status i = PENDING ->
      Effect e req db (with_invitations (delete id) db).

(** *** The owner of a workspace *)

(** Member [id] is an owner member of workspace [wid]. *)
Definition isOwnerOf (db : Db) (wid id : string) : Prop :=
  exists m, workspaceMembers db !! id = Some m /\
            wm_workspaceId m = wid /\ wm_isOwner m = true.

Definition exactlyOneOwner (db : Db) (wid : string) : Prop :=
  exists id, isOwnerOf db wid id /\ forall id', isOwnerOf db wid id' -> id' = id.

(** Every member row refers to a workspace that exists, and every
    workspace has exactly one member flagged [isOwner]. *)
Definition ownerInvariant (db : Db) : Prop :=
  (forall id m, workspaceMembers db !! id = Some m ->
                is_Some (workspaces db !! wm_workspaceId m)) /\
  (forall wid, is_Some (workspaces db !! wid) -> exactlyOneOwner db wid).

(** The stores the system can be in.  It starts without workspaces; the
    endpoints of [serve] take it from one store to the next; every other
    endpoint (registration, login, the OAuth callbacks, cards,
    transactions, settings, the dashboard) writes to other tables only. *)
Inductive Reachable `{J : Jws} `{U : CaseMapping} (cfg : Config) : Db -> Prop :=
  | reach_initial db :
      workspaces db = ∅ -> workspaceMembers db = ∅ -> invitations db = ∅ ->
      Reachable cfg db
  | reach_serve db env e req :
      Reachable cfg db -> Reachable cfg (serve cfg env e req db).2
  | reach_elsewhere db db' :
      Reachable cfg db ->
      workspaces db' = workspaces db ->
      workspaceMembers db' = workspaceMembers db ->
      invitations db' = invitations db ->
      Reachable cfg db'.

(* ===================================================================== *)
(** ** Sample data *)
(* ===================================================================== *)

Definition cfg0 : Config := {|
  jwtSecret := "dev-secret";
  jwtExpiresIn := "15m";
  refreshTokenExpiresIn := "7d";
  invitationExpiryDays := Some 7%Z;
  clientUrl := "http://localhost:5173";
|}.

Definition alice : JwtPayload := {| jp_userId := "u1"; jp_email := "a@x.com" |}.

Definition alice_token : string :=
  match generateAccessToken (J:=ref_jws) cfg0 5000 alice with
  | inr t => t
  | inl _ => ""
  end.

Definition env_at (t : Z) (prefix : string) : Env :=
  {| now := t; rand := fun n => prefix +:+ tally n |}.

Definition req0 : Request := {|
  authorization := None; cookies := ∅; params := ∅; queryString := ∅;
  reqBody := ∅; user := None; workspace := None; workspaceMember := None |}.

Definition with_cookies (c : gmap string string) (req : Request) : Request :=
  {| authorization := authorization req; cookies := c;
     params := params req; queryString := queryString req;
     reqBody := reqBody req; user := user req;
     workspace := workspace req; workspaceMember := workspaceMember req |}.

Definition with_params (p : gmap string string) (req : Request) : Request :=
  {| authorization := authorization req; cookies := cookies req;
     params := p; queryString := queryString req;
     reqBody := reqBody req; user := user req;
     workspace := workspace req; workspaceMember := workspaceMember req |}.

Definition with_authorization (h : string) (req : Request) : Request :=
  {| authorization := Some h; cookies := cookies req;
     params := params req; queryString := queryString req;
     reqBody := reqBody req; user := user req;
     workspace := workspace req; workspaceMember := workspaceMember req |}.

Definition ann : AuthUser :=
  {| au_id := "u1"; au_email := "a@x.com"; au_name := Some "Ann" |}.
Definition bob : AuthUser :=
  {| au_id := "u2"; au_email := "b@x.com"; au_name := None |}.

(** Two registered users, nothing else. *)
Definition db_users : Db := {|
  users := {[ "u1" := {| u_email := "a@x.com"; u_name := Some "Ann" |};
              "u2" := {| u_email := "b@x.com"; u_name := None |} ]};
  refreshTokens := ∅; workspaces := ∅; workspaceMembers := ∅;
  invitations := ∅; workspaceSettings := ∅ |}.

(** Ann holds two sessions and Bob one. *)
Definition db_sessions : Db :=
  with_refreshTokens
    (fun _ => {[ "rt-a1" := {| rt_id := "r1"; rt_userId := "u1"; rt_expiresAt := 9000 |};
                 "rt-a2" := {| rt_id := "r2"; rt_userId := "u1"; rt_expiresAt := 9500 |};
                 "rt-b1" := {| rt_id := "r3"; rt_userId := "u2"; rt_expiresAt := 9900 |} ]})
    db_users.

(** Ann presents her first refresh token at time 5000. *)
Definition rotate_env : Env := env_at 5000 "n".
Definition rotate_req : Request :=
  with_cookies {[ "refreshToken" := "rt-a1" ]} req0.

Definition carol : AuthUser :=
  {| au_id := "u3"; au_email := "c@x.com"; au_name := Some "Carol" |}.

Definition w1_sole : Workspace := {| ws_name := "W"; ws_type := SOLE_TRADER |}.

Definition m1_owner : WorkspaceMember :=
  {| wm_userId := "u1"; wm_workspaceId := "w1"; wm_role := OWNER;
     wm_isOwner := true; wm_profitSplit := 100 |}.

Definition i1_pending : Invitation :=
  {| inv_workspaceId := "w1"; inv_email := "b@x.com"; inv_invitedById := "u1";
     inv_invitedUserId := Some "u2"; inv_profitSplit := 40; inv_token := "tok1";
     inv_status := PENDING; inv_expiresAt := 9000 |}.

(** Ann owns workspace w1 and has invited Bob; Carol is a third user. *)
Definition db_invited : Db := {|
  users := {[ "u1" := {| u_email := "a@x.com"; u_name := Some "Ann" |};
              "u2" := {| u_email := "b@x.com"; u_name := None |};
              "u3" := {| u_email := "c@x.com"; u_name := Some "Carol" |} ]};
  refreshTokens := ∅;
  workspaces := {[ "w1" := w1_sole ]};
  workspaceMembers := {[ "m1" := m1_owner ]};
  invitations := {[ "i1" := i1_pending ]};
  workspaceSettings := ∅ |}.

(** Carol presents Bob's invitation token. *)
Definition accept_req (u : AuthUser) : Request :=
  with_reqBody {[ "token" := JStr "tok1" ]} (with_user u req0).

(** A request on workspace w1 carrying the caller's resolved membership. *)
Definition member_req (role : MemberRole) : Request :=
  with_membership ("w1", w1_sole)
    ("mx", {| wm_userId := "ux"; wm_workspaceId := "w1"; wm_role := role;
              wm_isOwner := false; wm_profitSplit := 0 |})
    req0.


(** Ann tries to remove her own (owner) member row. *)
Definition remove_owner_req : Request :=
  with_params {[ "workspaceId" := "w1"; "memberId" := "m1" ]}
    (with_authorization ("Bearer " +:+ alice_token) req0).

(** A workspace's life: Ann creates it as a sole trader, invites Bob, Bob
    accepts, and Ann then patches the workspace type. *)
Definition onboard_req : Request :=
  with_reqBody {[ "workspaceName" := JStr "W";
                  "accountType" := JStr "SOLE_TRADER";
                  "defaultBuyRate" := JNum 1542;
                  "defaultSellRate" := JNum 1550 ]}
    (with_user ann req0).

Definition db_onboarded : Db :=
  (completeOnboarding (env_at 1000 "w") onboard_req db_users).2.

Definition ann_in_w (req : Request) : Request :=
  with_membership ("w", w1_sole)
    ("w1", {| wm_userId := "u1"; wm_workspaceId := "w"; wm_role := OWNER;
              wm_isOwner := true; wm_profitSplit := 100 |})
    (with_user ann req).

Definition invite_req : Request :=
  with_reqBody {[ "email" := JStr "B@x.com"; "profitSplit" := JNum 40 ]}
    (ann_in_w req0).

Definition db_bob_invited : Db :=
  (invitePartner (U:=ascii_case) cfg0 (env_at 2000 "i") invite_req db_onboarded).2.

(** Ann cancels, through the route, the invitation she sent to Bob. *)
Definition cancel_req : Request :=
  with_params {[ "workspaceId" := "w"; "invitationId" := "i" ]}
    (with_authorization ("Bearer " +:+ alice_token) req0).

Definition bob_accept_req : Request :=
  with_reqBody {[ "token" := JStr "i1" ]} (with_user bob req0).

Definition db_partnership : Db :=
  (acceptInvitation (U:=ascii_case) (env_at 3000 "m") bob_accept_req
     db_bob_invited).2.

Definition patch_req : Request :=
  with_reqBody {[ "type" := JStr "SOLE_TRADER" ]}
    (with_params {[ "workspaceId" := "w" ]}
       (with_authorization ("Bearer " +:+ alice_token) req0)).

Definition revert_req : Request :=
  with_reqBody {[ "type" := JStr "SOLE_TRADER" ]} (ann_in_w req0).

Definition carol_token : string :=
  match generateAccessToken (J:=ref_jws) cfg0 5000
          {| jp_userId := "u3"; jp_email := "c@x.com" |} with
  | inr t => t
  | inl _ => ""
  end.

(** Carol presents Bob's invitation token through the route; the body
    carries a member the validator drops. *)
Definition carol_accept_req : Request :=
  with_reqBody {[ "token" := JStr "tok1"; "extra" := JNum 1 ]}
    (with_authorization ("Bearer " +:+ carol_token) req0).

Definition logoutAll_req : Request :=
  with_authorization ("Bearer " +:+ alice_token) req0.

(* ===================================================================== *)
(** ** Further definitions: durations, optional authentication, the rows
       the workspace handlers write, table keys *)
(* ===================================================================== *)

(** The multiplier of a unit letter of [parseDuration]; [None] is the
    [default] branch of the [switch]. *)
Definition unitMillis (u : ascii) : option Z :=
  if Ascii.eqb u "s" then Some 1000%Z
  else if Ascii.eqb u "m" then Some 60000%Z
  else if Ascii.eqb u "h" then Some 3600000%Z
  else if Ascii.eqb u "d" then Some 86400000%Z
  else None.

(** [Number.MAX_SAFE_INTEGER]: up to here the arithmetic of [parseDuration]
    on doubles is exact. *)
Definition maxSafeInteger : Z := 9007199254740991.

(** Optional authentication - doesn't fail if no token
    ([middleware/auth.ts]).  A missing header, a bad token and an unknown
    user all fall through to [next()] without a user. *)
Definition optionalAuth `{J : Jws} (cfg : Config) (env : Env) : Middleware :=
  fun req db =>
    inr
      match bearerToken req with
      | Some token =>
          if truthy (JStr token) then
            match verifyAccessToken cfg (now env) token with
            | Some payload =>
                match users db !! jp_userId payload with
                | Some u => with_user (selectAuthUser (jp_userId payload, u)) req
                | None => req
                end
            | None => req
            end
          else req
      | None => req
      end.

(** The member row [completeOnboarding] creates for the founder. *)
Definition ownerMember (u : AuthUser) (wid : string) : WorkspaceMember :=
  {| wm_userId := au_id u; wm_workspaceId := wid; wm_role := OWNER;
     wm_isOwner := true; wm_profitSplit := 100 |}.

(** The member row [acceptInvitation] creates for the invited user. *)
Definition acceptedMember (u : AuthUser) (i : Invitation) : WorkspaceMember :=
  {| wm_userId := au_id u; wm_workspaceId := inv_workspaceId i;
     wm_role := MEMBER; wm_isOwner := false;
     wm_profitSplit := inv_profitSplit i |}.

(** The invitation row [invitePartner] creates. *)
Definition newInvitation `{U : CaseMapping} (cfg : Config) (env : Env)
    (wid : string) (u : AuthUser) (email : string) (invitee : option string)
    (split days : Z) : Invitation :=
  {| inv_workspaceId := wid; inv_email := toLowerCase email;
     inv_invitedById := au_id u; inv_invitedUserId := invitee;
     inv_profitSplit := split; inv_token := rand env 1;
     inv_status := PENDING;
     inv_expiresAt := (now env + days * 24 * 60 * 60 * 1000)%Z |}.

(** The workspace row [updateWorkspace] writes for the body members
    [name] and [type]: a falsy member leaves its column alone. *)
Definition patched (name type : JsVal) (w : Workspace) : Workspace :=
  {| ws_name := match name with
                | JStr n => if String.eqb n "" then ws_name w else n
                | _ => ws_name w
                end;
     ws_type := match type with
                | JStr t => default (ws_type w) (workspaceTypeOfString t)
                | _ => ws_type w
                end |}.

(** What [updateProfitSplit] leaves alone in a member row. *)
Definition memberIdentity (m : WorkspaceMember)
    : string * string * MemberRole * bool :=
  (wm_userId m, wm_workspaceId m, wm_role m, wm_isOwner m).

(** *** Keys of the tables *)

(** Rows of a table are told apart by [key]: no two rows have the same
    defined key. *)
Definition uniqueBy {A B} (key : A -> option B) (m : gmap string A) : Prop :=
  forall k k' x x' b, m !! k = Some x -> m !! k' = Some x' ->
    key x = Some b -> key x' = Some b -> k = k'.

Definition tokenKey (i : Invitation) : option string := Some (inv_token i).

Definition memberKey (m : WorkspaceMember) : option (string * string) :=
  Some (wm_userId m, wm_workspaceId m).

(** Only pending invitations compete for an address of a workspace. *)
Definition pendingKey (i : Invitation) : option (string * string) :=
  match inv_status i with
  | PENDING => Some (inv_workspaceId i, inv_email i)
  | _ => None
  end.

Record schemaInvariant (db : Db) : Prop := {
  tokens_unique : uniqueBy tokenKey (invitations db);
  member_pairs_unique : uniqueBy memberKey (workspaceMembers db);
  pending_unique : uniqueBy pendingKey (invitations db);
  invitations_refer : forall k i, invitations db !! k = Some i ->
      is_Some (workspaces db !! inv_workspaceId i);
  roles_follow_ownership : forall k m, workspaceMembers db !! k = Some m ->
      wm_role m = if wm_isOwner m then OWNER else MEMBER
}.

(** *** Workspace scope *)

(** The endpoints mounted under [/:workspaceId] that write to the
    workspace [requireWorkspace] resolved. *)
Definition scoped (e : Endpoint) : bool :=
  match e with
  | E_updateWorkspace | E_invitePartner | E_updateProfitSplit
  | E_removeMember | E_cancelInvitation => true
  | _ => false
  end.

(** [db'] has the rows of [db] for every workspace other than [wid]. *)
Definition sameElsewhere (wid : string) (db db' : Db) : Prop :=
  users db' = users db /\ refreshTokens db' = refreshTokens db /\
  (forall id, id <> wid -> workspaces db' !! id = workspaces db !! id) /\
  (forall id m, wm_workspaceId m <> wid ->
     workspaceMembers db' !! id = Some m <-> workspaceMembers db !! id = Some m) /\
  (forall id i, inv_workspaceId i <> wid ->
     invitations db' !! id = Some i <-> invitations db !! id = Some i) /\
  (forall id s, st_workspaceId s <> wid ->
     workspaceSettings db' !! id = Some s <-> workspaceSettings db !! id = Some s).

(** *** What happens later

    [Later cfg allowed db db']: the store [db'] is reached from [db] by
    requests to the endpoints of [serve] that [allowed] admits,
    interleaved with the other endpoints of the server, which write to
    other tables only. *)
Inductive Later `{J : Jws} `{U : CaseMapping} (cfg : Config)
    (allowed : Env -> Endpoint -> Request -> Prop) (db : Db) : Db -> Prop :=
  | later_now : Later cfg allowed db db
  | later_serve db1 env e req :
      Later cfg allowed db db1 -> allowed env e req ->
      Later cfg allowed db (serve cfg env e req db1).2
  | later_elsewhere db1 db2 :
      Later cfg allowed db db1 ->
      workspaces db2 = workspaces db1 ->
      workspaceMembers db2 = workspaceMembers db1 ->
      invitations db2 = invitations db1 ->
      Later cfg allowed db db2.

Definition anyRequest : Env -> Endpoint -> Request -> Prop :=
  fun _ _ _ => True.

(** Every request but an [acceptInvitation] by user [uid]. *)
Definition noAcceptBy (uid : string) : Env -> Endpoint -> Request -> Prop :=
  fun _ e req => e = E_acceptInvitation -> (au_id <$> user req) <> Some uid.

(** Every request but an [invitePartner] whose [uuidv4()] draws the token
    [t] again. *)
Definition noRedraw (t : string) : Env -> Endpoint -> Request -> Prop :=
  fun env e _ => e = E_invitePartner -> rand env 1 <> t.

(** *** More sample requests *)

(** The configuration of a deployment that forgot [JWT_SECRET]. *)
Definition cfg_nosecret : Config := {|
  jwtSecret := "";
  jwtExpiresIn := "15m";
  refreshTokenExpiresIn := "7d";
  invitationExpiryDays := Some 7%Z;
  clientUrl := "http://localhost:5173";
|}.

(** Ann invites Bob again, spelling the address differently. *)
Definition invite_again_req : Request :=
  with_reqBody {[ "email" := JStr "b@X.COM"; "profitSplit" := JNum 50 ]}
    (ann_in_w req0).

(** Ann, resolved as the owner of w, cancels invitation i. *)
Definition cancel_resolved_req : Request :=
  with_params {[ "workspaceId" := "w"; "invitationId" := "i" ]} (ann_in_w req0).

(** Ann, resolved as the owner of w, removes Bob's member row. *)
Definition remove_bob_req : Request :=
  with_params {[ "workspaceId" := "w"; "memberId" := "m" ]} (ann_in_w req0).

(** Ann, resolved as the owner of w, gives Bob thirty percent. *)
Definition split_req : Request :=
  with_reqBody {[ "memberId" := JStr "m"; "profitSplit" := JNum 30 ]}
    (ann_in_w req0).

(** An authenticated request of [u] on workspace w, before
    [requireWorkspace]. *)
Definition enter_w_req (u : AuthUser) : Request :=
  with_params {[ "workspaceId" := "w" ]} (with_user u req0).

(** Ann removes Bob through the route. *)
Definition remove_bob_routed_req : Request :=
  with_params {[ "workspaceId" := "w"; "memberId" := "m" ]}
    (with_authorization ("Bearer " +:+ alice_token) req0).

(** Carol presents the token of Bob's invitation after Bob has used it. *)
Definition carol_retry_req : Request :=
  with_reqBody {[ "token" := JStr "i1" ]} (with_user carol req0).

(** Later requests: a rename of workspace w and Bob's new split. *)
Definition rename_req : Request :=
  with_reqBody {[ "name" := JStr "Ann and Bob" ]} (ann_in_w req0).
(* ===================================================================== *)
(** ** Theorems *)
(* ===================================================================== *)

Lemma append_cons x (a b : string) : String x a +:+ b = String x (a +:+ b).
Proof. reflexivity. Qed.

Lemma append_nil_l (a : string) : "" +:+ a = a.
Proof. reflexivity. Qed.

Lemma append_nil_r (a : string) : a +:+ "" = a.
Proof. induction a as [|x a IH]; [reflexivity|]. now rewrite append_cons, IH. Qed.

Lemma append_assoc (a b c : string) : (a +:+ b) +:+ c = a +:+ (b +:+ c).
Proof.
  induction a as [|x a IH]; [reflexivity|].
  now rewrite !append_cons, IH.
Qed.

Lemma untally_tally n s : untally (tally n +:+ String "0" s) = Some (n, s).
Proof.
  induction n as [|n IH]; [reflexivity|].
  cbn [tally]. rewrite append_cons. cbn [untally]. now rewrite IH.
Qed.

Lemma splitAt_length s r : splitAt (String.length s) (s +:+ r) = Some (s, r).
Proof.
  induction s as [|c s IH]; [reflexivity|].
  rewrite append_cons. cbn [String.length splitAt]. now rewrite IH.
Qed.

Lemma unframe_frame s r : unframe (frame s +:+ r) = Some (s, r).
Proof.
  unfold unframe, frame.
  rewrite append_assoc, append_cons, untally_tally.
  apply splitAt_length.
Qed.

Lemma readZ_showZ z : readZ (showZ z) = Some z.
Proof.
  unfold readZ, showZ. rewrite NilEmpty.isi. now rewrite DecimalZ.of_to.
Qed.

Lemma ref_parse_compact c sg : ref_parse (ref_compact c sg) = Some (c, sg).
Proof.
  unfold ref_parse, ref_compact.
  rewrite !unframe_frame.
  rewrite <- (append_nil_r (frame sg)).
  rewrite unframe_frame, !readZ_showZ.
  destruct c as [[u e] i x]; reflexivity.
Qed.

Instance ref_jws_laws : JwsLaws ref_jws.
Proof. intros c sg. apply ref_parse_compact. Qed.

(** *** Access tokens *)

(** C1. With a signing secret and a lifetime that parses, the token
    [generateAccessToken] produces for a payload [{userId, email}] at time
    [now] expires at second [floor(now / 1000) + floor(lifetime / 1000)];
    verified under the same secret it yields exactly that payload at every
    time whose clock second is before the expiry, and [null] at every time
    at or after it. *)
Theorem access_token_roundtrip `{J : Jws} (L : JwsLaws J) (cfg cfg' : Config)
    (now millis : Z) (payload : JwtPayload) :
  jwtSecret cfg <> "" ->
  ms (jwtExpiresIn cfg) = Some millis ->
  jwtSecret cfg' = jwtSecret cfg ->
  exists tok,
    generateAccessToken cfg now payload = inr tok /\
    forall now' : Z,
      ((now' / 1000 < now / 1000 + millis / 1000)%Z ->
         verifyAccessToken cfg' now' tok = Some payload) /\
      ((now / 1000 + millis / 1000 <= now' / 1000)%Z ->
         verifyAccessToken cfg' now' tok = None).
Proof.
  intros Hsecret Hms Hsame.
  apply String.eqb_neq in Hsecret.
  unfold generateAccessToken, jwt_sign. rewrite Hsecret, Hms.
  eexists. split; [reflexivity|].
  intros now'. unfold verifyAccessToken, jwt_verify.
  rewrite L, Hsame, Hsecret, String.eqb_refl. cbn [negb exp claims_payload].
  split; intros Ht.
  - now destruct (Z.leb_spec (now / 1000 + millis / 1000) (now' / 1000)); [lia|].
  - now destruct (Z.leb_spec (now / 1000 + millis / 1000) (now' / 1000)); [|lia].
Qed.

Lemma access_token_roundtrip_witness :
  exists tok,
    generateAccessToken (J:=ref_jws) cfg0 5000 alice = inr tok /\
    forall now' : Z,
      ((now' / 1000 < 5000 / 1000 + 900000 / 1000)%Z ->
         verifyAccessToken (J:=ref_jws) cfg0 now' tok = Some alice) /\
      ((5000 / 1000 + 900000 / 1000 <= now' / 1000)%Z ->
         verifyAccessToken (J:=ref_jws) cfg0 now' tok = None).
Proof.
  apply (access_token_roundtrip ref_jws_laws cfg0 cfg0 5000 900000 alice).
  - discriminate.
  - vm_compute. reflexivity.
  - reflexivity.
Defined.

(** *** Store lookups *)

Lemma findFirst_Some {A} (P : string -> A -> bool) (m : gmap string A) k a :
  findFirst P m = Some (k, a) -> m !! k = Some a /\ P k a = true.
Proof.
  unfold findFirst. intros Hf.
  apply find_some in Hf as [Hin HP]. split; [|exact HP].
  apply elem_of_map_to_list, list_elem_of_In. exact Hin.
Qed.

Lemma findFirst_None {A} (P : string -> A -> bool) (m : gmap string A) k a :
  findFirst P m = None -> m !! k = Some a -> P k a = false.
Proof.
  unfold findFirst. intros Hf Hk.
  apply (find_none _ _ Hf (k, a)).
  apply list_elem_of_In, elem_of_map_to_list. exact Hk.
Qed.

Lemma findFirst_is_Some {A} (P : string -> A -> bool) (m : gmap string A) k a :
  m !! k = Some a -> P k a = true -> is_Some (findFirst P m).
Proof.
  intros Hk HP. destruct (findFirst P m) as [r|] eqn:Hf; [eauto|].
  rewrite (findFirst_None _ _ _ _ Hf Hk) in HP. discriminate.
Qed.

Lemma has_true {A} id (m : gmap string A) : has id m = true <-> is_Some (m !! id).
Proof. unfold has. apply bool_decide_eq_true. Qed.

Lemma has_false {A} id (m : gmap string A) : has id m = false <-> m !! id = None.
Proof.
  unfold has. rewrite bool_decide_eq_false, <- eq_None_not_Some. reflexivity.
Qed.

Lemma hasRow_true {A} (P : string -> A -> bool) (m : gmap string A) k a :
  m !! k = Some a -> P k a = true -> hasRow P m = true.
Proof.
  intros Hk HP. apply bool_decide_eq_true. eapply findFirst_is_Some; eauto.
Qed.

Lemma hasRow_false {A} (P : string -> A -> bool) (m : gmap string A) k a :
  hasRow P m = false -> m !! k = Some a -> P k a = false.
Proof.
  intros Hr Hk. apply bool_decide_eq_false in Hr.
  destruct (P k a) eqn:HP; [|reflexivity].
  exfalso. apply Hr. eapply findFirst_is_Some; eauto.
Qed.

(** *** The refresh-token ledger *)

Lemma refreshToken_delete_present token r db :
  refreshTokens db !! token = Some r ->
  refreshToken_delete (rt_id r) db =
    (inr tt, with_refreshTokens (filter (fun kv => rt_id kv.2 <> rt_id r)) db).
Proof.
  intros Hr. unfold refreshToken_delete.
  rewrite (hasRow_true _ _ token r Hr); [reflexivity|].
  apply bool_decide_eq_true. reflexivity.
Qed.

Lemma verifyRefreshToken_unfold env token db :
  verifyRefreshToken env token db =
    match refreshTokens db !! token with
    | None => (inr None, db)
    | Some r =>
        if (rt_expiresAt r <? now env)%Z then
          (inr None,
           with_refreshTokens (filter (fun kv => rt_id kv.2 <> rt_id r)) db)
        else (inr (Some (rt_userId r)), db)
    end.
Proof.
  unfold verifyRefreshToken, bind, query.
  destruct (refreshTokens db !! token) as [r|] eqn:Hr; [|reflexivity].
  destruct (rt_expiresAt r <? now env)%Z; [|reflexivity].
  now rewrite (refreshToken_delete_present _ _ _ Hr).
Qed.

Lemma verifyRefreshToken_absent env token db :
  refreshTokens db !! token = None ->
  verifyRefreshToken env token db = (inr None, db).
Proof. intros Hn. now rewrite verifyRefreshToken_unfold, Hn. Qed.

(** C4. [verifyRefreshToken] returns [null] and leaves the ledger alone
    when the token has no row; when the row's expiry is before the current
    time it deletes the row (the rows with that identifier) and returns
    [null], after which the token has no row; otherwise it returns the
    owning user id and leaves the ledger alone. *)
Theorem verifyRefreshToken_cases (env : Env) (token : string) (db : Db) :
  match refreshTokens db !! token with
  | None => verifyRefreshToken env token db = (inr None, db)
  | Some r =>
      if (rt_expiresAt r <? now env)%Z then
        let db' :=
          with_refreshTokens (filter (fun kv => rt_id kv.2 <> rt_id r)) db in
        verifyRefreshToken env token db = (inr None, db') /\
        refreshTokens db' !! token = None /\
        (forall t x, refreshTokens db' !! t = Some x <->
                     refreshTokens db !! t = Some x /\ rt_id x <> rt_id r)
      else verifyRefreshToken env token db = (inr (Some (rt_userId r)), db)
  end.
Proof.
  rewrite verifyRefreshToken_unfold.
  destruct (refreshTokens db !! token) as [r|] eqn:Hr; [|reflexivity].
  destruct (rt_expiresAt r <? now env)%Z; [|reflexivity].
  cbn. split; [reflexivity|]. split.
  - apply map_lookup_filter_None. right. intros x Hx. rewrite Hr in Hx.
    injection Hx as <-. cbn. tauto.
  - intros t x. rewrite map_lookup_filter_Some. reflexivity.
Qed.

(** C3. [revokeAllUserTokens userId] completes; afterwards every token that
    had a row owned by [userId] is rejected by [verifyRefreshToken] at any
    time, while a token owned by another user keeps its row and is
    answered as before. *)
Theorem revokeAllUserTokens_invalidates (userId : string) (db : Db) :
  exists db',
    revokeAllUserTokens userId db = (inr tt, db') /\
    (forall t r, refreshTokens db !! t = Some r -> rt_userId r = userId ->
       forall env, verifyRefreshToken env t db' = (inr None, db')) /\
    (forall t r, refreshTokens db !! t = Some r -> rt_userId r <> userId ->
       refreshTokens db' !! t = Some r /\
       forall env, (verifyRefreshToken env t db').1
                   = (verifyRefreshToken env t db).1).
Proof.
  eexists. split; [reflexivity|]. split.
  - intros t r Hr Hu env. apply verifyRefreshToken_absent. cbn.
    apply map_lookup_filter_None. right. intros x Hx. rewrite Hr in Hx.
    injection Hx as <-. cbn. tauto.
  - intros t r Hr Hu.
    assert (Hk : refreshTokens
                   (with_refreshTokens
                      (filter (fun kv => rt_userId kv.2 <> userId)) db) !! t
                 = Some r).
    { cbn. apply map_lookup_filter_Some. split; [exact Hr|exact Hu]. }
    split; [exact Hk|]. intros env.
    rewrite !verifyRefreshToken_unfold, Hk, Hr.
    destruct (rt_expiresAt r <? now env)%Z; reflexivity.
Qed.

Lemma ledgerCall_keeps_absent c t db :
  draws c <> Some t ->
  refreshTokens db !! t = None ->
  refreshTokens (ledgerCall c db) !! t = None.
Proof.
  intros Hd Hn. destruct c as [cfg env u|env tok|tok|u|env|f]; cbn [ledgerCall].
  - unfold generateRefreshToken, bind, refreshToken_create, ret.
    repeat case_match; simplify_eq; cbn; try exact Hn.
    rewrite lookup_insert_ne; [exact Hn|]. intros Heq. apply Hd. cbn. now f_equal.
  - rewrite verifyRefreshToken_unfold.
    repeat case_match; cbn; try exact Hn.
    apply map_lookup_filter_None. left. exact Hn.
  - cbn. apply lookup_delete_None. right. exact Hn.
  - cbn. apply map_lookup_filter_None. left. exact Hn.
  - cbn. apply map_lookup_filter_None. left. exact Hn.
  - cbn. exact Hn.
Qed.

Lemma ledgerRun_keeps_absent cs t db :
  Forall (fun c => draws c <> Some t) cs ->
  refreshTokens db !! t = None ->
  refreshTokens (ledgerRun cs db) !! t = None.
Proof.
  unfold ledgerRun. revert db.
  induction cs as [|c cs IH]; intros db Hall Hn; [exact Hn|].
  inversion Hall as [|? ? Hc Hcs]; subst. cbn [fold_left].
  apply IH; [exact Hcs|]. now apply ledgerCall_keeps_absent.
Qed.

(** C2. When the refresh handler succeeds on a presented token [t] (it
    validated [t], revoked it and issued a new pair whose refresh token is
    a fresh identifier), every later [verifyRefreshToken] on [t] returns
    [null]: immediately, and after any further sequence of ledger calls and
    writes to other tables in which [uuidv4()] never draws the identifier
    [t] again. *)
Theorem rotation_consumes_refresh_token `{J : Jws} (cfg : Config) (env : Env)
    (req : Request) (db db' : Db) (resp : Response) (t : string) :
  presentedRefreshToken req = JStr t ->
  rand env 0 <> t ->
  refreshToken cfg env req db = (resp, db') ->
  status resp = 200 ->
  (exists r, refreshTokens db !! t = Some r /\ (now env <= rt_expiresAt r)%Z) /\
  (exists fresh, setCookie resp = CookieSet "refreshToken" fresh /\ fresh <> t /\
       is_Some (refreshTokens db' !! fresh)) /\
  forall later : list LedgerCall,
    Forall (fun c => draws c <> Some t) later ->
    forall env' : Env,
      verifyRefreshToken env' t (ledgerRun later db')
      = (inr None, ledgerRun later db').
Proof.
  intros Htok Hfresh Hrun Hok.
  unfold refreshToken, tryCatch in Hrun. rewrite Htok in Hrun.
  destruct (truthy (JStr t)) eqn:Ht; cbn [negb] in Hrun.
  2:{ cbn in Hrun. simplify_eq. }
  unfold bind at 1 in Hrun. rewrite verifyRefreshToken_unfold in Hrun.
  destruct (refreshTokens db !! t) as [r|] eqn:Hr.
  2:{ cbn in Hrun. simplify_eq. }
  destruct (rt_expiresAt r <? now env)%Z eqn:Hexp.
  { cbn in Hrun. simplify_eq. }
  destruct (String.eqb (rt_userId r) "") eqn:Hu.
  { cbn in Hrun. simplify_eq. }
  unfold bind at 1, query in Hrun.
  destruct (users db !! rt_userId r) as [u|] eqn:Hus.
  2:{ cbn in Hrun. simplify_eq. }
  unfold bind at 1, revokeRefreshToken, write in Hrun.
  unfold bind at 1, generateTokenPair in Hrun.
  destruct (generateAccessToken _ _ _) as [e|access].
  { cbn in Hrun. simplify_eq. }
  unfold bind at 1, generateRefreshToken, bind, refreshToken_create, ret in Hrun.
  repeat case_match; simplify_eq; cbn in Hok; try discriminate.
  split; [eexists; split; [reflexivity|]; apply Z.ltb_ge in Hexp; exact Hexp|].
  split.
  - eexists. split; [reflexivity|]. split; [done|].
    cbn. rewrite lookup_insert_eq. eauto.
  - intros later Hall env'. apply verifyRefreshToken_absent.
    apply ledgerRun_keeps_absent; [exact Hall|].
    cbn. rewrite lookup_insert_ne by done. apply lookup_delete_eq.
Qed.

Lemma rotation_consumes_refresh_token_witness :
  let out := refreshToken (J:=ref_jws) cfg0 rotate_env rotate_req db_sessions in
  (exists r, refreshTokens db_sessions !! "rt-a1" = Some r /\
             (now rotate_env <= rt_expiresAt r)%Z) /\
  (exists fresh, setCookie out.1 = CookieSet "refreshToken" fresh /\
       fresh <> "rt-a1" /\ is_Some (refreshTokens out.2 !! fresh)) /\
  forall later : list LedgerCall,
    Forall (fun c => draws c <> Some "rt-a1") later ->
    forall env' : Env,
      verifyRefreshToken env' "rt-a1" (ledgerRun later out.2)
      = (inr None, ledgerRun later out.2).
Proof.
  intros out.
  apply (rotation_consumes_refresh_token (J:=ref_jws) cfg0 rotate_env
           rotate_req db_sessions out.2 out.1 "rt-a1").
  - reflexivity.
  - discriminate.
  - apply surjective_pairing.
  - vm_compute. reflexivity.
Defined.

(** *** Middleware *)




(** C9. With a membership resolved, [requireRole roles] lets the request
    through exactly when the member's role is one of [roles] and answers
    403 "Insufficient permissions" otherwise; an OWNER is rejected by a
    list that does not name OWNER. *)
Theorem requireRole_flat_membership (roles : list string) (req : Request)
    (db : Db) (m : string * WorkspaceMember) :
  workspaceMember req = Some m ->
  (roleName (wm_role m.2) ∈ roles <-> requireRole roles req db = inr req) /\
  (roleName (wm_role m.2) ∉ roles <->
     requireRole roles req db = inl (reject 403 "Insufficient permissions")) /\
  (wm_role m.2 = OWNER -> "OWNER" ∉ roles ->
     requireRole roles req db = inl (reject 403 "Insufficient permissions")).
Proof.
  intros Hm. unfold requireRole. rewrite Hm.
  destruct (decide (roleName (wm_role m.2) ∈ roles)) as [Hin|Hout].
  - rewrite (bool_decide_eq_true_2 _ Hin). cbn [negb].
    split; [tauto|]. split; [split; [tauto|discriminate]|].
    intros Ho Hn. rewrite Ho in Hin. contradiction.
  - rewrite (bool_decide_eq_false_2 _ Hout). cbn [negb].
    split; [split; [tauto|discriminate]|]. split; [tauto|]. reflexivity.
Qed.

Lemma requireRole_flat_membership_witness :
  (roleName OWNER ∈ ["ADMIN"] <->
     requireRole ["ADMIN"] (member_req OWNER) db_invited
     = inr (member_req OWNER)) /\
  (roleName OWNER ∉ ["ADMIN"] <->
     requireRole ["ADMIN"] (member_req OWNER) db_invited
     = inl (reject 403 "Insufficient permissions")) /\
  (OWNER = OWNER -> "OWNER" ∉ ["ADMIN"] ->
     requireRole ["ADMIN"] (member_req OWNER) db_invited
     = inl (reject 403 "Insufficient permissions")).
Proof.
  apply (requireRole_flat_membership ["ADMIN"] (member_req OWNER) db_invited
           ("mx", {| wm_userId := "ux"; wm_workspaceId := "w1";
                     wm_role := OWNER; wm_isOwner := false;
                     wm_profitSplit := 0 |})).
  reflexivity.
Defined.

(** *** Accepting an invitation *)

(** C10. When an authenticated user presents the token of an invitation
    that is pending and not expired, and the invitation's e-mail differs
    from the user's after both went through the runtime's [toLowerCase]
    (whatever that function does), [acceptInvitation] answers 403
    and the store is left as it was: the invitation is still there,
    pending, and no member row was added. *)
Theorem acceptInvitation_wrong_email `{U : CaseMapping} (env : Env)
    (req : Request) (db : Db) (u : AuthUser) (t : string)
    (inv : string * Invitation) :
  user req = Some u ->
  field "token" (reqBody req) = JStr t ->
  findFirst (fun _ i => bool_decide (inv_token i = t)) (invitations db)
    = Some inv ->
  is_Some (workspaces db !! inv_workspaceId inv.2) ->
  inv_status inv.2 = PENDING ->
  (now env <= inv_expiresAt inv.2)%Z ->
  toLowerCase (inv_email inv.2) <> toLowerCase (au_email u) ->
  acceptInvitation env req db
    = (reject 403 "This invitation is for a different email address", db) /\
  invitations db !! inv.1 = Some inv.2.
Proof.
  intros Hu Ht Hf [w Hw] Hp Hexp Hmail.
  split.
  - unfold acceptInvitation, tryCatch. rewrite Hu, Ht.
    unfold bind at 1, query. rewrite Hf.
    unfold bind at 1, query. rewrite Hw.
    rewrite (bool_decide_eq_true_2 _ Hp). cbn [negb].
    apply Z.ltb_ge in Hexp. rewrite Hexp.
    apply String.eqb_neq in Hmail. rewrite Hmail. reflexivity.
  - destruct inv as [k i]. now apply findFirst_Some in Hf.
Qed.

Lemma acceptInvitation_wrong_email_witness :
  acceptInvitation (U:=ascii_case) (env_at 5000 "n") (accept_req carol)
    db_invited
    = (reject 403 "This invitation is for a different email address",
       db_invited) /\
  invitations db_invited !! "i1" = Some i1_pending.
Proof.
  apply (acceptInvitation_wrong_email (U:=ascii_case) (env_at 5000 "n")
           (accept_req carol) db_invited carol "tok1" ("i1", i1_pending)).
  - reflexivity.
  - reflexivity.
  - vm_compute. reflexivity.
  - vm_compute. eauto.
  - reflexivity.
  - vm_compute. discriminate.
  - vm_compute. discriminate.
Defined.

(** *** What a request can do to the store *)

Ltac found :=
  repeat match goal with
  | H : findFirst _ _ = Some ?p |- _ =>
      is_var p; destruct p
  | H : findFirst _ _ = Some (_, _) |- _ =>
      apply findFirst_Some in H as [? ?]
  | H : has _ _ = true |- _ => apply has_true in H
  | H : has _ _ = false |- _ => apply has_false in H
  | H : negb _ = true |- _ => apply negb_true_iff in H
  | H : negb _ = false |- _ => apply negb_false_iff in H
  | H : _ && _ = true |- _ => apply andb_true_iff in H as [? ?]
  | H : bool_decide _ = true |- _ => apply bool_decide_eq_true in H
  | H : idFilter (Some _) _ = true |- _ => apply bool_decide_eq_true in H
  end.

Ltac run_handler :=
  unfold tryCatch, transaction, bind, query, write, ret, throw;
  intros Hrun; repeat case_match; simplify_eq; try apply eff_none.

Lemma refreshToken_effect `{J : Jws} cfg env req db resp db' :
  refreshToken cfg env req db = (resp, db') -> Effect E_refreshToken req db db'.
Proof.
  unfold refreshToken, generateTokenPair, generateRefreshToken,
    revokeRefreshToken, refreshToken_create, verifyRefreshToken,
    refreshToken_delete.
  unfold tryCatch, bind, query, write, ret, throw.
  intros Hrun; repeat case_match; simplify_eq; try apply eff_none;
    apply eff_ledger; reflexivity.
Qed.

Lemma logout_effect req db resp db' :
  logout req db = (resp, db') -> Effect E_logout req db db'.
Proof.
  unfold logout, revokeRefreshToken. run_handler.
  apply eff_ledger; reflexivity.
Qed.

Lemma logoutAll_effect req db resp db' :
  logoutAll req db = (resp, db') -> Effect E_logoutAll req db db'.
Proof.
  unfold logoutAll, revokeAllUserTokens. run_handler.
  apply eff_ledger; reflexivity.
Qed.

Lemma completeOnboarding_effect env req db resp db' :
  completeOnboarding env req db = (resp, db') ->
  Effect E_completeOnboarding req db db'.
Proof.
  unfold completeOnboarding, workspace_create, workspaceMember_create,
    workspaceSettings_create.
  run_handler. found.
  apply eff_onboarded; [reflexivity|assumption|assumption].
Qed.

Lemma updateWorkspace_effect req db resp db' :
  updateWorkspace req db = (resp, db') -> Effect E_updateWorkspace req db db'.
Proof.
  unfold updateWorkspace, workspace_update.
  run_handler; (eapply eff_workspace_updated; [reflexivity|eassumption|]);
    cbn; eauto.
Qed.

Lemma invitePartner_effect `{U : CaseMapping} cfg env req db resp db' :
  invitePartner cfg env req db = (resp, db') -> Effect E_invitePartner req db db'.
Proof.
  unfold invitePartner, invitation_create.
  run_handler; found; (apply eff_invited; [reflexivity|assumption|reflexivity]).
Qed.

Lemma ws_set_type_same t w : ws_type w = t -> ws_set_type t w = w.
Proof. destruct w; cbn; intros ->; reflexivity. Qed.

Lemma with_workspaces_insert_id db id w :
  workspaces db !! id = Some w -> with_workspaces (insert id w) db = db.
Proof.
  intros Hw. destruct db; unfold with_workspaces; cbn in *.
  now rewrite (insert_id _ _ _ Hw).
Qed.

Lemma acceptInvitation_effect `{U : CaseMapping} env req db resp db' :
  acceptInvitation env req db = (resp, db') ->
  Effect E_acceptInvitation req db db'.
Proof.
  unfold acceptInvitation, invitation_update, workspaceMember_create,
    workspace_update.
  run_handler; found; cbn in *; simplify_eq.
  - now apply eff_expired.
  - now apply eff_accepted.
  - match goal with |- Effect _ _ _ ?d =>
      rewrite <- (with_workspaces_insert_id d (inv_workspaceId i0) w)
        by assumption
    end.
    rewrite <- (ws_set_type_same PARTNERSHIP w) at 1.
    + now apply eff_accepted.
    + match goal with H : bool_decide _ = false |- _ =>
        apply bool_decide_eq_false in H end.
      destruct (ws_type w); congruence.
Qed.

Lemma updateProfitSplit_effect req db resp db' :
  updateProfitSplit req db = (resp, db') ->
  Effect E_updateProfitSplit req db db'.
Proof.
  unfold updateProfitSplit, workspaceMember_update.
  run_handler; (eapply eff_split; [reflexivity|eassumption]).
Qed.

Lemma removeMember_effect req db resp db' :
  removeMember req db = (resp, db') -> Effect E_removeMember req db db'.
Proof.
  unfold removeMember, workspaceMember_delete.
  run_handler; found; cbn in *; simplify_eq.
  eapply eff_removed; [reflexivity|eassumption|assumption].
Qed.

Lemma cancelInvitation_effect req db resp db' :
  cancelInvitation req db = (resp, db') -> Effect E_cancelInvitation req db db'.
Proof.
  unfold cancelInvitation, invitation_delete.
  run_handler; found; cbn in *; simplify_eq.
  eapply eff_cancelled; [reflexivity|eassumption|assumption].
Qed.

Lemma serve_effect `{J : Jws} `{U : CaseMapping} cfg env e req db resp db' :
  serve cfg env e req db = (resp, db') -> Effect e req db db'.
Proof.
  destruct e; cbn [serve].
  - apply refreshToken_effect.
  - apply logout_effect.
  - apply logoutAll_effect.
  - apply completeOnboarding_effect.
  - apply updateWorkspace_effect.
  - apply invitePartner_effect.
  - apply acceptInvitation_effect.
  - apply updateProfitSplit_effect.
  - apply removeMember_effect.
  - apply cancelInvitation_effect.
Qed.


Lemma Effect_ownerInvariant e req db db' :
  Effect e req db db' -> ownerInvariant db -> ownerInvariant db'.
Proof.
  intros Heff [Hfk Hone].
  destruct Heff as [ | db' Hu Hw Hm Hi Hs
                     | wid w mid uid sid s _ Hwid Hmid
                     | wid w w' _ Hw _
                     | id i _ _ _
                     | id i _ _ _
                     | id i uid mid w _ _ _ Hmid Hw
                     | id m split _ Hm
                     | id m _ Hm Hno
                     | id i _ _ _ ].
  - split; assumption.
  - unfold ownerInvariant, exactlyOneOwner, isOwnerOf. rewrite Hw, Hm.
    split; assumption.
  - (* onboarded *)
    split; cbn.
    + intros id m Hl. apply lookup_insert_Some in Hl as [[<- <-]|[Hne Hl]]; cbn.
      * rewrite lookup_insert_eq. eauto.
      * apply lookup_insert_is_Some. right. split.
        -- intros Heq. apply Hfk in Hl. rewrite <- Heq, Hwid in Hl.
           now destruct Hl.
        -- now apply Hfk in Hl.
    + intros wid' Hex. destruct (decide (wid' = wid)) as [->|Hne].
      * exists mid. split.
        -- eexists. cbn. rewrite lookup_insert_eq. eauto.
        -- intros id' (m & Hl & Hwm & _). cbn in Hl.
           apply lookup_insert_Some in Hl as [[<- _]|[_ Hl]]; [reflexivity|].
           apply Hfk in Hl. rewrite Hwm, Hwid in Hl. now destruct Hl.
      * rewrite lookup_insert_ne in Hex by done.
        destruct (Hone wid' Hex) as (o & (m & Hl & Hwm & Ho) & Huniq).
        exists o. split.
        -- exists m. cbn. rewrite lookup_insert_ne; [eauto|].
           intros <-. rewrite Hmid in Hl. discriminate.
        -- intros id' (m' & Hl' & Hwm' & Ho'). cbn in Hl'.
           apply lookup_insert_Some in Hl' as [[_ <-]|[_ Hl']].
           ++ cbn in Hwm'. congruence.
           ++ apply Huniq. exists m'. eauto.
  - (* workspace updated *)
    split; cbn.
    + intros id m Hl. apply lookup_insert_is_Some'. right. eauto.
    + intros wid' Hex. apply lookup_insert_is_Some' in Hex.
      apply Hone. destruct Hex as [<-|Hex]; [eauto|exact Hex].
  - split; assumption.
  - split; assumption.
  - (* accepted *)
    split; cbn.
    + intros id' m Hl. apply lookup_insert_is_Some'. right.
      apply lookup_insert_Some in Hl as [[<- <-]|[_ Hl]]; cbn; eauto.
    + intros wid' Hex. apply lookup_insert_is_Some' in Hex.
      assert (Hex' : is_Some (workspaces db !! wid'))
        by (destruct Hex as [<-|Hex]; [eauto|exact Hex]).
      destruct (Hone wid' Hex') as (o & (m & Hl & Hwm & Ho) & Huniq).
      exists o. split.
      * exists m. cbn. rewrite lookup_insert_ne; [eauto|].
        intros <-. rewrite Hmid in Hl. discriminate.
      * intros id' (m' & Hl' & Hwm' & Ho'). cbn in Hl'.
        apply lookup_insert_Some in Hl' as [[_ <-]|[_ Hl']].
        -- cbn in Ho'. discriminate.
        -- apply Huniq. exists m'. eauto.
  - (* profit split *)
    assert (Hsame : forall wid id', isOwnerOf
              (with_workspaceMembers (insert id (wm_set_profitSplit split m)) db)
              wid id' <-> isOwnerOf db wid id').
    { intros wid id'. unfold isOwnerOf. cbn. split.
      - intros (m' & Hl & Hwm & Ho).
        apply lookup_insert_Some in Hl as [[<- <-]|[_ Hl]]; eauto.
      - intros (m' & Hl & Hwm & Ho).
        destruct (decide (id = id')) as [<-|Hne].
        + rewrite Hm in Hl. injection Hl as <-.
          eexists. rewrite lookup_insert_eq. eauto.
        + exists m'. rewrite lookup_insert_ne by done. eauto. }
    split.
    + cbn. intros id' m' Hl.
      apply lookup_insert_Some in Hl as [[<- <-]|[_ Hl]]; cbn; eauto.
    + intros wid Hex. destruct (Hone wid Hex) as (o & Ho & Huniq).
      exists o. split; [now apply Hsame|].
      intros id' Ho'. apply Huniq. now apply Hsame.
  - (* removed *)
    assert (Hsame : forall wid id', isOwnerOf
              (with_workspaceMembers (delete id) db) wid id'
              <-> isOwnerOf db wid id').
    { intros wid id'. unfold isOwnerOf. cbn. split.
      - intros (m' & Hl & Hwm & Ho).
        apply lookup_delete_Some in Hl as [_ Hl]. eauto.
      - intros (m' & Hl & Hwm & Ho). exists m'.
        rewrite lookup_delete_ne; [eauto|].
        intros <-. congruence. }
    split.
    + cbn. intros id' m' Hl. apply lookup_delete_Some in Hl as [_ Hl]. eauto.
    + intros wid Hex. destruct (Hone wid Hex) as (o & Ho & Huniq).
      exists o. split; [now apply Hsame|].
      intros id' Ho'. apply Huniq. now apply Hsame.
  - split; assumption.
Qed.

Lemma workspaceTypeOfString_sole t :
  workspaceTypeOfString t = Some SOLE_TRADER -> t = "SOLE_TRADER".
Proof.
  unfold workspaceTypeOfString.
  destruct (String.eqb t "SOLE_TRADER") eqn:He; [now apply String.eqb_eq in He|].
  destruct (String.eqb t "PARTNERSHIP"); discriminate.
Qed.

Lemma Effect_partnership e req db db' id w :
  Effect e req db db' ->
  workspaces db !! id = Some w -> ws_type w = PARTNERSHIP ->
  exists w', workspaces db' !! id = Some w' /\
    (ws_type w' = PARTNERSHIP \/
     (e = E_updateWorkspace /\
      field "type" (reqBody req) = JStr "SOLE_TRADER" /\
      ws_type w' = SOLE_TRADER)).
Proof.
  intros Heff Hw Hp.
  destruct Heff as [ | db' Hu Hws Hm Hi Hs
                     | wid w0 mid uid sid s _ Hwid Hmid
                     | wid w0 w' He Hw0 Hty
                     | ? ? _ _ _ | ? ? _ _ _
                     | k i uid mid w0 _ _ _ Hmid Hw0
                     | ? ? ? _ _ | ? ? _ _ _ | ? ? _ _ _ ];
    cbn; eauto.
  - rewrite Hws. eauto.
  - exists w. split; [|auto]. rewrite lookup_insert_ne; [exact Hw|].
    intros <-. congruence.
  - destruct (decide (wid = id)) as [->|Hne].
    + exists w'. rewrite lookup_insert_eq. split; [reflexivity|].
      rewrite Hw in Hw0. injection Hw0 as <-.
      destruct Hty as [Hsame|(t & Hf & Ht)]; [left; congruence|].
      destruct (ws_type w') eqn:Hw'; [|auto].
      right. apply workspaceTypeOfString_sole in Ht. subst t. auto.
    + exists w. rewrite lookup_insert_ne by done. auto.
  - destruct (decide (inv_workspaceId i = id)) as [->|Hne].
    + eexists. rewrite lookup_insert_eq. split; [reflexivity|]. left. reflexivity.
    + exists w. rewrite lookup_insert_ne by done. auto.
Qed.

Lemma Effect_terminal e req db db' id i :
  Effect e req db db' ->
  invitations db !! id = Some i -> inv_status i <> PENDING ->
  invitations db' !! id = Some i.
Proof.
  intros Heff Hi Ht.
  destruct Heff as [ | db' Hu Hws Hm Hinv Hs
                     | ? ? ? ? ? ? _ _ _
                     | ? ? ? _ _ _
                     | k j _ Hk _
                     | k j _ Hk Hp
                     | k j ? ? ? _ Hk Hp _ _
                     | ? ? ? _ _ | ? ? _ _ _
                     | k j _ Hk Hp ];
    cbn; try exact Hi.
  - now rewrite Hinv.
  - rewrite lookup_insert_ne; [exact Hi|]. intros <-. congruence.
  - rewrite lookup_insert_ne; [exact Hi|]. intros <-. congruence.
  - rewrite lookup_insert_ne; [exact Hi|]. intros <-. congruence.
  - rewrite lookup_delete_ne; [exact Hi|]. intros <-. congruence.
Qed.

Lemma Effect_owner_row e req db db' id m :
  Effect e req db db' ->
  workspaceMembers db !! id = Some m -> wm_isOwner m = true ->
  exists m', workspaceMembers db' !! id = Some m' /\
             wm_isOwner m' = true /\ wm_workspaceId m' = wm_workspaceId m.
Proof.
  intros Heff Hm Ho.
  destruct Heff as [ | db' Hu Hws Hmem Hinv Hs
                     | wid w0 mid uid sid s _ Hwid Hmid
                     | ? ? ? _ _ _
                     | ? ? _ _ _ | ? ? _ _ _
                     | k i uid mid w0 _ _ _ Hmid Hw0
                     | k m0 split _ Hk
                     | k m0 _ Hk Hno
                     | ? ? _ _ _ ];
    cbn; eauto.
  - rewrite Hmem. eauto.
  - exists m. rewrite lookup_insert_ne; [auto|]. intros <-. congruence.
  - exists m. rewrite lookup_insert_ne; [auto|]. intros <-. congruence.
  - destruct (decide (k = id)) as [->|Hne].
    + rewrite Hm in Hk. injection Hk as <-.
      eexists. rewrite lookup_insert_eq. eauto.
    + exists m. rewrite lookup_insert_ne by done. auto.
  - exists m. rewrite lookup_delete_ne; [auto|]. intros <-. congruence.
Qed.

Lemma removeMember_owner req db id m :
  params req !! "memberId" = Some id ->
  workspaceMembers db !! id = Some m -> wm_isOwner m = true ->
  exists code msg, removeMember req db = (reject code msg, db) /\ 400 <= code.
Proof.
  intros Hp Hm Ho. unfold removeMember, tryCatch.
  destruct (workspace req) as [ws|]; [|cbn; eauto with lia].
  destruct (workspaceMember req) as [caller|]; [|cbn; eauto with lia].
  destruct (negb _); [cbn; eauto with lia|].
  rewrite Hp. unfold bind at 1, query.
  destruct (findFirst _ _) as [[k m']|] eqn:Hf; [|cbn; eauto with lia].
  apply findFirst_Some in Hf as [Hk Hf].
  apply andb_true_iff in Hf as [Hid _]. apply bool_decide_eq_true in Hid.
  subst k. rewrite Hm in Hk. injection Hk as <-.
  cbn [snd]. rewrite Ho. cbn. eauto with lia.
Qed.

Lemma authenticate_next `{J : Jws} cfg env req db :
  match authenticate cfg env req db with
  | inl resp => exists code msg, resp = reject code msg /\ 400 <= code
  | inr req' => params req' = params req
  end.
Proof.
  unfold authenticate. repeat case_match; simplify_eq; cbn; eauto with lia.
Qed.

Lemma requireWorkspace_next req db :
  match requireWorkspace req db with
  | inl resp => exists code msg, resp = reject code msg /\ 400 <= code
  | inr req' => params req' = params req
  end.
Proof.
  unfold requireWorkspace. repeat case_match; simplify_eq; cbn; eauto with lia.
Qed.

Lemma requireRole_next roles req db :
  match requireRole roles req db with
  | inl resp => exists code msg, resp = reject code msg /\ 400 <= code
  | inr req' => req' = req
  end.
Proof.
  unfold requireRole. repeat case_match; simplify_eq; cbn; eauto with lia.
Qed.

Lemma delete_member_owner `{J : Jws} cfg env req db id m :
  params req !! "memberId" = Some id ->
  workspaceMembers db !! id = Some m -> wm_isOwner m = true ->
  exists code msg,
    delete_member cfg env req db = (reject code msg, db) /\ 400 <= code.
Proof.
  intros Hp Hm Ho. unfold delete_member. cbn [route].
  pose proof (authenticate_next cfg env req db) as Ha.
  destruct (authenticate cfg env req db) as [r|req1].
  { destruct Ha as (c & msg & -> & Hc). eauto. }
  pose proof (requireWorkspace_next req1 db) as Hw.
  destruct (requireWorkspace req1 db) as [r|req2].
  { destruct Hw as (c & msg & -> & Hc). eauto. }
  pose proof (requireRole_next ["OWNER"] req2 db) as Hr.
  destruct (requireRole ["OWNER"] req2 db) as [r|req3].
  { destruct Hr as (c & msg & -> & Hc). eauto. }
  subst req3. apply (removeMember_owner req2 db id m); [|assumption..].
  congruence.
Qed.

Lemma cancelInvitation_pending req db ws caller id i :
  workspace req = Some ws -> workspaceMember req = Some caller ->
  isOwnerOrAdmin caller = true ->
  params req !! "invitationId" = Some id ->
  invitations db !! id = Some i ->
  inv_workspaceId i = ws.1 -> inv_status i = PENDING ->
  cancelInvitation req db
  = (okMessage "Invitation cancelled", with_invitations (delete id) db).
Proof.
  intros Hw Hc Hr Hp Hi Hiw Hs. unfold cancelInvitation, tryCatch.
  rewrite Hw, Hc, Hr, Hp. cbn [negb]. unfold bind at 1, query.
  destruct (findFirst _ _) as [p|] eqn:Hf.
  - unfold bind, invitation_delete.
    rewrite (proj2 (has_true id (invitations db))) by eauto. reflexivity.
  - eapply findFirst_None in Hf; [|exact Hi].
    cbn in Hf. rewrite !bool_decide_eq_true_2 in Hf by done. discriminate.
Qed.

(** *** Workspace type *)

(** C5, as stated, fails: a workspace that became a PARTNERSHIP when its
    second member was accepted is a SOLE_TRADER again after its owner
    patches it with [{ type: "SOLE_TRADER" }]. *)
Lemma partnership_reverts_to_sole_trader :
  Reachable (J:=ref_jws) (U:=ascii_case) cfg0 db_partnership /\
  ws_type <$> workspaces db_onboarded !! "w" = Some SOLE_TRADER /\
  ws_type <$> workspaces db_partnership !! "w" = Some PARTNERSHIP /\
  let out :=
    patch_workspace (J:=ref_jws) cfg0 (env_at 6000 "p") patch_req db_partnership in
  status out.1 = 200 /\
  ws_type <$> workspaces out.2 !! "w" = Some SOLE_TRADER.
Proof.
  split.
  - apply (reach_serve cfg0 _ (env_at 3000 "m") E_acceptInvitation bob_accept_req).
    apply (reach_serve cfg0 _ (env_at 2000 "i") E_invitePartner invite_req).
    apply (reach_serve cfg0 _ (env_at 1000 "w") E_completeOnboarding onboard_req).
    apply reach_initial; reflexivity.
  - vm_compute. repeat split; reflexivity.
Qed.

(** C5, amended.  Whatever the endpoint and the request, a workspace whose
    type is PARTNERSHIP still exists afterwards and is still a PARTNERSHIP,
    with one exception: [updateWorkspace] serving a body whose [type] is
    ["SOLE_TRADER"] makes it a SOLE_TRADER. *)
Theorem partnership_kept_unless_updated `{J : Jws} `{U : CaseMapping} (cfg : Config) (env : Env)
    (e : Endpoint) (req : Request) (db db' : Db) (resp : Response)
    (id : string) (w : Workspace) :
  serve cfg env e req db = (resp, db') ->
  workspaces db !! id = Some w ->
  ws_type w = PARTNERSHIP ->
  exists w', workspaces db' !! id = Some w' /\
    (ws_type w' = PARTNERSHIP \/
     (e = E_updateWorkspace /\
      field "type" (reqBody req) = JStr "SOLE_TRADER" /\
      ws_type w' = SOLE_TRADER)).
Proof.
  intros Hrun. apply Effect_partnership. eapply serve_effect, Hrun.
Qed.

Lemma partnership_kept_unless_updated_witness :
  let out := serve (J:=ref_jws) (U:=ascii_case) cfg0 (env_at 6000 "p") E_updateWorkspace
               revert_req db_partnership in
  exists w', workspaces out.2 !! "w" = Some w' /\
    (ws_type w' = PARTNERSHIP \/
     (E_updateWorkspace = E_updateWorkspace /\
      field "type" (reqBody revert_req) = JStr "SOLE_TRADER" /\
      ws_type w' = SOLE_TRADER)).
Proof.
  intros out.
  apply (partnership_kept_unless_updated (J:=ref_jws) (U:=ascii_case) cfg0 (env_at 6000 "p")
           E_updateWorkspace revert_req db_partnership out.2 out.1 "w"
           {| ws_name := "W"; ws_type := PARTNERSHIP |}).
  - apply surjective_pairing.
  - vm_compute. reflexivity.
  - reflexivity.
Defined.

(** *** Invitations *)

(** C6, as stated, fails: after the owner cancels a pending invitation
    through the route, the invitation has no row at all, so its status is
    not CANCELLED. *)
Lemma cancelInvitation_deletes_the_row :
  Reachable (J:=ref_jws) (U:=ascii_case) cfg0 db_bob_invited /\
  (inv_status <$> invitations db_bob_invited !! "i") = Some PENDING /\
  let out :=
    delete_invitation (J:=ref_jws) cfg0 (env_at 6000 "n") cancel_req
      db_bob_invited in
  out.1 = okMessage "Invitation cancelled" /\
  invitations out.2 !! "i" = None /\
  ~ (exists i, invitations out.2 !! "i" = Some i /\ inv_status i = CANCELLED).
Proof.
  split.
  - apply (reach_serve cfg0 _ (env_at 2000 "i") E_invitePartner invite_req).
    apply (reach_serve cfg0 _ (env_at 1000 "w") E_completeOnboarding onboard_req).
    apply reach_initial; reflexivity.
  - vm_compute. repeat split; try reflexivity.
    intros (i & Hi & _). discriminate.
Qed.

(** C6, amended.  [cancelInvitation], called by an owner or admin of the
    workspace on one of its pending invitations, answers "Invitation
    cancelled" and deletes the invitation's row; and an invitation whose
    status is not PENDING is left exactly as it is by every endpoint. *)
Theorem cancel_deletes_and_terminal_invitations_stay `{J : Jws} `{U : CaseMapping} :
  (forall req db ws caller id i,
     workspace req = Some ws -> workspaceMember req = Some caller ->
     isOwnerOrAdmin caller = true ->
     params req !! "invitationId" = Some id ->
     invitations db !! id = Some i ->
     inv_workspaceId i = ws.1 -> inv_status i = PENDING ->
     exists db',
       cancelInvitation req db = (okMessage "Invitation cancelled", db') /\
       invitations db' !! id = None /\
       forall id', id' <> id -> invitations db' !! id' = invitations db !! id') /\
  (forall cfg env e req db resp db' id i,
     serve cfg env e req db = (resp, db') ->
     invitations db !! id = Some i -> inv_status i <> PENDING ->
     invitations db' !! id = Some i).
Proof.
  split.
  - intros req db ws caller id i Hw Hc Hr Hp Hi Hiw Hs.
    eexists. split;
      [exact (cancelInvitation_pending _ _ _ _ _ _ Hw Hc Hr Hp Hi Hiw Hs)|].
    cbn. split; [apply lookup_delete_eq|].
    intros id' Hne. now apply lookup_delete_ne.
  - intros cfg env e req db resp db' id i Hrun.
    eapply Effect_terminal. eapply serve_effect, Hrun.
Qed.

(** *** The owner of a workspace *)

Lemma Reachable_ownerInvariant `{J : Jws} `{U : CaseMapping} cfg db :
  Reachable cfg db -> ownerInvariant db.
Proof.
  induction 1 as [db Hw Hm _|db env e req _ IH|db db' _ IH Hw Hm _].
  - unfold ownerInvariant, exactlyOneOwner, isOwnerOf. rewrite Hw, Hm. split.
    + intros id m Hl. rewrite lookup_empty in Hl. discriminate.
    + intros wid [w Hl]. rewrite lookup_empty in Hl. discriminate.
  - eapply Effect_ownerInvariant; [|exact IH].
    eapply serve_effect. apply surjective_pairing.
  - unfold ownerInvariant, exactlyOneOwner, isOwnerOf in *.
    rewrite Hw, Hm. exact IH.
Qed.

(** C7.  Removing the member flagged [isOwner] always fails and changes
    nothing, whoever calls and whatever their role: the handler
    [removeMember] and the route [DELETE /:workspaceId/members/:memberId]
    both answer with an error status and leave the store as it was.  No
    endpoint deletes an owner's row or clears its flag; every endpoint
    preserves the invariant that each workspace has exactly one owner
    member, and so every workspace of a reachable store has exactly one. *)
Theorem owner_member_is_never_removed `{J : Jws} `{U : CaseMapping} :
  (forall cfg env req db id m,
     params req !! "memberId" = Some id ->
     workspaceMembers db !! id = Some m -> wm_isOwner m = true ->
     (exists code msg,
        removeMember req db = (reject code msg, db) /\ 400 <= code) /\
     (exists code msg,
        delete_member cfg env req db = (reject code msg, db) /\ 400 <= code)) /\
  (forall cfg env e req db resp db' id m,
     serve cfg env e req db = (resp, db') ->
     workspaceMembers db !! id = Some m -> wm_isOwner m = true ->
     exists m', workspaceMembers db' !! id = Some m' /\
                wm_isOwner m' = true /\
                wm_workspaceId m' = wm_workspaceId m) /\
  (forall cfg env e req db resp db',
     serve cfg env e req db = (resp, db') ->
     ownerInvariant db -> ownerInvariant db') /\
  (forall cfg db wid,
     Reachable cfg db -> is_Some (workspaces db !! wid) ->
     exactlyOneOwner db wid).
Proof.
  split; [|split; [|split]].
  - intros cfg env req db id m Hp Hm Ho. split.
    + exact (removeMember_owner _ _ _ _ Hp Hm Ho).
    + exact (delete_member_owner _ _ _ _ _ _ Hp Hm Ho).
  - intros cfg env e req db resp db' id m Hrun.
    eapply Effect_owner_row. eapply serve_effect, Hrun.
  - intros cfg env e req db resp db' Hrun.
    eapply Effect_ownerInvariant. eapply serve_effect, Hrun.
  - intros cfg db wid Hreach. apply (Reachable_ownerInvariant cfg db Hreach).
Qed.

(** *** The statements above on the sample data *)

Example owner_cannot_remove_herself :
  delete_member (J:=ref_jws) cfg0 (env_at 6000 "n") remove_owner_req db_invited
  = (reject 400 "Cannot remove workspace owner", db_invited).
Proof. vm_compute. reflexivity. Qed.

Example accepted_invitation_is_final :
  let out := acceptInvitation (U:=ascii_case) (env_at 4000 "x") bob_accept_req db_partnership in
  out = (reject 400 "Invitation is no longer valid", db_partnership).
Proof. vm_compute. reflexivity. Qed.

Example owner_is_no_admin :
  requireRole ["ADMIN"] (member_req OWNER) db_invited
  = inl (reject 403 "Insufficient permissions").
Proof. reflexivity. Qed.

Example access_token_expires_at_its_second :
  verifyAccessToken (J:=ref_jws) cfg0 904999 alice_token = Some alice /\
  verifyAccessToken (J:=ref_jws) cfg0 905000 alice_token = None.
Proof. vm_compute. split; reflexivity. Qed.

Example logout_all_spares_other_users :
  let db' := (revokeAllUserTokens "u1" db_sessions).2 in
  (verifyRefreshToken (env_at 5000 "n") "rt-a1" db').1 = inr None /\
  (verifyRefreshToken (env_at 5000 "n") "rt-a2" db').1 = inr None /\
  (verifyRefreshToken (env_at 5000 "n") "rt-b1" db').1 = inr (Some "u2").
Proof. vm_compute. repeat split; reflexivity. Qed.

Example expired_refresh_token_is_purged :
  let out := verifyRefreshToken (env_at 9001 "n") "rt-a1" db_sessions in
  out.1 = inr None /\ refreshTokens out.2 !! "rt-a1" = None /\
  is_Some (refreshTokens out.2 !! "rt-a2").
Proof. vm_compute. repeat split; eauto. Qed.

Example sample_store_has_one_owner : ownerInvariant db_invited.
Proof.
  unfold ownerInvariant, exactlyOneOwner, isOwnerOf, db_invited.
  cbn [workspaceMembers workspaces]. split.
  - intros id m Hm. apply lookup_singleton_Some in Hm as [<- <-].
    vm_compute. eauto.
  - intros wid [w Hw]. apply lookup_singleton_Some in Hw as [<- _].
    exists "m1". split.
    + exists m1_owner. repeat split; reflexivity.
    + intros id' (m & Hm & _). now apply lookup_singleton_Some in Hm as [<- _].
Qed.

Example parseDuration_samples :
  parseDuration "7d" = 604800000%Z /\ parseDuration "15m" = 900000%Z /\
  parseDuration "30s" = 30000%Z /\ parseDuration "2h" = 7200000%Z /\
  parseDuration "1.5h" = 900000%Z /\ parseDuration "d" = 900000%Z /\
  parseDuration "10" = 900000%Z /\ parseDuration "" = 900000%Z.
Proof. vm_compute. repeat split; reflexivity. Qed.

Example wrong_email_through_the_route :
  post_invitations_accept (J:=ref_jws) (U:=ascii_case) cfg0 (env_at 6000 "n") carol_accept_req
    db_invited
  = (reject 403 "This invitation is for a different email address", db_invited).
Proof. vm_compute. reflexivity. Qed.

Example logout_all_through_the_route :
  let out := post_auth_logoutAll (J:=ref_jws) cfg0 (env_at 6000 "n")
               logoutAll_req db_sessions in
  status out.1 = 200 /\
  dom (refreshTokens out.2) = {[ "rt-b1" ]}.
Proof. vm_compute. split; reflexivity. Qed.

Example expired_access_token_is_rejected :
  post_auth_logoutAll (J:=ref_jws) cfg0 (env_at 905000 "n") logoutAll_req
    db_sessions
  = (reject 401 "Invalid or expired token", db_sessions).
Proof. vm_compute. reflexivity. Qed.

Example empty_bearer_is_no_token :
  authenticate (J:=ref_jws) cfg0 (env_at 6000 "n")
    (with_authorization "Bearer " req0) db_sessions
  = inl (reject 401 "Authentication required").
Proof. vm_compute. reflexivity. Qed.

(* ===================================================================== *)
(** * Further properties of the code *)
(* ===================================================================== *)

(** ** Durations ([parseDuration] of [utils/jwt.ts]) *)

Lemma splitLast_app ds u : splitLast (ds +:+ String u "") = Some (ds, u).
Proof.
  induction ds as [|c ds IH]; [reflexivity|].
  rewrite append_cons. cbn [splitLast]. rewrite IH.
  destruct (ds +:+ String u "") eqn:He; [|reflexivity].
  destruct ds; discriminate.
Qed.

Lemma splitLast_Some s ds u : splitLast s = Some (ds, u) -> s = ds +:+ String u "".
Proof.
  revert ds. induction s as [|c s IH]; intros ds; [discriminate|].
  cbn [splitLast]. destruct s as [|c' s'].
  - intros [= <- <-]. reflexivity.
  - destruct (splitLast (String c' s')) as [[init l]|]; [|discriminate].
    intros [= <- <-]. rewrite append_cons. f_equal. now apply IH.
Qed.

Lemma parseDuration_unfold ds u :
  parseDuration (ds +:+ String u "") =
    if allDigits ds && negb (String.eqb ds "") then
      match unitMillis u with
      | Some f => (parseDigits 0 ds * f)%Z
      | None => 900000%Z
      end
    else 900000%Z.
Proof.
  unfold parseDuration, unitMillis. rewrite splitLast_app.
  destruct (allDigits ds && negb (String.eqb ds "")); [|reflexivity].
  repeat (destruct (Ascii.eqb u _); [lia|]). reflexivity.
Qed.

Lemma parseDigits_of_uint d acc :
  parseDigits (Z.of_nat acc) (NilEmpty.string_of_uint d)
  = Z.of_nat (Nat.of_uint_acc d acc).
Proof.
  revert acc. induction d; intros acc;
    cbn [NilEmpty.string_of_uint parseDigits Nat.of_uint_acc];
    try reflexivity;
    rewrite <- IHd; f_equal; rewrite Nat.tail_mul_spec;
    match goal with
    | |- context [(nat_of_ascii ?c - 48)%nat] =>
        let v := eval vm_compute in (nat_of_ascii c - 48)%nat in
        change (nat_of_ascii c - 48)%nat with v
    end; lia.
Qed.

Lemma allDigits_of_uint d : allDigits (NilEmpty.string_of_uint d) = true.
Proof. induction d; cbn [NilEmpty.string_of_uint allDigits]; auto. Qed.

Lemma parseDigits_nonneg s acc : (0 <= acc)%Z -> (0 <= parseDigits acc s)%Z.
Proof.
  revert acc. induction s as [|c s IH]; intros acc Hacc; [exact Hacc|].
  cbn [parseDigits]. apply IH. lia.
Qed.

Lemma parseDuration_nonneg s : (0 <= parseDuration s)%Z.
Proof.
  destruct (splitLast s) as [[ds u]|] eqn:Hs.
  - apply splitLast_Some in Hs. subst s. rewrite parseDuration_unfold.
    destruct (allDigits ds && negb (String.eqb ds "")); [|lia].
    pose proof (parseDigits_nonneg ds 0 ltac:(lia)).
    unfold unitMillis. repeat (destruct (Ascii.eqb u _); [lia|]). lia.
  - unfold parseDuration. rewrite Hs. lia.
Qed.

Lemma parseDuration_of_uint d u :
  d <> Decimal.Nil ->
  parseDuration (NilEmpty.string_of_uint d +:+ String u "") =
    match unitMillis u with
    | Some f => (Z.of_nat (Nat.of_uint d) * f)%Z
    | None => 900000%Z
    end.
Proof.
  intros Hd. rewrite parseDuration_unfold, allDigits_of_uint.
  assert (Hne : String.eqb (NilEmpty.string_of_uint d) "" = false)
    by (destruct d; try reflexivity; contradiction).
  rewrite Hne. cbn [andb negb].
  destruct (unitMillis u); [|reflexivity].
  f_equal. exact (parseDigits_of_uint d 0).
Qed.

(** X1. Digits followed by one of the letters s, m, h, d are read as the
    number the digits spell in decimal, leading zeros allowed, times the
    milliseconds of a second, minute, hour or day, as long as that product
    is a safe integer. *)
Theorem parseDuration_number_unit (ds : string) (d : Decimal.uint) (u : ascii)
    (f : Z) :
  NilEmpty.uint_of_string ds = Some d -> ds <> "" ->
  In (u, f) [("s"%char, 1000%Z); ("m"%char, 60000%Z);
             ("h"%char, 3600000%Z); ("d"%char, 86400000%Z)] ->
  (Z.of_nat (Nat.of_uint d) * f <= maxSafeInteger)%Z ->
  parseDuration (ds +:+ String u "") = (Z.of_nat (Nat.of_uint d) * f)%Z.
Proof.
  intros Hds Hne Hu _. apply NilEmpty.sus in Hds. subst ds.
  rewrite parseDuration_of_uint by (intros ->; now apply Hne).
  cbn in Hu.
  destruct Hu as [[= <- <-]|[[= <- <-]|[[= <- <-]|[[= <- <-]|[]]]]];
    reflexivity.
Qed.

Lemma parseDuration_number_unit_witness :
  parseDuration "007d" = 604800000%Z.
Proof.
  apply (parseDuration_number_unit "007"
           (Decimal.D0 (Decimal.D0 (Decimal.D7 Decimal.Nil))) "d" 86400000).
  - reflexivity.
  - discriminate.
  - cbn. tauto.
  - vm_compute. discriminate.
Defined.

(** X2. No string is read as a negative duration, and any string that is
    not digits followed by one unit letter is read as fifteen minutes. *)
Theorem parseDuration_fallback (s : string) :
  (0 <= parseDuration s)%Z /\
  ((forall ds u f, s = ds +:+ String u "" -> allDigits ds = true ->
                   ds <> "" -> unitMillis u = Some f -> False) ->
   parseDuration s = 900000%Z).
Proof.
  split; [apply parseDuration_nonneg|]. intros Hno.
  destruct (splitLast s) as [[ds u]|] eqn:Hs.
  - apply splitLast_Some in Hs. subst s. rewrite parseDuration_unfold.
    destruct (allDigits ds) eqn:Hd; cbn [andb]; [|reflexivity].
    destruct (String.eqb ds "") eqn:He; cbn [negb]; [reflexivity|].
    destruct (unitMillis u) as [f|] eqn:Hu; [|reflexivity].
    exfalso. apply (Hno ds u f); auto. now apply String.eqb_neq.
  - unfold parseDuration. now rewrite Hs.
Qed.

Lemma parseDuration_fallback_witness : parseDuration "2w" = 900000%Z.
Proof.
  apply (parseDuration_fallback "2w").
  intros ds u f Heq _ _ Hu.
  assert (Hs : splitLast "2w" = Some (ds, u)) by (rewrite Heq; apply splitLast_app).
  vm_compute in Hs. injection Hs as <- <-. vm_compute in Hu. discriminate.
Defined.

(** ** The refresh-token ledger ([utils/jwt.ts]) *)

Lemma generateRefreshToken_cases cfg env userId db :
  let row := {| rt_id := rand env 1; rt_userId := userId;
                rt_expiresAt := (now env + parseDuration (refreshTokenExpiresIn cfg))%Z |} in
  (exists e, generateRefreshToken cfg env userId db = (inl e, db)) \/
  (generateRefreshToken cfg env userId db
     = (inr (rand env 0), with_refreshTokens (insert (rand env 0) row) db) /\
   refreshTokens db !! rand env 0 = None /\
   (forall t r, refreshTokens db !! t = Some r -> rt_id r <> rand env 1) /\
   is_Some (users db !! userId)).
Proof.
  intros row. unfold generateRefreshToken, bind, refreshToken_create, ret.
  cbn [rt_userId rt_id].
  destruct (has (rand env 0) (refreshTokens db)) eqn:Ht; [left; eauto|].
  destruct (hasRow _ (refreshTokens db)) eqn:Hid; [left; eauto|].
  destruct (has userId (users db)) eqn:Hu; cbn [negb]; [|left; eauto].
  right. split; [reflexivity|]. split; [now apply has_false|]. split.
  - intros t r Hr Heq. eapply hasRow_false in Hid; [|exact Hr].
    cbn in Hid. apply bool_decide_eq_false in Hid. contradiction.
  - now apply has_true.
Qed.

Lemma generated_token_verifies cfg env userId token db db' env' :
  generateRefreshToken cfg env userId db = (inr token, db') ->
  (now env' <= now env + parseDuration (refreshTokenExpiresIn cfg))%Z ->
  verifyRefreshToken env' token db' = (inr (Some userId), db').
Proof.
  intros Hgen Ht.
  destruct (generateRefreshToken_cases cfg env userId db) as [[e He]|(Hok & _)];
    [congruence|].
  rewrite Hok in Hgen. injection Hgen as <- <-.
  rewrite verifyRefreshToken_unfold. cbn [refreshTokens with_refreshTokens].
  rewrite lookup_insert_eq. cbn [rt_expiresAt rt_userId rt_id].
  destruct (Z.ltb_spec (now env + parseDuration (refreshTokenExpiresIn cfg))
              (now env')); [lia|reflexivity].
Qed.

(** X3. A refresh token that was issued verifies, for the user it was
    issued to and without changing the store, at every instant up to its
    expiry; verified later it is refused and its row is purged. *)
Theorem issued_refresh_token_verifies (cfg : Config) (env : Env)
    (userId token : string) (db db' : Db) :
  generateRefreshToken cfg env userId db = (inr token, db') ->
  forall env' : Env,
    ((now env' <= now env + parseDuration (refreshTokenExpiresIn cfg))%Z ->
       verifyRefreshToken env' token db' = (inr (Some userId), db')) /\
    ((now env + parseDuration (refreshTokenExpiresIn cfg) < now env')%Z ->
       exists db'', verifyRefreshToken env' token db' = (inr None, db'') /\
                    refreshTokens db'' !! token = None).
Proof.
  intros Hgen env'.
  split; [now apply (generated_token_verifies cfg env userId token db)|].
  intros Ht.
  destruct (generateRefreshToken_cases cfg env userId db) as [[e He]|(Hok & _)];
    [congruence|].
  rewrite Hok in Hgen. injection Hgen as <- <-.
  rewrite verifyRefreshToken_unfold. cbn [refreshTokens with_refreshTokens].
  rewrite lookup_insert_eq. cbn [rt_expiresAt rt_userId rt_id].
  destruct (Z.ltb_spec (now env + parseDuration (refreshTokenExpiresIn cfg))
              (now env')); [|lia].
  eexists. split; [reflexivity|]. cbn.
  apply map_lookup_filter_None. right. intros x Hx.
  rewrite lookup_insert_eq in Hx. injection Hx as <-. cbn. tauto.
Qed.

Lemma issued_refresh_token_verifies_witness :
  let out := generateRefreshToken cfg0 rotate_env "u1" db_sessions in
  let env' := env_at 6000 "x" in
  ((now env' <= 5000 + parseDuration "7d")%Z ->
     verifyRefreshToken env' "n" out.2 = (inr (Some "u1"), out.2)) /\
  ((5000 + parseDuration "7d" < now env')%Z ->
     exists db'', verifyRefreshToken env' "n" out.2 = (inr None, db'') /\
                  refreshTokens db'' !! "n" = None).
Proof.
  intros out env'.
  apply (issued_refresh_token_verifies cfg0 rotate_env "u1" "n" db_sessions out.2).
  vm_compute. reflexivity.
Defined.

(** X4. Issuing a refresh token keeps every row the ledger had; the only
    row it can add is the new token's, for the user named; a failed issue
    leaves the store as it was. *)
Theorem issuing_keeps_other_sessions (cfg : Config) (env : Env)
    (userId : string) (db : Db) :
  let out := generateRefreshToken cfg env userId db in
  (forall t r, refreshTokens db !! t = Some r -> refreshTokens out.2 !! t = Some r) /\
  (forall t r, refreshTokens out.2 !! t = Some r ->
     refreshTokens db !! t = Some r \/
     (out.1 = inr t /\ t = rand env 0 /\ rt_userId r = userId)) /\
  (forall e, out.1 = inl e -> out.2 = db).
Proof.
  intros out. subst out.
  destruct (generateRefreshToken_cases cfg env userId db)
    as [[e He]|(Hok & Hfresh & _)]; rewrite ?He, ?Hok; cbn.
  - split; [auto|]. split; [auto|]. reflexivity.
  - split; [|split].
    + intros t r Hr. rewrite lookup_insert_ne; [exact Hr|]. congruence.
    + intros t r Hr. apply lookup_insert_Some in Hr as [[<- <-]|[_ Hr]]; auto.
    + discriminate.
Qed.

Lemma with_refreshTokens_id db m :
  m = refreshTokens db -> with_refreshTokens (fun _ => m) db = db.
Proof. intros ->. destruct db; reflexivity. Qed.

(** X5. After [revokeRefreshToken] the token does not verify: at once, and
    after any later ledger calls and writes to other tables in which
    [uuidv4()] does not draw that string again.  Every other token is as
    before, revoking twice is revoking once, and revoking an unknown token
    changes nothing. *)
Theorem revokeRefreshToken_idempotent (token : string) (db : Db) :
  let db' := (revokeRefreshToken token db).2 in
  (forall later : list LedgerCall,
     Forall (fun c => draws c <> Some token) later ->
     forall env,
       verifyRefreshToken env token (ledgerRun later db')
       = (inr None, ledgerRun later db')) /\
  (forall t, t <> token -> refreshTokens db' !! t = refreshTokens db !! t) /\
  (revokeRefreshToken token db').2 = db' /\
  (refreshTokens db !! token = None -> db' = db).
Proof.
  intros db'.
  assert (Hdb : db' = with_refreshTokens (delete token) db) by reflexivity.
  clearbody db'. subst db'. split; [|split; [|split]].
  - intros later Hlater env. apply verifyRefreshToken_absent.
    apply ledgerRun_keeps_absent; [exact Hlater|]. cbn. apply lookup_delete_eq.
  - intros t Hne. cbn. now apply lookup_delete_ne.
  - unfold revokeRefreshToken, write, with_refreshTokens. cbn. f_equal.
    apply delete_delete_eq.
  - intros Hn. destruct db; unfold with_refreshTokens; cbn in *. f_equal.
    now apply delete_id.
Qed.

(** X6. [cleanupExpiredTokens] is invisible to verification: at any later
    instant every token verifies to the same answer with or without the
    cleanup, and what it keeps is exactly the rows not yet expired. *)
Theorem cleanup_is_transparent (env env' : Env) (db : Db) (token : string) :
  (now env <= now env')%Z ->
  let db' := (cleanupExpiredTokens env db).2 in
  (verifyRefreshToken env' token db').1 = (verifyRefreshToken env' token db).1 /\
  (verifyRefreshToken env token db').2 = db' /\
  (forall t r, refreshTokens db' !! t = Some r <->
               refreshTokens db !! t = Some r /\ (now env <= rt_expiresAt r)%Z).
Proof.
  intros Hle db'.
  assert (Hdb : db' = with_refreshTokens
            (filter (fun kv => ~ (rt_expiresAt kv.2 < now env)%Z)) db)
    by reflexivity.
  clearbody db'. subst db'. split; [|split].
  - rewrite !verifyRefreshToken_unfold. cbn [refreshTokens with_refreshTokens].
    rewrite map_lookup_filter.
    destruct (refreshTokens db !! token) as [r|] eqn:Hr; cbn; [|reflexivity].
    case_guard as Hg; cbn in *.
    + destruct (rt_expiresAt r <? now env')%Z; reflexivity.
    + destruct (Z.ltb_spec (rt_expiresAt r) (now env')); [reflexivity|lia].
  - rewrite verifyRefreshToken_unfold. cbn [refreshTokens with_refreshTokens].
    rewrite map_lookup_filter.
    destruct (refreshTokens db !! token) as [r|] eqn:Hr; cbn; [|reflexivity].
    case_guard as Hg; cbn in *; [|reflexivity].
    destruct (Z.ltb_spec (rt_expiresAt r) (now env)); [lia|reflexivity].
  - intros t r. cbn [refreshTokens with_refreshTokens].
    rewrite map_lookup_filter_Some. cbn. split; intros [? ?]; split; auto; lia.
Qed.

Lemma cleanup_is_transparent_witness :
  let db' := (cleanupExpiredTokens (env_at 9200 "c") db_sessions).2 in
  (verifyRefreshToken (env_at 9600 "c") "rt-a2" db').1
    = (verifyRefreshToken (env_at 9600 "c") "rt-a2" db_sessions).1 /\
  (verifyRefreshToken (env_at 9200 "c") "rt-a2" db').2 = db' /\
  (forall t r, refreshTokens db' !! t = Some r <->
               refreshTokens db_sessions !! t = Some r /\
               (9200 <= rt_expiresAt r)%Z).
Proof.
  apply (cleanup_is_transparent (env_at 9200 "c") (env_at 9600 "c") db_sessions
           "rt-a2").
  vm_compute. discriminate.
Defined.

(** ** Access tokens and the authentication middleware *)

(** X7. [optionalAuth] never rejects: it passes on what [authenticate]
    would pass on, and where [authenticate] would reject it passes the
    request on unchanged, without a user. *)
Theorem optionalAuth_never_rejects `{J : Jws} (cfg : Config) (env : Env)
    (req : Request) (db : Db) :
  optionalAuth cfg env req db =
    inr match authenticate cfg env req db with
        | inr req' => req'
        | inl _ => req
        end.
Proof.
  unfold optionalAuth, authenticate.
  destruct (bearerToken req) as [token|]; [|reflexivity].
  destruct (truthy (JStr token)); cbn [negb]; [|reflexivity].
  destruct (verifyAccessToken cfg (now env) token) as [p|]; [|reflexivity].
  destruct (users db !! jp_userId p); reflexivity.
Qed.

Lemma Effect_users e req db db' : Effect e req db db' -> users db' = users db.
Proof. destruct 1; cbn; auto. Qed.


(** X8. No endpoint of the step function writes to the user table, so the
    outcome of [authenticate] for any request is the same before and
    after any of them. *)
Theorem identity_survives_every_endpoint `{J : Jws} `{U : CaseMapping} (cfg : Config) (env : Env)
    (e : Endpoint) (req : Request) (db db' : Db) (resp : Response) :
  serve cfg env e req db = (resp, db') ->
  users db' = users db /\
  forall env' req', authenticate cfg env' req' db' = authenticate cfg env' req' db.
Proof.
  intros Hrun. apply serve_effect, Effect_users in Hrun.
  split; [exact Hrun|]. intros env' req'. unfold authenticate. now rewrite Hrun.
Qed.

Lemma identity_survives_every_endpoint_witness :
  let db' := (serve (J:=ref_jws) (U:=ascii_case) cfg0 (env_at 3000 "m") E_acceptInvitation
                bob_accept_req db_bob_invited).2 in
  users db' = users db_bob_invited /\
  forall env' req',
    authenticate (J:=ref_jws) cfg0 env' req' db'
    = authenticate (J:=ref_jws) cfg0 env' req' db_bob_invited.
Proof.
  intros db'.
  apply (identity_survives_every_endpoint (J:=ref_jws) (U:=ascii_case) cfg0 (env_at 3000 "m")
           E_acceptInvitation bob_accept_req db_bob_invited db'
           (serve (J:=ref_jws) (U:=ascii_case) cfg0 (env_at 3000 "m") E_acceptInvitation
              bob_accept_req db_bob_invited).1).
  apply surjective_pairing.
Defined.

(** ** The session endpoints ([controllers/auth.ts]) *)

(** X9. When [logout] answers 200 it clears the cookie, and the token of
    the cookie does not verify: at once, and after any later ledger calls
    in which [uuidv4()] does not draw that string again.  No other token
    is touched, and without a cookie the store is unchanged. *)
Theorem logout_revokes_the_cookie_token (req : Request) (db db' : Db)
    (resp : Response) :
  logout req db = (resp, db') -> status resp = 200 ->
  setCookie resp = CookieClear "refreshToken" /\
  (forall t, cookies req !! "refreshToken" = Some t -> t <> "" ->
     forall later : list LedgerCall,
       Forall (fun c => draws c <> Some t) later ->
       forall env,
         verifyRefreshToken env t (ledgerRun later db')
         = (inr None, ledgerRun later db')) /\
  (forall t, cookies req !! "refreshToken" <> Some t ->
     refreshTokens db' !! t = refreshTokens db !! t) /\
  (cookies req !! "refreshToken" = None -> db' = db).
Proof.
  unfold logout, tryCatch, bind, revokeRefreshToken, write, ret.
  intros Hrun _.
  destruct (cookies req !! "refreshToken") as [c|] eqn:Hc.
  - destruct (truthy (JStr c)) eqn:Ht; injection Hrun as <- <-.
    + split; [reflexivity|]. split; [|split].
      * intros t [= <-] _ later Hlater env. apply verifyRefreshToken_absent.
        apply ledgerRun_keeps_absent; [exact Hlater|]. cbn.
        apply lookup_delete_eq.
      * intros t Hne. cbn. apply lookup_delete_ne. congruence.
      * discriminate.
    + split; [reflexivity|]. split; [|split].
      * intros t [= <-] Hne. cbn in Ht.
        apply negb_false_iff, String.eqb_eq in Ht. contradiction.
      * reflexivity.
      * discriminate.
  - injection Hrun as <- <-. split; [reflexivity|].
    split; [|split]; [discriminate|reflexivity|reflexivity].
Qed.

Lemma logout_revokes_the_cookie_token_witness :
  let out := logout rotate_req db_sessions in
  setCookie out.1 = CookieClear "refreshToken" /\
  (forall t, cookies rotate_req !! "refreshToken" = Some t -> t <> "" ->
     forall later : list LedgerCall,
       Forall (fun c => draws c <> Some t) later ->
       forall env,
         verifyRefreshToken env t (ledgerRun later out.2)
         = (inr None, ledgerRun later out.2)) /\
  (forall t, cookies rotate_req !! "refreshToken" <> Some t ->
     refreshTokens out.2 !! t = refreshTokens db_sessions !! t) /\
  (cookies rotate_req !! "refreshToken" = None -> out.2 = db_sessions).
Proof.
  intros out.
  apply (logout_revokes_the_cookie_token rotate_req db_sessions out.2 out.1).
  - apply surjective_pairing.
  - vm_compute. reflexivity.
Defined.

Lemma jwt_verify_sign_fresh `{J : Jws} (L : JwsLaws J) payload secret expiresIn
    now millis tok :
  ms expiresIn = Some millis -> (1000 <= millis)%Z ->
  jwt_sign payload secret expiresIn now = inr tok ->
  jwt_verify tok secret now
  = inr {| claims_payload := payload; iat := (now / 1000)%Z;
           exp := (now / 1000 + millis / 1000)%Z |}.
Proof.
  intros Hms Hmin Hsign. unfold jwt_sign in Hsign. rewrite Hms in Hsign.
  destruct (String.eqb secret "") eqn:Hs; [discriminate|].
  injection Hsign as <-. unfold jwt_verify.
  rewrite L, Hs, String.eqb_refl. cbn [negb exp].
  assert (1 <= millis / 1000)%Z by (apply Z.div_le_lower_bound; lia).
  destruct (Z.leb_spec (now / 1000 + millis / 1000) (now / 1000)); [lia|reflexivity].
Qed.


(** X10. When [refreshToken] answers 200, the cookie it sets is a refresh
    token that verifies for the owner of the presented token, and the
    access token of the body verifies to that user's id and address. *)
Theorem refresh_issues_a_valid_pair `{J : Jws} (L : JwsLaws J) (cfg : Config)
    (env : Env) (req : Request) (db db' : Db) (resp : Response) (millis : Z) :
  ms (jwtExpiresIn cfg) = Some millis -> (1000 <= millis)%Z ->
  refreshToken cfg env req db = (resp, db') ->
  status resp = 200 ->
  exists t r u fresh access,
    presentedRefreshToken req = JStr t /\
    refreshTokens db !! t = Some r /\
    users db !! rt_userId r = Some u /\
    setCookie resp = CookieSet "refreshToken" fresh /\
    body resp = DataBody (SessionData (selectAuthUser (rt_userId r, u)) access) /\
    verifyRefreshToken env fresh db' = (inr (Some (rt_userId r)), db') /\
    verifyAccessToken cfg (now env) access
    = Some {| jp_userId := rt_userId r; jp_email := u_email u |}.
Proof.
  intros Hms Hmin Hrun Hok.
  unfold refreshToken, tryCatch in Hrun.
  destruct (presentedRefreshToken req) as [| |b|n|t] eqn:Htok;
    try (cbn in Hrun; simplify_eq; cbn in Hok; discriminate).
  { destruct b; cbn in Hrun; simplify_eq; cbn in Hok; discriminate. }
  { destruct (truthy (JNum n)); cbn in Hrun; simplify_eq; cbn in Hok; discriminate. }
  destruct (truthy (JStr t)) eqn:Ht; cbn [negb] in Hrun.
  2:{ cbn in Hrun. simplify_eq. }
  unfold bind at 1 in Hrun. rewrite verifyRefreshToken_unfold in Hrun.
  destruct (refreshTokens db !! t) as [r|] eqn:Hr.
  2:{ cbn in Hrun. simplify_eq. }
  destruct (rt_expiresAt r <? now env)%Z eqn:Hexp.
  { cbn in Hrun. simplify_eq. }
  destruct (String.eqb (rt_userId r) "") eqn:Hu.
  { cbn in Hrun. simplify_eq. }
  unfold bind at 1, query in Hrun.
  destruct (users db !! rt_userId r) as [u|] eqn:Hus.
  2:{ cbn in Hrun. simplify_eq. }
  unfold bind at 1, revokeRefreshToken, write in Hrun.
  unfold bind at 1, generateTokenPair in Hrun.
  destruct (generateAccessToken _ _ _) as [e|access] eqn:Hacc.
  { cbn in Hrun. simplify_eq. }
  unfold bind at 1 in Hrun.
  destruct (generateRefreshToken cfg env _ _) as [[e|fresh] db1] eqn:Hgen.
  { cbn in Hrun. simplify_eq. }
  cbn in Hrun. injection Hrun as <- <-.
  exists t, r, u, fresh, access. cbn [setCookie body].
  split; [reflexivity|]. split; [exact Hr|]. split; [exact Hus|].
  do 2 (split; [reflexivity|]). split.
  - apply (generated_token_verifies _ _ _ _ _ _ _ Hgen). pose proof (parseDuration_nonneg (refreshTokenExpiresIn cfg)). lia.
  - unfold verifyAccessToken. unfold generateAccessToken in Hacc.
    now rewrite (jwt_verify_sign_fresh L _ _ _ _ _ _ Hms Hmin Hacc).
Qed.

Lemma refresh_issues_a_valid_pair_witness :
  let out := refreshToken (J:=ref_jws) cfg0 rotate_env rotate_req db_sessions in
  exists t r u fresh access,
    presentedRefreshToken rotate_req = JStr t /\
    refreshTokens db_sessions !! t = Some r /\
    users db_sessions !! rt_userId r = Some u /\
    setCookie out.1 = CookieSet "refreshToken" fresh /\
    body out.1 = DataBody (SessionData (selectAuthUser (rt_userId r, u)) access) /\
    verifyRefreshToken rotate_env fresh out.2 = (inr (Some (rt_userId r)), out.2) /\
    verifyAccessToken (J:=ref_jws) cfg0 (now rotate_env) access
    = Some {| jp_userId := rt_userId r; jp_email := u_email u |}.
Proof.
  intros out.
  apply (refresh_issues_a_valid_pair (J:=ref_jws) ref_jws_laws cfg0 rotate_env
           rotate_req db_sessions out.2 out.1 900000).
  - vm_compute. reflexivity.
  - vm_compute. discriminate.
  - apply surjective_pairing.
  - vm_compute. reflexivity.
Defined.

(** X11. [refreshToken] revokes the presented token before it issues the
    new pair and does not restore it: when the token is valid and its user
    exists but issuing the pair fails (signing throws, or the insert is
    refused), the answer is 500, the presented token has no row any more,
    and no other token was touched. *)
Theorem refresh_fails_closed `{J : Jws} (cfg : Config) (env : Env)
    (req : Request) (db : Db) (t : string) (r : RefreshToken) (u : User)
    (e : Thrown) :
  presentedRefreshToken req = JStr t -> t <> "" ->
  refreshTokens db !! t = Some r -> (now env <= rt_expiresAt r)%Z ->
  rt_userId r <> "" -> users db !! rt_userId r = Some u ->
  (generateTokenPair cfg env (rt_userId r) (u_email u)
     (with_refreshTokens (delete t) db)).1 = inl e ->
  exists db',
    refreshToken cfg env req db = (reject 500 "Token refresh failed", db') /\
    refreshTokens db' !! t = None /\
    (forall t', t' <> t -> refreshTokens db' !! t' = refreshTokens db !! t').
Proof.
  intros Htok Hne Hr Hexp Huid Hu Hfail.
  exists (with_refreshTokens (delete t) db). split; [|split].
  - unfold refreshToken, tryCatch. rewrite Htok.
    assert (Ht : truthy (JStr t) = true).
    { cbn. apply negb_true_iff. now apply String.eqb_neq. }
    rewrite Ht. cbn [negb]. unfold bind at 1.
    rewrite verifyRefreshToken_unfold, Hr.
    destruct (Z.ltb_spec (rt_expiresAt r) (now env)) as [Hlt|_]; [lia|].
    apply String.eqb_neq in Huid. rewrite Huid.
    unfold bind at 1, query. rewrite Hu.
    unfold bind at 1, revokeRefreshToken, write. cbn [selectAuthUser au_id au_email fst snd].
    unfold bind at 1. unfold generateTokenPair in *.
    destruct (generateAccessToken _ _ _) as [e1|access]; [reflexivity|].
    unfold bind at 1 in Hfail. unfold bind at 1.
    destruct (generateRefreshToken_cases cfg env (rt_userId r)
                (with_refreshTokens (delete t) db)) as [[e2 He]|(Hok & _)].
    + rewrite He. reflexivity.
    + rewrite Hok in Hfail. discriminate.
  - cbn. apply lookup_delete_eq.
  - intros t' Hne'. cbn. now apply lookup_delete_ne.
Qed.

Lemma refresh_fails_closed_witness :
  exists db',
    refreshToken (J:=ref_jws) cfg_nosecret rotate_env rotate_req db_sessions
    = (reject 500 "Token refresh failed", db') /\
    refreshTokens db' !! "rt-a1" = None /\
    (forall t', t' <> "rt-a1" ->
       refreshTokens db' !! t' = refreshTokens db_sessions !! t').
Proof.
  apply (refresh_fails_closed (J:=ref_jws) cfg_nosecret rotate_env rotate_req
           db_sessions "rt-a1"
           {| rt_id := "r1"; rt_userId := "u1"; rt_expiresAt := 9000 |}
           {| u_email := "a@x.com"; u_name := Some "Ann" |}
           (JwtThrown SecretMissing)).
  - vm_compute. reflexivity.
  - discriminate.
  - vm_compute. reflexivity.
  - vm_compute. discriminate.
  - discriminate.
  - vm_compute. reflexivity.
  - vm_compute. reflexivity.
Defined.

(** ** Workspace access ([middleware/auth.ts]) *)

Lemma requireWorkspace_inr (req req' : Request) (db : Db) :
  requireWorkspace req db = inr req' ->
  exists u wid m w,
    user req = Some u /\
    orElse (params req !! "workspaceId") (queryString req !! "workspaceId")
      = Some wid /\
    wid <> "" /\
    workspaceMembers db !! m.1 = Some m.2 /\
    wm_userId m.2 = au_id u /\ wm_workspaceId m.2 = wid /\
    workspaces db !! wid = Some w /\
    req' = with_membership (wid, w) m req.
Proof.
  unfold requireWorkspace. intros Hrun.
  destruct (user req) as [u|]; [|discriminate].
  destruct (orElse _ _) as [wid|] eqn:Hw; [|discriminate].
  destruct (truthy (JStr wid)) eqn:Ht; cbn [negb] in Hrun; [|discriminate].
  destruct (findFirst _ _) as [[k m]|] eqn:Hf; [|discriminate].
  apply findFirst_Some in Hf as [Hk HP].
  apply andb_true_iff in HP as [Hu Hwid].
  apply bool_decide_eq_true in Hu, Hwid. cbn [snd] in Hrun.
  destruct (workspaces db !! wm_workspaceId m) as [w|] eqn:Hws; [|discriminate].
  injection Hrun as <-.
  exists u, wid, (k, m), w. cbn [fst snd]. rewrite Hwid in *.
  repeat split; auto.
  cbn in Ht. apply negb_true_iff in Ht. now apply String.eqb_neq.
Qed.

(** X12. [requireWorkspace] answers 403 for a user who has no member row
    in the workspace named by the route. *)
Theorem requireWorkspace_denies_non_members (req : Request) (db : Db)
    (u : AuthUser) (wid : string) :
  user req = Some u ->
  params req !! "workspaceId" = Some wid -> wid <> "" ->
  (forall id m, workspaceMembers db !! id = Some m ->
     wm_userId m = au_id u -> wm_workspaceId m <> wid) ->
  requireWorkspace req db = inl (reject 403 "Access denied to this workspace").
Proof.
  intros Hu Hp Hne Hnone. unfold requireWorkspace, orElse. rewrite Hu, Hp.
  assert (Ht : truthy (JStr wid) = true).
  { cbn. apply negb_true_iff. now apply String.eqb_neq. }
  rewrite Ht. cbn beta iota. rewrite Ht. cbn [negb].
  destruct (findFirst _ _) as [[k m]|] eqn:Hf; [|reflexivity].
  apply findFirst_Some in Hf as [Hk HP].
  apply andb_true_iff in HP as [Hu' Hwid].
  apply bool_decide_eq_true in Hu', Hwid.
  exfalso. exact (Hnone k m Hk Hu' Hwid).
Qed.


Lemma requireWorkspace_denies_non_members_witness :
  requireWorkspace (enter_w_req carol) db_partnership
  = inl (reject 403 "Access denied to this workspace").
Proof.
  apply (requireWorkspace_denies_non_members (enter_w_req carol) db_partnership
           carol "w").
  - reflexivity.
  - vm_compute. reflexivity.
  - discriminate.
  - assert (Hall : map_Forall
              (fun _ m => wm_userId m = au_id carol -> wm_workspaceId m <> "w")
              (workspaceMembers db_partnership))
      by (apply (bool_decide_unpack _); vm_compute; exact I).
    intros id m Hm. exact (Hall id m Hm).
Defined.

(** X13. Behind [authenticate], [requireWorkspace] and [requireRole roles]
    a handler runs only for a bearer of a valid access token of an
    existing user who has a member row, with one of the roles, in an
    existing workspace; the handler then sees that user, workspace and
    member.  Otherwise the store is untouched and the answer is an error
    status. *)
Theorem guarded_route_runs_only_for_allowed_members `{J : Jws} (cfg : Config)
    (env : Env) (roles : list string) (h : Handler) (req : Request)
    (db db' : Db) (resp : Response) :
  route [authenticate cfg env; requireWorkspace; requireRole roles] h req db
    = (resp, db') ->
  (db' = db /\ exists code msg, resp = reject code msg /\ 400 <= code) \/
  (exists token payload u m w,
     bearerToken req = Some token /\
     verifyAccessToken cfg (now env) token = Some payload /\
     users db !! jp_userId payload = Some u /\
     workspaceMembers db !! m.1 = Some m.2 /\
     wm_userId m.2 = jp_userId payload /\
     roleName (wm_role m.2) ∈ roles /\
     workspaces db !! wm_workspaceId m.2 = Some w /\
     h (with_membership (wm_workspaceId m.2, w) m
          (with_user (selectAuthUser (jp_userId payload, u)) req)) db
     = (resp, db')).
Proof.
  cbn [route]. intros Hrun.
  destruct (authenticate cfg env req db) as [r|req1] eqn:Ha.
  { pose proof (authenticate_next cfg env req db) as Hn. rewrite Ha in Hn.
    injection Hrun as <- <-. left. split; [reflexivity|].
    destruct Hn as (c & msg & -> & Hc). eauto. }
  destruct (requireWorkspace req1 db) as [r|req2] eqn:Hw.
  { pose proof (requireWorkspace_next req1 db) as Hn. rewrite Hw in Hn.
    injection Hrun as <- <-. left. split; [reflexivity|].
    destruct Hn as (c & msg & -> & Hc). eauto. }
  destruct (requireRole roles req2 db) as [r|req3] eqn:Hr.
  { pose proof (requireRole_next roles req2 db) as Hn. rewrite Hr in Hn.
    injection Hrun as <- <-. left. split; [reflexivity|].
    destruct Hn as (c & msg & -> & Hc). eauto. }
  right.
  unfold authenticate in Ha.
  destruct (bearerToken req) as [token|] eqn:Hb; [|discriminate].
  destruct (truthy (JStr token)); cbn [negb] in Ha; [|discriminate].
  destruct (verifyAccessToken cfg (now env) token) as [payload|] eqn:Hv;
    [|discriminate].
  destruct (users db !! jp_userId payload) as [u|] eqn:Hu; [|discriminate].
  injection Ha as <-.
  apply requireWorkspace_inr in Hw
    as (u' & wid & m & w & Hu' & _ & _ & Hm & Hmu & Hmw & Hws & ->).
  cbn in Hu'. injection Hu' as <-. cbn in Hmu.
  unfold requireRole in Hr. cbn [workspaceMember with_membership] in Hr.
  destruct (bool_decide (roleName (wm_role m.2) ∈ roles)) eqn:Hin;
    cbn [negb] in Hr; [|discriminate].
  injection Hr as <-. apply bool_decide_eq_true in Hin.
  exists token, payload, u, m, w. subst wid. repeat split; auto.
Qed.

Lemma guarded_route_runs_only_for_allowed_members_witness :
  let out := route [authenticate (J:=ref_jws) cfg0 (env_at 6000 "r");
                    requireWorkspace; requireRole ["OWNER"]]
               removeMember remove_bob_routed_req db_partnership in
  (out.2 = db_partnership /\
   exists code msg, out.1 = reject code msg /\ 400 <= code) \/
  (exists token payload u m w,
     bearerToken remove_bob_routed_req = Some token /\
     verifyAccessToken (J:=ref_jws) cfg0 (now (env_at 6000 "r")) token
       = Some payload /\
     users db_partnership !! jp_userId payload = Some u /\
     workspaceMembers db_partnership !! m.1 = Some m.2 /\
     wm_userId m.2 = jp_userId payload /\
     roleName (wm_role m.2) ∈ ["OWNER"] /\
     workspaces db_partnership !! wm_workspaceId m.2 = Some w /\
     removeMember
       (with_membership (wm_workspaceId m.2, w) m
          (with_user (selectAuthUser (jp_userId payload, u))
             remove_bob_routed_req)) db_partnership
     = out).
Proof.
  intros out.
  destruct out as [resp db'] eqn:Hout.
  apply (guarded_route_runs_only_for_allowed_members (J:=ref_jws) cfg0
           (env_at 6000 "r") ["OWNER"] removeMember remove_bob_routed_req
           db_partnership db' resp).
  exact Hout.
Defined.

(** ** The workspace handlers, case by case ([controllers/workspace.ts]) *)

Ltac found' :=
  repeat match goal with
  | H : findFirst _ _ = Some ?p |- _ => is_var p; destruct p
  | H : findFirst _ _ = Some (_, _) |- _ =>
      apply findFirst_Some in H as [? ?]
  | H : has _ _ = true |- _ => apply has_true in H
  | H : has _ _ = false |- _ => apply has_false in H
  | H : negb _ = true |- _ => apply negb_true_iff in H
  | H : negb _ = false |- _ => apply negb_false_iff in H
  | H : _ && _ = true |- _ => apply andb_true_iff in H as [? ?]
  | H : bool_decide _ = true |- _ => apply bool_decide_eq_true in H
  | H : bool_decide _ = false |- _ => apply bool_decide_eq_false in H
  | H : idFilter (Some _) _ = true |- _ => apply bool_decide_eq_true in H
  | H : (_ <? _)%Z = true |- _ => apply Z.ltb_lt in H
  | H : (_ <? _)%Z = false |- _ => apply Z.ltb_ge in H
  | H : String.eqb _ _ = true |- _ => apply String.eqb_eq in H
  end.

Ltac cases_of_handler :=
  unfold tryCatch, transaction, bind, query, write, ret, throw;
  intros Hrun; repeat case_match; simplify_eq.

(** What [acceptInvitation] can do: nothing, mark a stale invitation
    EXPIRED, or accept. *)
Lemma acceptInvitation_cases `{U : CaseMapping} env req db resp db' :
  acceptInvitation env req db = (resp, db') ->
  (db' = db /\ status resp <> 200) \/
  (exists k i,
     field "token" (reqBody req) = JStr (inv_token i) /\
     invitations db !! k = Some i /\ inv_status i = PENDING /\
     (inv_expiresAt i < now env)%Z /\
     is_Some (workspaces db !! inv_workspaceId i) /\
     resp = reject 400 "Invitation has expired" /\
     db' = with_invitations (insert k (inv_set_status EXPIRED i)) db) \/
  (exists u k i w,
     user req = Some u /\
     field "token" (reqBody req) = JStr (inv_token i) /\
     invitations db !! k = Some i /\ inv_status i = PENDING /\
     (now env <= inv_expiresAt i)%Z /\
     toLowerCase (inv_email i) = toLowerCase (au_email u) /\
     workspaces db !! inv_workspaceId i = Some w /\
     workspaceMembers db !! rand env 0 = None /\
     (forall k' m', workspaceMembers db !! k' = Some m' ->
        wm_userId m' = au_id u -> wm_workspaceId m' = inv_workspaceId i -> False) /\
     is_Some (users db !! au_id u) /\
     resp = ok 200 (MemberData (rand env 0, acceptedMember u i)) /\
     db' = with_workspaces
             (insert (inv_workspaceId i) (ws_set_type PARTNERSHIP w))
             (with_workspaceMembers (insert (rand env 0) (acceptedMember u i))
                (with_invitations (insert k (inv_accept (au_id u) i)) db))).
Proof.
  unfold acceptInvitation, invitation_update, workspaceMember_create,
    workspace_update.
  cases_of_handler; found'; cbn in *; simplify_eq;
    try (left; split; [reflexivity|cbn; discriminate]).
  - right; left. eexists _, _. repeat split; eauto.
  - right; right. eexists _, _, _, _. repeat split; eauto.
    intros k' m' Hk' Hu' Hw'.
    match goal with H : hasRow _ _ = false |- _ =>
      eapply hasRow_false in H; [|exact Hk'] end.
    cbn in *. rewrite !bool_decide_eq_true_2 in * by done. discriminate.
  - right; right.
    match goal with |- context [with_workspaceMembers _ ?d] =>
      idtac end.
    eexists _, _, _, _. repeat split; eauto.
    + intros k' m' Hk' Hu' Hw'.
      match goal with H : hasRow _ _ = false |- _ =>
        eapply hasRow_false in H; [|exact Hk'] end.
      cbn in *. rewrite !bool_decide_eq_true_2 in * by done. discriminate.
    + rewrite (ws_set_type_same PARTNERSHIP) by
        (match goal with H : ws_type _ <> SOLE_TRADER |- _ =>
           destruct (ws_type w); congruence end).
      symmetry. now apply with_workspaces_insert_id.
Qed.

(** What [invitePartner] can do: nothing, or create one invitation. *)
Lemma invitePartner_cases `{U : CaseMapping} cfg env req db resp db' :
  invitePartner cfg env req db = (resp, db') ->
  (db' = db /\ status resp <> 201) \/
  (exists ws caller u email split days,
     workspace req = Some ws /\ workspaceMember req = Some caller /\
     isOwnerOrAdmin caller = true /\ user req = Some u /\
     field "email" (reqBody req) = JStr email /\
     field "profitSplit" (reqBody req) = JNum split /\
     invitationExpiryDays cfg = Some days /\
     let invitee :=
       findFirst (fun _ u => bool_decide (u_email u = toLowerCase email))
                 (users db) in
     let i := newInvitation cfg env ws.1 u email (fst <$> invitee) split days in
     invitations db !! rand env 0 = None /\
     (forall k j, invitations db !! k = Some j -> inv_token j <> rand env 1) /\
     (forall k j, invitations db !! k = Some j -> inv_status j = PENDING ->
        inv_workspaceId j = ws.1 -> inv_email j <> toLowerCase email) /\
     (forall x k m, invitee = Some x -> workspaceMembers db !! k = Some m ->
        wm_userId m = x.1 -> wm_workspaceId m <> ws.1) /\
     is_Some (workspaces db !! ws.1) /\
     resp = ok 201 (InvitationData (rand env 0, i)
                      (clientUrl cfg +:+ "/invite/" +:+ rand env 1)) /\
     db' = with_invitations (insert (rand env 0) i) db).
Proof.
  unfold invitePartner, invitation_create.
  cases_of_handler;
    try (left; split; [reflexivity|cbn; discriminate]).
  all: right; eexists _, _, _, _, _, _; cbn zeta.
  all: repeat match goal with
       | H : findFirst _ (users _) = _ |- _ => rewrite H; clear H
       end.
  all: found'; cbn in *; simplify_eq.
  all: repeat split; eauto.
  all: try (intros k j Hk Heq;
            match goal with H : hasRow _ (invitations _) = false |- _ =>
              eapply hasRow_false in H; [|exact Hk];
              cbn in H; rewrite bool_decide_eq_true_2 in H by done;
              discriminate end).
  all: try (intros k j Hk Hst Hw Hem;
            match goal with H : findFirst _ (invitations _) = None |- _ =>
              eapply findFirst_None in H; [|exact Hk];
              cbn in H; rewrite !bool_decide_eq_true_2 in H by done;
              discriminate end).
  all: try (intros x k m [= <-] Hk Hu Hw;
            match goal with H : findFirst _ (workspaceMembers _) = None |- _ =>
              eapply findFirst_None in H; [|exact Hk];
              cbn in H; rewrite !bool_decide_eq_true_2 in H by done;
              discriminate end).
  all: try discriminate.
Qed.

Lemma completeOnboarding_cases env req db resp db' :
  completeOnboarding env req db = (resp, db') ->
  (db' = db /\ status resp <> 201) \/
  (exists u name t type buy sell,
     user req = Some u /\
     field "workspaceName" (reqBody req) = JStr name /\
     field "accountType" (reqBody req) = JStr t /\
     workspaceTypeOfString t = Some type /\
     numericColumn (field "defaultBuyRate" (reqBody req)) = inr buy /\
     numericColumn (field "defaultSellRate" (reqBody req)) = inr sell /\
     (forall k m, workspaceMembers db !! k = Some m -> wm_userId m <> au_id u) /\
     workspaces db !! rand env 0 = None /\
     workspaceMembers db !! rand env 1 = None /\
     workspaceSettings db !! rand env 2 = None /\
     is_Some (users db !! au_id u) /\
     let w := {| ws_name := name; ws_type := type |} in
     let s := {| st_workspaceId := rand env 0; st_defaultBuyRate := buy;
                 st_defaultSellRate := sell |} in
     resp = ok 201 (OnboardedData (rand env 0, w)
                      (rand env 1, ownerMember u (rand env 0)) (rand env 2, s)) /\
     db' = with_workspaceSettings (insert (rand env 2) s)
             (with_workspaceMembers
                (insert (rand env 1) (ownerMember u (rand env 0)))
                (with_workspaces (insert (rand env 0) w) db))).
Proof.
  unfold completeOnboarding, workspace_create, workspaceMember_create,
    workspaceSettings_create.
  cases_of_handler;
    try (left; split; [reflexivity|cbn; discriminate]).
  right. eexists _, _, _, _, _, _. cbn zeta.
  found'; cbn in *; simplify_eq.
  repeat split; eauto.
  intros k m Hk Hu.
  match goal with H : findFirst _ (workspaceMembers _) = None |- _ =>
    eapply findFirst_None in H; [|exact Hk];
    cbn in H; rewrite bool_decide_eq_true_2 in H by done; discriminate end.
Qed.

Lemma removeMember_cases req db resp db' :
  removeMember req db = (resp, db') ->
  (db' = db /\ status resp <> 200) \/
  (exists ws caller id m,
     workspace req = Some ws /\ workspaceMember req = Some caller /\
     wm_role caller.2 = OWNER /\
     params req !! "memberId" = Some id /\
     workspaceMembers db !! id = Some m /\
     wm_workspaceId m = ws.1 /\ wm_isOwner m = false /\
     resp = okMessage "Member removed successfully" /\
     db' = with_workspaceMembers (delete id) db).
Proof.
  unfold removeMember, workspaceMember_delete.
  cases_of_handler;
    try (left; split; [reflexivity|cbn; discriminate]).
  right. found'; cbn in *; simplify_eq.
  eexists _, _, _, _. repeat split; eauto.
  match goal with H : roleName ?r = "OWNER" |- _ => destruct r; cbn in H; congruence end.
Qed.

Lemma updateProfitSplit_cases req db resp db' :
  updateProfitSplit req db = (resp, db') ->
  (db' = db /\ status resp <> 200) \/
  (exists ws caller id m split,
     workspace req = Some ws /\ workspaceMember req = Some caller /\
     wm_role caller.2 = OWNER /\
     field "memberId" (reqBody req) = JStr id /\
     numericColumn (field "profitSplit" (reqBody req)) = inr split /\
     workspaceMembers db !! id = Some m /\
     wm_workspaceId m = ws.1 /\
     resp = ok 200 (MemberData (id, wm_set_profitSplit split m)) /\
     db' = with_workspaceMembers (insert id (wm_set_profitSplit split m)) db).
Proof.
  unfold updateProfitSplit, workspaceMember_update, stringFilter.
  cases_of_handler;
    try (left; split; [reflexivity|cbn; discriminate]).
  all: right; found'; cbn in *; simplify_eq.
  all: eexists _, _, _, _, _; repeat split; eauto.
  all: match goal with H : roleName ?r = "OWNER" |- _ => destruct r; cbn in H; congruence end.
Qed.

Lemma cancelInvitation_cases req db resp db' :
  cancelInvitation req db = (resp, db') ->
  (db' = db /\ status resp <> 200) \/
  (exists ws caller id i,
     workspace req = Some ws /\ workspaceMember req = Some caller /\
     isOwnerOrAdmin caller = true /\
     params req !! "invitationId" = Some id /\
     invitations db !! id = Some i /\
     inv_workspaceId i = ws.1 /\ inv_status i = PENDING /\
     resp = okMessage "Invitation cancelled" /\
     db' = with_invitations (delete id) db).
Proof.
  unfold cancelInvitation, invitation_delete.
  cases_of_handler;
    try (left; split; [reflexivity|cbn; discriminate]).
  right. found'; cbn in *; simplify_eq.
  eexists _, _, _, _. repeat split; eauto.
Qed.

Lemma updateWorkspace_cases req db resp db' :
  updateWorkspace req db = (resp, db') ->
  (db' = db /\ status resp <> 200) \/
  (exists ws caller w,
     workspace req = Some ws /\ workspaceMember req = Some caller /\
     isOwnerOrAdmin caller = true /\
     workspaces db !! ws.1 = Some w /\
     status resp = 200 /\
     db' = with_workspaces
             (insert ws.1 (patched (field "name" (reqBody req))
                                (field "type" (reqBody req)) w)) db).
Proof.
  unfold updateWorkspace, workspace_update, patched.
  cases_of_handler;
    try (left; split; [reflexivity|cbn; discriminate]).
  all: right; found'; cbn in *; simplify_eq.
  all: eexists _, _, _; repeat split; eauto.
  all: repeat match goal with
       | H : negb _ = true |- _ => apply negb_true_iff in H
       | H : negb _ = false |- _ => apply negb_false_iff in H
       | H : String.eqb _ _ = true |- _ => apply String.eqb_eq in H
       end; simplify_eq; try congruence.
  all: repeat match goal with
       | H : workspaceTypeOfString _ = _ |- _ => rewrite ?H; clear H end.
  all: match goal with w : Workspace |- _ => destruct w; reflexivity end.
Qed.

(** ** Keys and references of the tables *)

Lemma uniqueBy_empty {A B} (key : A -> option B) : uniqueBy key ∅.
Proof. intros k k' x x' b Hk. now rewrite lookup_empty in Hk. Qed.

Lemma uniqueBy_insert_fresh {A B} (key : A -> option B) m k x :
  uniqueBy key m ->
  (forall k' x' b, m !! k' = Some x' -> key x' = Some b -> key x <> Some b) ->
  uniqueBy key (<[k:=x]> m).
Proof.
  intros Hu Hfresh k1 k2 x1 x2 b H1 H2 Hb1 Hb2.
  apply lookup_insert_Some in H1 as [[<- <-]|[Hn1 H1]];
    apply lookup_insert_Some in H2 as [[<- <-]|[Hn2 H2]]; try reflexivity.
  - exfalso. exact (Hfresh _ _ _ H2 Hb2 Hb1).
  - exfalso. exact (Hfresh _ _ _ H1 Hb1 Hb2).
  - exact (Hu _ _ _ _ _ H1 H2 Hb1 Hb2).
Qed.

Lemma uniqueBy_insert_same {A B} (key : A -> option B) m k x x' :
  uniqueBy key m -> m !! k = Some x ->
  (key x' = key x \/ key x' = None) ->
  uniqueBy key (<[k:=x']> m).
Proof.
  intros Hu Hk Hkey k1 k2 x1 x2 b H1 H2 Hb1 Hb2.
  apply lookup_insert_Some in H1 as [[<- <-]|[Hn1 H1]];
    apply lookup_insert_Some in H2 as [[<- <-]|[Hn2 H2]]; try reflexivity.
  - destruct Hkey as [He|He]; rewrite He in Hb1; [|discriminate].
    exact (Hu _ _ _ _ _ Hk H2 Hb1 Hb2).
  - destruct Hkey as [He|He]; rewrite He in Hb2; [|discriminate].
    exact (Hu _ _ _ _ _ H1 Hk Hb1 Hb2).
  - exact (Hu _ _ _ _ _ H1 H2 Hb1 Hb2).
Qed.

Lemma uniqueBy_delete {A B} (key : A -> option B) m k :
  uniqueBy key m -> uniqueBy key (delete k m).
Proof.
  intros Hu k1 k2 x1 x2 b H1 H2.
  apply lookup_delete_Some in H1 as [_ H1].
  apply lookup_delete_Some in H2 as [_ H2]. exact (Hu _ _ _ _ _ H1 H2).
Qed.

Lemma ledger_effect e req db db' :
  e = E_refreshToken \/ e = E_logout \/ e = E_logoutAll ->
  Effect e req db db' ->
  workspaces db' = workspaces db /\
  workspaceMembers db' = workspaceMembers db /\
  invitations db' = invitations db.
Proof.
  intros He Heff.
  destruct Heff; try (destruct He as [->| [->| ->]]; discriminate); auto.
Qed.

Lemma schemaInvariant_tables db db' :
  workspaces db' = workspaces db ->
  workspaceMembers db' = workspaceMembers db ->
  invitations db' = invitations db ->
  schemaInvariant db -> schemaInvariant db'.
Proof.
  intros Hw Hm Hi [A B C D E]. split; rewrite ?Hw, ?Hm, ?Hi; assumption.
Qed.

Lemma serve_schemaInvariant `{J : Jws} `{U : CaseMapping} cfg env e req db :
  schemaInvariant db -> schemaInvariant (serve cfg env e req db).2.
Proof.
  intros Hinv. destruct (serve cfg env e req db) as [resp db'] eqn:Hrun.
  cbn [snd]. pose proof Hinv as [A B C D E].
  pose proof (serve_effect _ _ _ _ _ _ _ Hrun) as Heff.
  destruct e; cbn [serve] in Hrun.
  1-3: eapply ledger_effect in Heff as (Hw & Hm & Hi); [|eauto];
       eapply schemaInvariant_tables; eassumption.
  all: clear Heff.
  - (* completeOnboarding *)
    apply completeOnboarding_cases in Hrun
      as [[-> _]|(u & name & t & type & buy & sell & Hu & _ & _ & _ & _ & _ &
                  Hnone & Hw & Hm & _ & _ & _ & ->)]; [assumption|].
    split; cbn.
    + assumption.
    + apply uniqueBy_insert_fresh; [assumption|].
      intros k' m' b Hk' Hb [= Hb']. unfold memberKey in Hb.
      injection Hb as <-. injection Hb' as Hb' _. cbn in Hb'.
      exact (Hnone _ _ Hk' (eq_sym Hb')).
    + assumption.
    + intros k i Hk. apply lookup_insert_is_Some'. right. eauto.
    + intros k m Hk. apply lookup_insert_Some in Hk as [[<- <-]|[_ Hk]];
        [reflexivity|eauto].
  - (* updateWorkspace *)
    apply updateWorkspace_cases in Hrun
      as [[-> _]|(ws & caller & w & _ & _ & _ & Hw & _ & ->)]; [assumption|].
    split; cbn; try assumption.
    intros k i Hk. apply lookup_insert_is_Some'. right. eauto.
  - (* invitePartner *)
    apply invitePartner_cases in Hrun
      as [[-> _]|(ws & caller & u & email & split & days & _ & _ & _ & _ & _ &
                  _ & _ & Hfresh & Htok & Hpend & _ & Hws & _ & ->)];
      [assumption|].
    split; cbn; try assumption.
    + apply uniqueBy_insert_fresh; [assumption|].
      intros k' i' b Hk' [= <-] [= Hb]. exact (Htok _ _ Hk' (eq_sym Hb)).
    + apply uniqueBy_insert_fresh; [assumption|].
      intros k' i' b Hk' Hb [= <-]. unfold pendingKey in Hb.
      destruct (inv_status i') eqn:Hst; try discriminate.
      injection Hb as Hw' He'. exact (Hpend _ _ Hk' Hst Hw' He').
    + intros k i Hk. apply lookup_insert_Some in Hk as [[<- <-]|[_ Hk]];
        [exact Hws|eauto].
  - (* acceptInvitation *)
    apply acceptInvitation_cases in Hrun
      as [[-> _]|[(k & i & _ & Hk & Hst & _ & _ & _ & ->)
                 |(u & k & i & w & _ & _ & Hk & Hst & _ & _ & Hw & Hm & Hpair &
                   _ & _ & ->)]]; [assumption| |].
    + split; cbn; try assumption.
      * eapply uniqueBy_insert_same; [assumption|exact Hk|now left].
      * eapply uniqueBy_insert_same; [assumption|exact Hk|now right].
      * intros k' i' Hk'. apply lookup_insert_Some in Hk' as [[<- <-]|[_ Hk']];
          cbn; eauto.
    + split; cbn.
      * eapply uniqueBy_insert_same; [assumption|exact Hk|now left].
      * apply uniqueBy_insert_fresh; [assumption|].
        intros k' m' b Hk' [= <-] [= Hu' Hw'].
        exact (Hpair _ _ Hk' (eq_sym Hu') (eq_sym Hw')).
      * eapply uniqueBy_insert_same; [assumption|exact Hk|now right].
      * intros k' i' Hk'. apply lookup_insert_is_Some'. right.
        apply lookup_insert_Some in Hk' as [[<- <-]|[_ Hk']]; cbn; eauto.
      * intros k' m' Hk'. apply lookup_insert_Some in Hk' as [[<- <-]|[_ Hk']];
          [reflexivity|eauto].
  - (* updateProfitSplit *)
    apply updateProfitSplit_cases in Hrun
      as [[-> _]|(ws & caller & id & m & split & _ & _ & _ & _ & _ & Hm & _ & _ &
                  ->)]; [assumption|].
    split; cbn; try assumption.
    + eapply uniqueBy_insert_same; [assumption|exact Hm|now left].
    + intros k' m' Hk'. apply lookup_insert_Some in Hk' as [[<- <-]|[_ Hk']];
        cbn; eauto.
  - (* removeMember *)
    apply removeMember_cases in Hrun
      as [[-> _]|(ws & caller & id & m & _ & _ & _ & _ & Hm & _ & _ & _ & ->)];
      [assumption|].
    split; cbn; try assumption.
    + now apply uniqueBy_delete.
    + intros k' m' Hk'. apply lookup_delete_Some in Hk' as [_ Hk']. eauto.
  - (* cancelInvitation *)
    apply cancelInvitation_cases in Hrun
      as [[-> _]|(ws & caller & id & i & _ & _ & _ & _ & Hi & _ & _ & _ & ->)];
      [assumption|].
    split; cbn; try assumption.
    + now apply uniqueBy_delete.
    + now apply uniqueBy_delete.
    + intros k' i' Hk'. apply lookup_delete_Some in Hk' as [_ Hk']. eauto.
Qed.

Lemma Reachable_schema `{J : Jws} `{U : CaseMapping} cfg db : Reachable cfg db -> schemaInvariant db.
Proof.
  induction 1 as [db Hw Hm Hi|db env e req _ IH|db db' _ IH Hw Hm Hi].
  - split; rewrite ?Hw, ?Hm, ?Hi; try apply uniqueBy_empty;
      intros k x Hk; now rewrite lookup_empty in Hk.
  - now apply serve_schemaInvariant.
  - eapply schemaInvariant_tables; eassumption.
Qed.

Lemma db_onboarded_reachable : Reachable (J:=ref_jws) (U:=ascii_case) cfg0 db_onboarded.
Proof.
  apply (reach_serve cfg0 _ (env_at 1000 "w") E_completeOnboarding onboard_req).
  apply reach_initial; reflexivity.
Qed.

Lemma db_bob_invited_reachable : Reachable (J:=ref_jws) (U:=ascii_case) cfg0 db_bob_invited.
Proof.
  apply (reach_serve cfg0 _ (env_at 2000 "i") E_invitePartner invite_req).
  apply db_onboarded_reachable.
Qed.

Lemma db_partnership_reachable : Reachable (J:=ref_jws) (U:=ascii_case) cfg0 db_partnership.
Proof.
  apply (reach_serve cfg0 _ (env_at 3000 "m") E_acceptInvitation bob_accept_req).
  apply db_bob_invited_reachable.
Qed.

(** ** Later requests *)

(** What one request does to the member table, and that it removes no
    workspace. *)
Lemma serve_members `{J : Jws} `{U : CaseMapping} cfg env e req db :
  (forall wid, is_Some (workspaces db !! wid) ->
     is_Some (workspaces (serve cfg env e req db).2 !! wid)) /\
  (workspaceMembers (serve cfg env e req db).2 = workspaceMembers db \/
   (exists k u wid,
      user req = Some u /\ workspaceMembers db !! k = None /\
      workspaces db !! wid = None /\
      workspaceMembers (serve cfg env e req db).2
        = <[k := ownerMember u wid]> (workspaceMembers db)) \/
   (exists k u i,
      e = E_acceptInvitation /\ user req = Some u /\
      workspaceMembers db !! k = None /\
      workspaceMembers (serve cfg env e req db).2
        = <[k := acceptedMember u i]> (workspaceMembers db)) \/
   (exists id m split,
      workspaceMembers db !! id = Some m /\
      workspaceMembers (serve cfg env e req db).2
        = <[id := wm_set_profitSplit split m]> (workspaceMembers db)) \/
   (exists id m,
      workspaceMembers db !! id = Some m /\ wm_isOwner m = false /\
      workspaceMembers (serve cfg env e req db).2
        = delete id (workspaceMembers db))).
Proof.
  destruct (serve cfg env e req db) as [resp db'] eqn:Hrun. cbn [snd].
  pose proof (serve_effect _ _ _ _ _ _ _ Hrun) as Heff.
  destruct e; cbn [serve] in Hrun.
  1-3: eapply ledger_effect in Heff as (Hw & Hm & _); [|eauto];
       rewrite Hw, Hm; split; [auto|now left].
  all: clear Heff.
  - apply completeOnboarding_cases in Hrun
      as [[-> _]|(u & name & t & type & buy & sell & Hu & _ & _ & _ & _ & _ &
                  _ & Hw & Hm & _ & _ & _ & ->)]; [split; [auto|now left]|].
    split; cbn.
    + intros wid Hwid. apply lookup_insert_is_Some'. now right.
    + right; left. exists (rand env 1), u, (rand env 0). auto.
  - apply updateWorkspace_cases in Hrun
      as [[-> _]|(ws & caller & w & _ & _ & _ & Hw & _ & ->)];
      [split; [auto|now left]|].
    split; cbn; [|now left].
    intros wid Hwid. apply lookup_insert_is_Some'. now right.
  - apply invitePartner_cases in Hrun
      as [[-> _]|(ws & caller & u & email & sp & days & _ & _ & _ & _ & _ &
                  _ & _ & Hrest)]; [split; [auto|now left]|].
    cbn zeta in Hrest. destruct Hrest as (_ & _ & _ & _ & _ & _ & ->).
    split; cbn; [auto|now left].
  - apply acceptInvitation_cases in Hrun
      as [[-> _]|[(k & i & _ & _ & _ & _ & _ & _ & ->)
                 |(u & k & i & w & Hu & _ & _ & _ & _ & _ & Hw & Hm & _ &
                   _ & _ & ->)]]; [split; [auto|now left]| |].
    + split; cbn; [auto|now left].
    + split; cbn.
      * intros wid Hwid. apply lookup_insert_is_Some'. now right.
      * right; right; left. exists (rand env 0), u, i. auto.
  - apply updateProfitSplit_cases in Hrun
      as [[-> _]|(ws & caller & id & m & sp & _ & _ & _ & _ & _ & Hm & _ & _ &
                  ->)]; [split; [auto|now left]|].
    split; cbn; [auto|]. right; right; right; left. eauto.
  - apply removeMember_cases in Hrun
      as [[-> _]|(ws & caller & id & m & _ & _ & _ & _ & Hm & _ & Hown & _ & ->)];
      [split; [auto|now left]|].
    split; cbn; [auto|]. right; right; right; right. eauto.
  - apply cancelInvitation_cases in Hrun
      as [[-> _]|(ws & caller & id & i & _ & _ & _ & _ & _ & _ & _ & _ & ->)];
      [split; [auto|now left]|].
    split; cbn; [auto|now left].
Qed.


(** An owner's member row stays, and stays the row of that user in that
    workspace, whatever is served later. *)
Lemma Later_owner_row `{J : Jws} `{U : CaseMapping} cfg allowed db db' k m :
  Later cfg allowed db db' ->
  workspaceMembers db !! k = Some m -> wm_isOwner m = true ->
  is_Some (workspaces db !! wm_workspaceId m) ->
  exists m', workspaceMembers db' !! k = Some m' /\
             memberIdentity m' = memberIdentity m /\
             is_Some (workspaces db' !! wm_workspaceId m).
Proof.
  intros Hl Hk Hown Hws.
  induction Hl as [|db1 env e req _ IH _|db1 db2 _ IH Hw Hm Hi].
  - eauto.
  - destruct IH as (m1 & Hk1 & Hid1 & Hws1).
    destruct (serve_members cfg env e req db1) as [Hkeep Hmem].
    assert (Hown1 : wm_isOwner m1 = true).
    { unfold memberIdentity in Hid1. injection Hid1 as _ _ _ Ho. congruence. }
    destruct Hmem as [Heq|[(k' & u & wid & _ & Hfresh & _ & Heq)
                          |[(k' & u & i & _ & _ & Hfresh & Heq)
                           |[(id & m0 & split & Hid & Heq)
                            |(id & m0 & Hid & Hno & Heq)]]]]; rewrite Heq.
    + eauto.
    + exists m1. rewrite lookup_insert_ne by congruence. auto.
    + exists m1. rewrite lookup_insert_ne by congruence. auto.
    + destruct (decide (id = k)) as [->|Hne].
      * rewrite Hk1 in Hid. injection Hid as <-.
        exists (wm_set_profitSplit split m1). rewrite lookup_insert_eq.
        split; [reflexivity|]. split; [exact Hid1|auto].
      * exists m1. rewrite lookup_insert_ne by exact Hne. auto.
    + exists m1. rewrite lookup_delete_ne by congruence. auto.
  - destruct IH as (m1 & Hk1 & Hid1 & Hws1).
    exists m1. rewrite Hm, Hw. auto.
Qed.

(** A user without a member row in a workspace gets none unless the user
    accepts an invitation. *)
Lemma Later_no_member `{J : Jws} `{U : CaseMapping} cfg uid wid db db' :
  Later cfg (noAcceptBy uid) db db' ->
  is_Some (workspaces db !! wid) ->
  (forall k m, workspaceMembers db !! k = Some m ->
     wm_userId m = uid -> wm_workspaceId m <> wid) ->
  is_Some (workspaces db' !! wid) /\
  (forall k m, workspaceMembers db' !! k = Some m ->
     wm_userId m = uid -> wm_workspaceId m <> wid).
Proof.
  intros Hl Hws Hnone.
  induction Hl as [|db1 env e req _ IH Hallowed|db1 db2 _ IH Hw Hm Hi].
  - auto.
  - destruct IH as [Hws1 Hnone1].
    destruct (serve_members cfg env e req db1) as [Hkeep Hmem].
    split; [auto|].
    destruct Hmem as [Heq|[(k' & u & wid' & _ & _ & Hfresh & Heq)
                          |[(k' & u & i & He & Hu & _ & Heq)
                           |[(id & m0 & split & Hid & Heq)
                            |(id & m0 & Hid & _ & Heq)]]]]; rewrite Heq;
      intros k m Hk Hm.
    + eauto.
    + apply lookup_insert_Some in Hk as [[<- <-]|[_ Hk]]; [|eauto].
      cbn. intros ->. rewrite Hfresh in Hws1. now destruct Hws1.
    + apply lookup_insert_Some in Hk as [[<- <-]|[_ Hk]]; [|eauto].
      exfalso. apply (Hallowed He). rewrite Hu. cbn. now f_equal.
    + apply lookup_insert_Some in Hk as [[<- <-]|[_ Hk]]; [|eauto].
      cbn in *. eauto.
    + apply lookup_delete_Some in Hk as [_ Hk]. eauto.
  - destruct IH as [Hws1 Hnone1]. rewrite Hw, Hm. auto.
Qed.

(** What one request does to the invitation table. *)
Lemma serve_invitations `{J : Jws} `{U : CaseMapping} cfg env e req db :
  invitations (serve cfg env e req db).2 = invitations db \/
  (exists k i,
     e = E_invitePartner /\ inv_token i = rand env 1 /\
     invitations db !! k = None /\
     (forall k' j, invitations db !! k' = Some j -> inv_token j <> inv_token i) /\
     invitations (serve cfg env e req db).2 = <[k := i]> (invitations db)) \/
  (exists k i i',
     invitations db !! k = Some i /\ inv_status i = PENDING /\
     inv_token i' = inv_token i /\
     invitations (serve cfg env e req db).2 = <[k := i']> (invitations db)) \/
  (exists k i,
     invitations db !! k = Some i /\ inv_status i = PENDING /\
     invitations (serve cfg env e req db).2 = delete k (invitations db)).
Proof.
  destruct (serve cfg env e req db) as [resp db'] eqn:Hrun. cbn [snd].
  pose proof (serve_effect _ _ _ _ _ _ _ Hrun) as Heff.
  destruct e; cbn [serve] in Hrun.
  1-3: eapply ledger_effect in Heff as (_ & _ & Hi); [|eauto]; now left.
  all: clear Heff.
  - apply completeOnboarding_cases in Hrun
      as [[-> _]|(u & name & t & type & buy & sell & _ & _ & _ & _ & _ & _ &
                  _ & _ & _ & _ & _ & _ & ->)]; now left.
  - apply updateWorkspace_cases in Hrun
      as [[-> _]|(ws & caller & w & _ & _ & _ & _ & _ & ->)]; now left.
  - apply invitePartner_cases in Hrun
      as [[-> _]|(ws & caller & u & email & sp & days & _ & _ & _ & _ & _ &
                  _ & _ & Hrest)]; [now left|].
    cbn zeta in Hrest. destruct Hrest as (Hfresh & Htok & _ & _ & _ & _ & ->).
    right; left. eexists _, _. split; [reflexivity|].
    split; [|split; [exact Hfresh|split; [|reflexivity]]]; [reflexivity|].
    exact Htok.
  - apply acceptInvitation_cases in Hrun
      as [[-> _]|[(k & i & _ & Hk & Hp & _ & _ & _ & ->)
                 |(u & k & i & w & _ & _ & Hk & Hp & _ & _ & _ & _ & _ &
                   _ & _ & ->)]]; [now left| |].
    + right; right; left. exists k, i, (inv_set_status EXPIRED i). auto.
    + right; right; left. exists k, i, (inv_accept (au_id u) i). auto.
  - apply updateProfitSplit_cases in Hrun
      as [[-> _]|(ws & caller & id & m & sp & _ & _ & _ & _ & _ & _ & _ & _ &
                  ->)]; now left.
  - apply removeMember_cases in Hrun
      as [[-> _]|(ws & caller & id & m & _ & _ & _ & _ & _ & _ & _ & _ & ->)];
      now left.
  - apply cancelInvitation_cases in Hrun
      as [[-> _]|(ws & caller & id & i & _ & _ & _ & _ & Hi & _ & Hp & _ & ->)];
      [now left|].
    right; right; right. exists id, i. auto.
Qed.

(** A token that no invitation carries is carried by none later, unless
    [uuidv4()] draws it again. *)
Lemma Later_no_token `{J : Jws} `{U : CaseMapping} cfg t db db' :
  Later cfg (noRedraw t) db db' ->
  (forall k i, invitations db !! k = Some i -> inv_token i <> t) ->
  (forall k i, invitations db' !! k = Some i -> inv_token i <> t).
Proof.
  intros Hl Hnone.
  induction Hl as [|db1 env e req _ IH Hallowed|db1 db2 _ IH Hw Hm Hi].
  - exact Hnone.
  - destruct (serve_invitations cfg env e req db1)
      as [Heq|[(k' & i' & He & Ht & _ & _ & Heq)
              |[(k' & i0 & i' & Hk0 & _ & Ht & Heq)|(k' & i0 & _ & _ & Heq)]]];
      rewrite Heq; intros k i Hk.
    + eauto.
    + apply lookup_insert_Some in Hk as [[<- <-]|[_ Hk]]; [|eauto].
      rewrite Ht. now apply Hallowed.
    + apply lookup_insert_Some in Hk as [[<- <-]|[_ Hk]]; [|eauto].
      rewrite Ht. eauto.
    + apply lookup_delete_Some in Hk as [_ Hk]. eauto.
  - rewrite Hi. exact IH.
Qed.

(** An invitation that is no longer pending keeps its row as it is, the
    only row with its token, whatever is served later. *)
Lemma Later_spent `{J : Jws} `{U : CaseMapping} cfg allowed db db' k i :
  Later cfg allowed db db' ->
  uniqueBy tokenKey (invitations db) ->
  invitations db !! k = Some i -> inv_status i <> PENDING ->
  is_Some (workspaces db !! inv_workspaceId i) ->
  uniqueBy tokenKey (invitations db') /\
  invitations db' !! k = Some i /\
  is_Some (workspaces db' !! inv_workspaceId i).
Proof.
  intros Hl Hu Hk Hst Hws.
  induction Hl as [|db1 env e req _ IH _|db1 db2 _ IH Hw Hm Hi].
  - auto.
  - destruct IH as (Hu1 & Hk1 & Hws1).
    destruct (serve_members cfg env e req db1) as [Hkeep _].
    split; [|split; [|auto]].
    + destruct (serve_invitations cfg env e req db1)
        as [Heq|[(k' & i' & _ & _ & _ & Hnew & Heq)
                |[(k' & i0 & i' & Hk0 & _ & Ht & Heq)|(k' & i0 & _ & _ & Heq)]]];
        rewrite Heq.
      * exact Hu1.
      * apply uniqueBy_insert_fresh; [exact Hu1|].
        intros k2 j b Hk2 [= <-] [= Hb]. exact (Hnew _ _ Hk2 (eq_sym Hb)).
      * eapply uniqueBy_insert_same; [exact Hu1|exact Hk0|].
        left. unfold tokenKey. now rewrite Ht.
      * now apply uniqueBy_delete.
    + destruct (serve_invitations cfg env e req db1)
        as [Heq|[(k' & i' & _ & _ & Hfresh & _ & Heq)
                |[(k' & i0 & i' & Hk0 & Hp & _ & Heq)|(k' & i0 & Hk0 & Hp & Heq)]]];
        rewrite Heq.
      * exact Hk1.
      * rewrite lookup_insert_ne; [exact Hk1|]. congruence.
      * rewrite lookup_insert_ne; [exact Hk1|]. intros ->.
        rewrite Hk1 in Hk0. injection Hk0 as <-. contradiction.
      * rewrite lookup_delete_ne; [exact Hk1|]. intros ->.
        rewrite Hk1 in Hk0. injection Hk0 as <-. contradiction.
  - destruct IH as (Hu1 & Hk1 & Hws1). rewrite Hi, Hw. auto.
Qed.

(** X14. In every store the system can reach, invitation tokens are
    unique, a user has at most one member row per workspace, a workspace
    has at most one pending invitation per address, every invitation
    refers to an existing workspace, and a member's role is OWNER exactly
    when it is flagged as owner and MEMBER otherwise. *)
Theorem reachable_stores_are_well_keyed `{J : Jws} `{U : CaseMapping} (cfg : Config) (db : Db) :
  Reachable cfg db ->
  (forall k k' i i', invitations db !! k = Some i ->
     invitations db !! k' = Some i' -> inv_token i = inv_token i' -> k = k') /\
  (forall k k' m m', workspaceMembers db !! k = Some m ->
     workspaceMembers db !! k' = Some m' ->
     wm_userId m = wm_userId m' -> wm_workspaceId m = wm_workspaceId m' ->
     k = k') /\
  (forall k k' i i', invitations db !! k = Some i ->
     invitations db !! k' = Some i' ->
     inv_status i = PENDING -> inv_status i' = PENDING ->
     inv_workspaceId i = inv_workspaceId i' -> inv_email i = inv_email i' ->
     k = k') /\
  (forall k i, invitations db !! k = Some i ->
     is_Some (workspaces db !! inv_workspaceId i)) /\
  (forall k m, workspaceMembers db !! k = Some m ->
     wm_role m = if wm_isOwner m then OWNER else MEMBER).
Proof.
  intros Hr. apply Reachable_schema in Hr as [A B C D E]. split_and!.
  - intros k k' i i' Hk Hk' Heq. eapply (A k k' i i'); eauto.
    unfold tokenKey. now rewrite Heq.
  - intros k k' m m' Hk Hk' Hu Hw. eapply (B k k' m m'); eauto.
    unfold memberKey. now rewrite Hu, Hw.
  - intros k k' i i' Hk Hk' Hs Hs' Hw He. eapply (C k k' i i'); eauto.
    + unfold pendingKey. now rewrite Hs.
    + unfold pendingKey. now rewrite Hs', Hw, He.
  - exact D.
  - exact E.
Qed.


Lemma reachable_stores_are_well_keyed_witness :
  (forall k k' i i', invitations db_partnership !! k = Some i ->
     invitations db_partnership !! k' = Some i' ->
     inv_token i = inv_token i' -> k = k') /\
  (forall k k' m m', workspaceMembers db_partnership !! k = Some m ->
     workspaceMembers db_partnership !! k' = Some m' ->
     wm_userId m = wm_userId m' -> wm_workspaceId m = wm_workspaceId m' ->
     k = k') /\
  (forall k k' i i', invitations db_partnership !! k = Some i ->
     invitations db_partnership !! k' = Some i' ->
     inv_status i = PENDING -> inv_status i' = PENDING ->
     inv_workspaceId i = inv_workspaceId i' -> inv_email i = inv_email i' ->
     k = k') /\
  (forall k i, invitations db_partnership !! k = Some i ->
     is_Some (workspaces db_partnership !! inv_workspaceId i)) /\
  (forall k m, workspaceMembers db_partnership !! k = Some m ->
     wm_role m = if wm_isOwner m then OWNER else MEMBER).
Proof.
  apply (reachable_stores_are_well_keyed (J:=ref_jws) (U:=ascii_case) cfg0 db_partnership).
  apply db_partnership_reachable.
Defined.

(** X15. In every store the system can reach, a request that passes
    [requireWorkspace] and then [requireRole] for OWNER and ADMIN carries
    the one owner member of the workspace: no member has the ADMIN
    role. *)
Theorem admin_guard_admits_the_owner_only `{J : Jws} `{U : CaseMapping} (cfg : Config) (db : Db)
    (req req1 req2 : Request) :
  Reachable cfg db ->
  requireWorkspace req db = inr req1 ->
  requireRole ["OWNER"; "ADMIN"] req1 db = inr req2 ->
  exists m,
    workspaceMember req2 = Some m /\
    workspaceMembers db !! m.1 = Some m.2 /\
    wm_role m.2 = OWNER /\ wm_isOwner m.2 = true /\
    forall id', isOwnerOf db (wm_workspaceId m.2) id' -> id' = m.1.
Proof.
  intros Hr Hw Hrole.
  pose proof (Reachable_schema _ _ Hr) as [_ _ _ _ E].
  pose proof (Reachable_ownerInvariant _ _ Hr) as [_ Hone].
  unfold requireWorkspace in Hw.
  destruct (user req) as [u|]; [|discriminate].
  destruct (orElse _ _) as [wid|]; [|discriminate].
  destruct (negb _); [discriminate|].
  destruct (findFirst _ _) as [[k m]|] eqn:Hf; [|discriminate].
  apply findFirst_Some in Hf as [Hk _]. cbn [snd] in Hw.
  destruct (workspaces db !! wm_workspaceId m) as [w|] eqn:Hws; [|discriminate].
  injection Hw as <-.
  unfold requireRole in Hrole. cbn [workspaceMember with_membership] in Hrole.
  destruct (negb _) eqn:Hin; [discriminate|]. injection Hrole as <-.
  apply negb_false_iff, bool_decide_eq_true in Hin. cbn [snd] in Hin.
  pose proof (E _ _ Hk) as Hrl.
  assert (Hown : wm_isOwner m = true).
  { destruct (wm_isOwner m); [reflexivity|]. rewrite Hrl in Hin. exfalso.
    assert (Hf : bool_decide (roleName MEMBER ∈ ["OWNER"; "ADMIN"]) = false)
      by (vm_compute; reflexivity).
    apply bool_decide_eq_false in Hf. contradiction. }
  exists (k, m). cbn [fst snd workspaceMember with_membership].
  rewrite Hown in Hrl. split_and!; try done.
  intros id' Hid'.
  destruct (Hone (wm_workspaceId m)) as (id0 & _ & Huniq); [eauto|].
  rewrite (Huniq id' Hid'). symmetry. apply Huniq. exists m. auto.
Qed.


Lemma admin_guard_admits_the_owner_only_witness :
  exists m,
    workspaceMember
      (with_membership ("w", {| ws_name := "W"; ws_type := PARTNERSHIP |})
         ("w1", ownerMember ann "w") (enter_w_req ann)) = Some m /\
    workspaceMembers db_partnership !! m.1 = Some m.2 /\
    wm_role m.2 = OWNER /\ wm_isOwner m.2 = true /\
    forall id', isOwnerOf db_partnership (wm_workspaceId m.2) id' -> id' = m.1.
Proof.
  apply (admin_guard_admits_the_owner_only (J:=ref_jws) (U:=ascii_case) cfg0 db_partnership
           (enter_w_req ann)
           (with_membership ("w", {| ws_name := "W"; ws_type := PARTNERSHIP |})
              ("w1", ownerMember ann "w") (enter_w_req ann))).
  - apply db_partnership_reachable.
  - vm_compute. reflexivity.
  - vm_compute. reflexivity.
Defined.

(** ** Invitations *)

Lemma findFirst_unique {A} (P : string -> A -> bool) (m : gmap string A) k a :
  m !! k = Some a -> P k a = true ->
  (forall k' a', m !! k' = Some a' -> P k' a' = true -> k' = k) ->
  findFirst P m = Some (k, a).
Proof.
  intros Hk HP Hu. destruct (findFirst P m) as [[k' a']|] eqn:Hf.
  - apply findFirst_Some in Hf as [Hk' HP'].
    pose proof (Hu _ _ Hk' HP') as ->. rewrite Hk in Hk'. now injection Hk' as <-.
  - rewrite (findFirst_None _ _ _ _ Hf Hk) in HP. discriminate.
Qed.

Lemma findFirst_absent {A} (P : string -> A -> bool) (m : gmap string A) :
  (forall k a, m !! k = Some a -> P k a = false) -> findFirst P m = None.
Proof.
  intros Hn. destruct (findFirst P m) as [[k a]|] eqn:Hf; [|reflexivity].
  apply findFirst_Some in Hf as [Hk HP]. rewrite (Hn _ _ Hk) in HP. discriminate.
Qed.

Lemma findFirst_token db k i :
  uniqueBy tokenKey (invitations db) -> invitations db !! k = Some i ->
  findFirst (fun _ j => bool_decide (inv_token j = inv_token i)) (invitations db)
  = Some (k, i).
Proof.
  intros Hu Hk. apply findFirst_unique; [exact Hk|now apply bool_decide_eq_true|].
  intros k' i' Hk' HP. apply bool_decide_eq_true in HP.
  eapply (Hu k' k i' i); eauto. unfold tokenKey. now rewrite HP.
Qed.

Lemma acceptInvitation_spent `{U : CaseMapping} env req db u k i :
  uniqueBy tokenKey (invitations db) ->
  user req = Some u ->
  field "token" (reqBody req) = JStr (inv_token i) ->
  invitations db !! k = Some i -> inv_status i <> PENDING ->
  is_Some (workspaces db !! inv_workspaceId i) ->
  acceptInvitation env req db
  = (reject 400 "Invitation is no longer valid", db).
Proof.
  intros Hu Hreq Ht Hk Hst [w Hw].
  unfold acceptInvitation, tryCatch, bind, query, ret. rewrite Hreq, Ht.
  rewrite (findFirst_token _ _ _ Hu Hk). cbn [fst snd]. rewrite Hw.
  rewrite bool_decide_eq_false_2 by exact Hst. reflexivity.
Qed.

(** X16. When [acceptInvitation] answers 200, the token named a pending,
    unexpired invitation whose address and the caller's are the same
    after the runtime's [toLowerCase]; that invitation is now
    ACCEPTED by the caller, the caller has a new non-owner MEMBER row with
    the profit split of the invitation, the workspace is a PARTNERSHIP,
    and no other workspace row changed. *)
Theorem acceptInvitation_success `{U : CaseMapping} (env : Env)
    (req : Request) (db db' : Db) (resp : Response) :
  acceptInvitation env req db = (resp, db') -> status resp = 200 ->
  exists u k i,
    user req = Some u /\
    field "token" (reqBody req) = JStr (inv_token i) /\
    invitations db !! k = Some i /\ inv_status i = PENDING /\
    (now env <= inv_expiresAt i)%Z /\
    toLowerCase (inv_email i) = toLowerCase (au_email u) /\
    invitations db' = <[k := inv_accept (au_id u) i]> (invitations db) /\
    workspaceMembers db !! rand env 0 = None /\
    workspaceMembers db'
      = <[rand env 0 := acceptedMember u i]> (workspaceMembers db) /\
    (ws_type <$> workspaces db' !! inv_workspaceId i) = Some PARTNERSHIP /\
    (forall wid, wid <> inv_workspaceId i ->
       workspaces db' !! wid = workspaces db !! wid) /\
    resp = ok 200 (MemberData (rand env 0, acceptedMember u i)).
Proof.
  intros Hrun Hst.
  apply acceptInvitation_cases in Hrun
    as [[_ Hno]|[(k & i & _ & _ & _ & _ & _ & -> & _)
               |(u & k & i & w & Hu & Htok & Hk & Hp & Hexp & Hem & Hw & Hm & _ &
                 _ & -> & ->)]]; [congruence|discriminate|].
  exists u, k, i. repeat split; try assumption.
  - cbn. now rewrite lookup_insert_eq.
  - intros wid Hne. cbn. now rewrite lookup_insert_ne.
Qed.


Lemma acceptInvitation_success_witness :
  let env := env_at 3000 "m" in
  let out := acceptInvitation (U:=ascii_case) env bob_accept_req db_bob_invited in
  exists u k i,
    user bob_accept_req = Some u /\
    field "token" (reqBody bob_accept_req) = JStr (inv_token i) /\
    invitations db_bob_invited !! k = Some i /\ inv_status i = PENDING /\
    (now env <= inv_expiresAt i)%Z /\
    asciiLowerCase (inv_email i) = asciiLowerCase (au_email u) /\
    invitations out.2 = <[k := inv_accept (au_id u) i]> (invitations db_bob_invited) /\
    workspaceMembers db_bob_invited !! rand env 0 = None /\
    workspaceMembers out.2
      = <[rand env 0 := acceptedMember u i]> (workspaceMembers db_bob_invited) /\
    (ws_type <$> workspaces out.2 !! inv_workspaceId i) = Some PARTNERSHIP /\
    (forall wid, wid <> inv_workspaceId i ->
       workspaces out.2 !! wid = workspaces db_bob_invited !! wid) /\
    out.1 = ok 200 (MemberData (rand env 0, acceptedMember u i)).
Proof.
  intros env out.
  apply (acceptInvitation_success (U:=ascii_case) env bob_accept_req db_bob_invited out.2 out.1).
  - apply surjective_pairing.
  - vm_compute. reflexivity.
Defined.

(** X17. When [acceptInvitation] answers anything but 200, users,
    workspaces and members are as before; the store is unchanged
    altogether unless the answer is "Invitation has expired", in which
    case one pending, overdue invitation has become EXPIRED. *)
Theorem acceptInvitation_atomic `{U : CaseMapping} (env : Env) (req : Request) (db db' : Db)
    (resp : Response) :
  acceptInvitation env req db = (resp, db') -> status resp <> 200 ->
  users db' = users db /\ workspaces db' = workspaces db /\
  workspaceMembers db' = workspaceMembers db /\
  (db' = db \/
   resp = reject 400 "Invitation has expired" /\
   exists k i, invitations db !! k = Some i /\ inv_status i = PENDING /\
     (inv_expiresAt i < now env)%Z /\
     db' = with_invitations (insert k (inv_set_status EXPIRED i)) db).
Proof.
  intros Hrun Hst.
  apply acceptInvitation_cases in Hrun
    as [[-> _]|[(k & i & _ & Hk & Hp & Hexp & _ & -> & ->)
               |(u & k & i & w & _ & _ & _ & _ & _ & _ & _ & _ & _ &
                 _ & -> & _)]]; [auto| |cbn in Hst; congruence].
  repeat split; try reflexivity. right. split; [reflexivity|]. eauto 10.
Qed.

Lemma acceptInvitation_atomic_witness :
  let env := env_at 5000 "x" in
  let out := acceptInvitation (U:=ascii_case) env (accept_req carol) db_invited in
  users out.2 = users db_invited /\ workspaces out.2 = workspaces db_invited /\
  workspaceMembers out.2 = workspaceMembers db_invited /\
  (out.2 = db_invited \/
   out.1 = reject 400 "Invitation has expired" /\
   exists k i, invitations db_invited !! k = Some i /\ inv_status i = PENDING /\
     (inv_expiresAt i < now env)%Z /\
     out.2 = with_invitations (insert k (inv_set_status EXPIRED i)) db_invited).
Proof.
  intros env out.
  apply (acceptInvitation_atomic (U:=ascii_case) env (accept_req carol) db_invited out.2 out.1).
  - apply surjective_pairing.
  - vm_compute. discriminate.
Defined.

(** X18. An invitation token works once: after a call of
    [acceptInvitation] that changed the store (by accepting or by marking
    the invitation EXPIRED), every call with the same token, by any user,
    at once or after whatever is served later, answers 400 "Invitation is
    no longer valid" and changes nothing. *)
Theorem invitation_token_is_spent `{J : Jws} `{U : CaseMapping} (cfg : Config)
    (env env' : Env) (req req' : Request) (db db' db'' : Db)
    (resp : Response) (u' : AuthUser) :
  uniqueBy tokenKey (invitations db) ->
  acceptInvitation env req db = (resp, db') -> db' <> db ->
  Later cfg anyRequest db' db'' ->
  user req' = Some u' ->
  field "token" (reqBody req') = field "token" (reqBody req) ->
  acceptInvitation env' req' db''
  = (reject 400 "Invitation is no longer valid", db'').
Proof.
  intros Hu Hrun Hne Hlater Hu' Ht.
  apply acceptInvitation_cases in Hrun
    as [[-> _]|[(k & i & Htok & Hk & Hst & _ & Hw & _ & ->)
               |(u & k & i & w & _ & Htok & Hk & Hst & _ & _ & Hw & _ & _ &
                 _ & _ & ->)]]; [congruence| |].
  - destruct (Later_spent _ _ _ _ k (inv_set_status EXPIRED i) Hlater)
      as (Hu2 & Hk2 & Hw2).
    + cbn. eapply uniqueBy_insert_same; [exact Hu|exact Hk|now left].
    + cbn. apply lookup_insert_eq.
    + discriminate.
    + exact Hw.
    + apply (acceptInvitation_spent env' req' _ u' k (inv_set_status EXPIRED i));
        auto; try discriminate; now rewrite Ht, Htok.
  - destruct (Later_spent _ _ _ _ k (inv_accept (au_id u) i) Hlater)
      as (Hu2 & Hk2 & Hw2).
    + cbn. eapply uniqueBy_insert_same; [exact Hu|exact Hk|now left].
    + cbn. apply lookup_insert_eq.
    + discriminate.
    + cbn. rewrite lookup_insert_eq. eauto.
    + apply (acceptInvitation_spent env' req' _ u' k (inv_accept (au_id u) i));
        auto; try discriminate; now rewrite Ht, Htok.
Qed.

Lemma invitation_token_is_spent_witness :
  acceptInvitation (U:=ascii_case) (env_at 3500 "y") carol_retry_req
    db_partnership
  = (reject 400 "Invitation is no longer valid", db_partnership).
Proof.
  apply (invitation_token_is_spent (J:=ref_jws) (U:=ascii_case) cfg0
           (env_at 3000 "m") (env_at 3500 "y")
           bob_accept_req carol_retry_req db_bob_invited db_partnership
           db_partnership
           (acceptInvitation (U:=ascii_case) (env_at 3000 "m") bob_accept_req
              db_bob_invited).1
           carol).
  - apply (tokens_unique _ (Reachable_schema cfg0 _ db_bob_invited_reachable)).
  - apply surjective_pairing.
  - intros Heq.
    apply (f_equal (fun d => workspaceMembers d !! "m")) in Heq.
    vm_compute in Heq. discriminate.
  - apply later_now.
  - reflexivity.
  - vm_compute. reflexivity.
Defined.

(** X19. After [cancelInvitation] answers 200 the invitation has no row,
    and [acceptInvitation] with its token answers 404 "Invitation not
    found" and changes nothing: at once, and whatever is served later, as
    long as [uuidv4()] does not draw that token again for a new
    invitation. *)
Theorem cancelled_invitation_cannot_be_accepted `{J : Jws} `{U : CaseMapping}
    (cfg : Config) (req : Request) (db db' : Db) (resp : Response) :
  uniqueBy tokenKey (invitations db) ->
  cancelInvitation req db = (resp, db') -> status resp = 200 ->
  exists id i,
    params req !! "invitationId" = Some id /\
    invitations db !! id = Some i /\
    invitations db' !! id = None /\
    forall db'' env' req' u',
      Later cfg (noRedraw (inv_token i)) db' db'' ->
      user req' = Some u' ->
      field "token" (reqBody req') = JStr (inv_token i) ->
      acceptInvitation env' req' db''
      = (reject 404 "Invitation not found", db'').
Proof.
  intros Hu Hrun Hst.
  apply cancelInvitation_cases in Hrun
    as [[_ Hno]|(ws & caller & id & i & _ & _ & _ & Hid & Hi & _ & _ & _ & ->)];
    [congruence|].
  exists id, i. split_and!; [exact Hid|exact Hi|cbn; apply lookup_delete_eq|].
  intros db'' env' req' u' Hlater Hu' Ht.
  assert (Hnone : forall k j, invitations db'' !! k = Some j ->
                              inv_token j <> inv_token i).
  { apply (Later_no_token _ _ _ _ Hlater).
    intros k j Hk Heq. cbn in Hk. apply lookup_delete_Some in Hk as [Hne Hk].
    apply Hne. eapply (Hu id k i j); eauto. unfold tokenKey. now rewrite Heq. }
  unfold acceptInvitation, tryCatch, bind, query, ret. rewrite Hu', Ht.
  rewrite findFirst_absent; [reflexivity|].
  intros k j Hk. apply bool_decide_eq_false. eauto.
Qed.

Lemma cancelled_invitation_cannot_be_accepted_witness :
  let out := cancelInvitation cancel_resolved_req db_bob_invited in
  exists id i,
    params cancel_resolved_req !! "invitationId" = Some id /\
    invitations db_bob_invited !! id = Some i /\
    invitations out.2 !! id = None /\
    forall db'' env' req' u',
      Later (J:=ref_jws) (U:=ascii_case) cfg0 (noRedraw (inv_token i))
        out.2 db'' ->
      user req' = Some u' ->
      field "token" (reqBody req') = JStr (inv_token i) ->
      acceptInvitation (U:=ascii_case) env' req' db''
      = (reject 404 "Invitation not found", db'').
Proof.
  intros out.
  apply (cancelled_invitation_cannot_be_accepted (J:=ref_jws) (U:=ascii_case)
           cfg0 cancel_resolved_req db_bob_invited out.2 out.1).
  - apply (tokens_unique _ (Reachable_schema cfg0 _ db_bob_invited_reachable)).
  - apply surjective_pairing.
  - vm_compute. reflexivity.
Defined.

(** X20. When [invitePartner] answers 201 it has added exactly one
    invitation: pending, for the address as the runtime's [toLowerCase]
    returns it, carrying a token no
    other invitation has, in the caller's workspace, which had no pending
    invitation for that address; a registered invitee was not yet a
    member. *)
Theorem invitePartner_success `{U : CaseMapping} (cfg : Config) (env : Env)
    (req : Request) (db db' : Db) (resp : Response) :
  invitePartner cfg env req db = (resp, db') -> status resp = 201 ->
  exists ws u email split days invitee,
    workspace req = Some ws /\ user req = Some u /\
    field "email" (reqBody req) = JStr email /\
    field "profitSplit" (reqBody req) = JNum split /\
    invitationExpiryDays cfg = Some days /\
    let i := newInvitation cfg env ws.1 u email invitee split days in
    invitations db !! rand env 0 = None /\
    db' = with_invitations (insert (rand env 0) i) db /\
    resp = ok 201 (InvitationData (rand env 0, i)
                     (clientUrl cfg +:+ "/invite/" +:+ rand env 1)) /\
    (forall k j, invitations db !! k = Some j ->
       inv_token j <> inv_token i /\
       (inv_status j = PENDING -> inv_workspaceId j = ws.1 ->
        inv_email j <> inv_email i)) /\
    (forall x, invitee = Some x ->
       (exists row, users db !! x = Some row /\ u_email row = inv_email i) /\
       forall k m, workspaceMembers db !! k = Some m ->
         wm_userId m = x -> wm_workspaceId m <> ws.1).
Proof.
  intros Hrun Hst.
  apply invitePartner_cases in Hrun
    as [[_ Hno]|(ws & caller & u & email & split & days & Hws & _ & _ & Hu &
                 Hem & Hsp & Hd & Hrest)]; [congruence|].
  cbn zeta in Hrest.
  destruct Hrest as (Hfresh & Htok & Hpend & Hmem & _ & -> & ->).
  exists ws, u, email, split, days. eexists. cbn zeta.
  repeat split; eauto.
  - destruct (findFirst _ (users db)) as [[k0 x0]|] eqn:Hf; [|discriminate].
    apply findFirst_Some in Hf as [Hk0 HP]. apply bool_decide_eq_true in HP.
    cbn in H. injection H as <-. eauto.
  - intros k m Hk Hx. destruct (findFirst _ (users db)) as [[k0 x0]|] eqn:Hf;
      [|discriminate].
    cbn in H. injection H as <-. exact (Hmem (k0, x0) k m eq_refl Hk Hx).
Qed.


Lemma invitePartner_success_witness :
  let env := env_at 2000 "i" in
  let out := invitePartner (U:=ascii_case) cfg0 env invite_req db_onboarded in
  exists ws u email split days invitee,
    workspace invite_req = Some ws /\ user invite_req = Some u /\
    field "email" (reqBody invite_req) = JStr email /\
    field "profitSplit" (reqBody invite_req) = JNum split /\
    invitationExpiryDays cfg0 = Some days /\
    let i := newInvitation (U:=ascii_case) cfg0 env ws.1 u email invitee split days in
    invitations db_onboarded !! rand env 0 = None /\
    out.2 = with_invitations (insert (rand env 0) i) db_onboarded /\
    out.1 = ok 201 (InvitationData (rand env 0, i)
                      (clientUrl cfg0 +:+ "/invite/" +:+ rand env 1)) /\
    (forall k j, invitations db_onboarded !! k = Some j ->
       inv_token j <> inv_token i /\
       (inv_status j = PENDING -> inv_workspaceId j = ws.1 ->
        inv_email j <> inv_email i)) /\
    (forall x, invitee = Some x ->
       (exists row, users db_onboarded !! x = Some row /\
                    u_email row = inv_email i) /\
       forall k m, workspaceMembers db_onboarded !! k = Some m ->
         wm_userId m = x -> wm_workspaceId m <> ws.1).
Proof.
  intros env out.
  apply (invitePartner_success (U:=ascii_case) cfg0 env invite_req db_onboarded out.2 out.1).
  - apply surjective_pairing.
  - vm_compute. reflexivity.
Defined.

(** X21. On the store a successful invitation returns, a second
    invitation to the same workspace for an address that the runtime's
    [toLowerCase] maps to the same string is answered with 400 and
    changes nothing. *)
Theorem repeated_invitation_is_rejected `{U : CaseMapping} (cfg cfg' : Config) (env env' : Env)
    (req req' : Request) (db db' : Db) (resp : Response)
    (ws ws' : string * Workspace) (caller' : string * WorkspaceMember)
    (email email' : string) :
  invitePartner cfg env req db = (resp, db') -> status resp = 201 ->
  workspace req = Some ws -> field "email" (reqBody req) = JStr email ->
  workspace req' = Some ws' -> ws'.1 = ws.1 ->
  workspaceMember req' = Some caller' -> isOwnerOrAdmin caller' = true ->
  field "email" (reqBody req') = JStr email' ->
  toLowerCase email' = toLowerCase email ->
  exists msg, invitePartner cfg' env' req' db' = (reject 400 msg, db').
Proof.
  intros Hrun Hst Hws Hem Hws' Hsame Hc' Hrole Hem' Hlow.
  apply invitePartner_cases in Hrun
    as [[_ Hno]|(ws0 & caller & u & email0 & split & days & Hws0 & _ & _ & Hu &
                 Hem0 & Hsp & Hd & Hrest)]; [congruence|].
  cbn zeta in Hrest. destruct Hrest as (_ & _ & _ & _ & _ & _ & ->).
  rewrite Hws in Hws0. injection Hws0 as <-.
  rewrite Hem in Hem0. injection Hem0 as <-.
  unfold invitePartner, tryCatch, bind, query, ret.
  rewrite Hws', Hc', Hrole, Hem'. cbn [negb].
  set (invitee := findFirst _ (users _)).
  destruct invitee as [x|].
  - destruct (findFirst _ _) as [mm|]; [eexists; reflexivity|].
    match goal with |- context [findFirst ?P (invitations ?d)] =>
      destruct (findFirst_is_Some P (invitations d) (rand env 0)
        (newInvitation cfg env ws.1 u email
           (fst <$> findFirst (fun _ u0 => bool_decide (u_email u0 = toLowerCase email))
                      (users db)) split days)) as [r ->] end.
    + cbn. apply lookup_insert_eq.
    + cbn. rewrite Hsame, Hlow. now rewrite !bool_decide_eq_true_2 by done.
    + eexists; reflexivity.
  - match goal with |- context [findFirst ?P (invitations ?d)] =>
      destruct (findFirst_is_Some P (invitations d) (rand env 0)
        (newInvitation cfg env ws.1 u email
           (fst <$> findFirst (fun _ u0 => bool_decide (u_email u0 = toLowerCase email))
                      (users db)) split days)) as [r ->] end.
    + cbn. apply lookup_insert_eq.
    + cbn. rewrite Hsame, Hlow. now rewrite !bool_decide_eq_true_2 by done.
    + eexists; reflexivity.
Qed.


Lemma repeated_invitation_is_rejected_witness :
  exists msg,
    invitePartner (U:=ascii_case) cfg0 (env_at 2500 "j") invite_again_req db_bob_invited
    = (reject 400 msg, db_bob_invited).
Proof.
  apply (repeated_invitation_is_rejected (U:=ascii_case) cfg0 cfg0 (env_at 2000 "i")
           (env_at 2500 "j") invite_req invite_again_req db_onboarded
           db_bob_invited
           (invitePartner (U:=ascii_case) cfg0 (env_at 2000 "i") invite_req db_onboarded).1
           ("w", w1_sole) ("w", w1_sole)
           ("w1", ownerMember ann "w") "B@x.com" "b@X.COM").
  - apply surjective_pairing.
  - vm_compute. reflexivity.
  - reflexivity.
  - vm_compute. reflexivity.
  - reflexivity.
  - reflexivity.
  - reflexivity.
  - vm_compute. reflexivity.
  - vm_compute. reflexivity.
  - vm_compute. reflexivity.
Defined.

(** ** Onboarding and members *)



(** X23. A user onboards once: after a successful [completeOnboarding],
    every call by the same user, at once or after whatever is served
    later, answers 400 "Workspace already exists" and changes nothing. *)
Theorem onboarding_happens_once `{J : Jws} `{U : CaseMapping} (cfg : Config)
    (env env' : Env) (req req' : Request) (db db' db'' : Db)
    (resp : Response) (u u' : AuthUser) :
  completeOnboarding env req db = (resp, db') -> status resp = 201 ->
  Later cfg anyRequest db' db'' ->
  user req = Some u -> user req' = Some u' -> au_id u' = au_id u ->
  completeOnboarding env' req' db''
  = (reject 400 "Workspace already exists", db'').
Proof.
  intros Hrun Hst Hlater Hu Hu' Hid.
  apply completeOnboarding_cases in Hrun
    as [[_ Hno]|(u0 & name & t & type & buy & sell & Hu0 & _ & _ & _ & _ & _ &
                 Hnone & Hw & Hm & _ & _ & _ & ->)]; [congruence|].
  rewrite Hu in Hu0. injection Hu0 as <-.
  destruct (Later_owner_row _ _ _ _ (rand env 1) (ownerMember u (rand env 0))
              Hlater) as (m' & Hk' & Hid' & _).
  { cbn. apply lookup_insert_eq. }
  { reflexivity. }
  { cbn. rewrite lookup_insert_eq. eauto. }
  unfold memberIdentity in Hid'. cbn in Hid'. injection Hid' as Hmu _ _ _.
  unfold completeOnboarding, tryCatch, bind, query, ret. rewrite Hu'.
  match goal with |- context [findFirst ?P (workspaceMembers ?d)] =>
    destruct (findFirst_is_Some P (workspaceMembers d) (rand env 1) m')
      as [r ->] end.
  - exact Hk'.
  - apply bool_decide_eq_true. congruence.
  - reflexivity.
Qed.

Lemma onboarding_happens_once_witness :
  completeOnboarding (env_at 4500 "v") onboard_req db_partnership
  = (reject 400 "Workspace already exists", db_partnership).
Proof.
  apply (onboarding_happens_once (J:=ref_jws) (U:=ascii_case) cfg0
           (env_at 1000 "w") (env_at 4500 "v")
           onboard_req onboard_req db_users db_onboarded db_partnership
           (completeOnboarding (env_at 1000 "w") onboard_req db_users).1
           ann ann).
  - apply surjective_pairing.
  - vm_compute. reflexivity.
  - apply (later_serve cfg0 anyRequest _ _ (env_at 3000 "m") E_acceptInvitation
             bob_accept_req); [|exact I].
    apply (later_serve cfg0 anyRequest _ _ (env_at 2000 "i") E_invitePartner
             invite_req); [|exact I].
    apply later_now.
  - reflexivity.
  - reflexivity.
  - reflexivity.
Defined.

(** X24. When [removeMember] answers 200 in a store the system can reach,
    it has deleted one non-owner member row of the caller's workspace, and
    [requireWorkspace] answers 403 to that user on that workspace, at once
    and whatever is served later, until that user accepts an invitation. *)
Theorem removed_member_loses_access `{J : Jws} `{U : CaseMapping}
    (cfg : Config) (req : Request) (db db' : Db) (resp : Response) :
  Reachable cfg db ->
  removeMember req db = (resp, db') -> status resp = 200 ->
  exists ws id m,
    workspace req = Some ws /\
    params req !! "memberId" = Some id /\
    workspaceMembers db !! id = Some m /\
    wm_workspaceId m = ws.1 /\ wm_isOwner m = false /\
    db' = with_workspaceMembers (delete id) db /\
    forall db'' req' u',
      Later cfg (noAcceptBy (wm_userId m)) db' db'' ->
      user req' = Some u' -> au_id u' = wm_userId m ->
      params req' !! "workspaceId" = Some ws.1 -> ws.1 <> "" ->
      requireWorkspace req' db''
      = inl (reject 403 "Access denied to this workspace").
Proof.
  intros Hreach Hrun Hst.
  pose proof (Reachable_schema _ _ Hreach) as [_ Huniq _ _ _].
  pose proof (Reachable_ownerInvariant _ _ Hreach) as [Hfk _].
  apply removeMember_cases in Hrun
    as [[_ Hno]|(ws & caller & id & m & Hws & _ & _ & Hid & Hm & Hw & Hown & _ &
                 ->)]; [congruence|].
  exists ws, id, m. split_and!; try assumption; [reflexivity|].
  intros db'' req' u' Hlater Hu' Hsame Hp Hne.
  destruct (Later_no_member _ _ ws.1 _ _ Hlater) as [_ Hnone].
  { cbn. rewrite <- Hw. eapply Hfk. exact Hm. }
  { intros k m' Hk Hku Hkw. cbn in Hk.
    apply lookup_delete_Some in Hk as [Hnk Hk]. apply Hnk.
    eapply (Huniq id k m m'); eauto; unfold memberKey; congruence. }
  unfold requireWorkspace, orElse. rewrite Hu', Hp.
  assert (Ht : truthy (JStr ws.1) = true).
  { cbn. apply negb_true_iff. now apply String.eqb_neq. }
  rewrite Ht. cbn beta iota. rewrite Ht. cbn [negb].
  rewrite findFirst_absent; [reflexivity|].
  intros k m' Hk. apply andb_false_iff.
  destruct (decide (wm_userId m' = au_id u')) as [Heq|Hneq];
    [|left; now apply bool_decide_eq_false].
  right. apply bool_decide_eq_false. apply (Hnone k m' Hk). congruence.
Qed.

Lemma removed_member_loses_access_witness :
  let out := removeMember remove_bob_req db_partnership in
  exists ws id m,
    workspace remove_bob_req = Some ws /\
    params remove_bob_req !! "memberId" = Some id /\
    workspaceMembers db_partnership !! id = Some m /\
    wm_workspaceId m = ws.1 /\ wm_isOwner m = false /\
    out.2 = with_workspaceMembers (delete id) db_partnership /\
    forall db'' req' u',
      Later (J:=ref_jws) (U:=ascii_case) cfg0 (noAcceptBy (wm_userId m))
        out.2 db'' ->
      user req' = Some u' -> au_id u' = wm_userId m ->
      params req' !! "workspaceId" = Some ws.1 -> ws.1 <> "" ->
      requireWorkspace req' db''
      = inl (reject 403 "Access denied to this workspace").
Proof.
  intros out.
  apply (removed_member_loses_access (J:=ref_jws) (U:=ascii_case) cfg0
           remove_bob_req db_partnership out.2 out.1).
  - apply db_partnership_reachable.
  - apply surjective_pairing.
  - vm_compute. reflexivity.
Defined.

(** ** Workspace scope *)

Lemma sameElsewhere_refl wid db : sameElsewhere wid db db.
Proof. repeat split; auto. Qed.

Lemma lookup_insert_elsewhere {A} (m : gmap string A) k x x' y (P : A -> Prop) :
  m !! k = Some x \/ m !! k = None -> ~ P x -> ~ P x' -> P y ->
  forall id, <[k:=x']> m !! id = Some y <-> m !! id = Some y.
Proof.
  intros Hk Hx Hx' Hy id. destruct (decide (id = k)) as [->|Hne].
  - rewrite lookup_insert_eq. split.
    + intros [= ->]. contradiction.
    + intros Hid. destruct Hk as [Hk|Hk]; rewrite Hk in Hid;
        [injection Hid as ->; contradiction|discriminate].
  - now rewrite lookup_insert_ne.
Qed.

Lemma lookup_delete_elsewhere {A} (m : gmap string A) k x y (P : A -> Prop) :
  m !! k = Some x -> ~ P x -> P y ->
  forall id, delete k m !! id = Some y <-> m !! id = Some y.
Proof.
  intros Hk Hx Hy id. rewrite lookup_delete_Some. split; [tauto|].
  intros Hid. split; [|exact Hid]. intros ->. rewrite Hk in Hid.
  injection Hid as ->. contradiction.
Qed.

(** X25. The five endpoints that act on a resolved workspace write to
    rows of that workspace only: users, sessions, and the workspaces,
    members, invitations and settings of every other workspace are as
    before. *)
Theorem scoped_endpoints_stay_in_their_workspace `{J : Jws} `{U : CaseMapping} (cfg : Config)
    (env : Env) (e : Endpoint) (req : Request) (db db' : Db) (resp : Response)
    (ws : string * Workspace) :
  scoped e = true -> workspace req = Some ws ->
  serve cfg env e req db = (resp, db') ->
  sameElsewhere ws.1 db db'.
Proof.
  intros Hs Hws Hrun. destruct e; try discriminate; cbn [serve] in Hrun.
  - apply updateWorkspace_cases in Hrun
      as [[-> _]|(ws0 & caller & w & Hws0 & _ & _ & Hw & _ & ->)];
      [apply sameElsewhere_refl|].
    rewrite Hws in Hws0. injection Hws0 as <-.
    unfold sameElsewhere; cbn; split_and!; try done.
    intros id Hne. now rewrite lookup_insert_ne.
  - apply invitePartner_cases in Hrun
      as [[-> _]|(ws0 & caller & u & email & split & days & Hws0 & _ & _ & _ &
                  _ & _ & _ & Hrest)]; [apply sameElsewhere_refl|].
    cbn zeta in Hrest. destruct Hrest as (Hfresh & _ & _ & _ & _ & _ & ->).
    rewrite Hws in Hws0. injection Hws0 as <-.
    unfold sameElsewhere; cbn; split_and!; try done.
    intros k y Hy. revert k.
    match goal with |- context [<[_ := ?x]> _] =>
      apply (lookup_insert_elsewhere _ _ x _ _
               (fun j => inv_workspaceId j <> ws.1)) end; cbn; auto.
  - apply updateProfitSplit_cases in Hrun
      as [[-> _]|(ws0 & caller & id & m & split & Hws0 & _ & _ & _ & _ & Hm &
                  Hw & _ & ->)]; [apply sameElsewhere_refl|].
    rewrite Hws in Hws0. injection Hws0 as <-.
    unfold sameElsewhere; cbn; split_and!; try done.
    intros k y Hy. revert k.
    apply (lookup_insert_elsewhere _ _ m _ _
             (fun j => wm_workspaceId j <> ws.1)); cbn; auto.
  - apply removeMember_cases in Hrun
      as [[-> _]|(ws0 & caller & id & m & Hws0 & _ & _ & _ & Hm & Hw & _ & _ &
                  ->)]; [apply sameElsewhere_refl|].
    rewrite Hws in Hws0. injection Hws0 as <-.
    unfold sameElsewhere; cbn; split_and!; try done.
    intros k y Hy. revert k.
    apply (lookup_delete_elsewhere _ _ m _
             (fun j => wm_workspaceId j <> ws.1)); cbn; auto.
  - apply cancelInvitation_cases in Hrun
      as [[-> _]|(ws0 & caller & id & i0 & Hws0 & _ & _ & _ & Hi & Hw & _ & _ &
                  ->)]; [apply sameElsewhere_refl|].
    rewrite Hws in Hws0. injection Hws0 as <-.
    unfold sameElsewhere; cbn; split_and!; try done.
    intros k y Hy. revert k.
    apply (lookup_delete_elsewhere _ _ i0 _
             (fun j => inv_workspaceId j <> ws.1)); cbn; auto.
Qed.

Lemma scoped_endpoints_stay_in_their_workspace_witness :
  sameElsewhere "w" db_partnership
    (serve (J:=ref_jws) (U:=ascii_case) cfg0 (env_at 4000 "z") E_removeMember remove_bob_req
       db_partnership).2.
Proof.
  apply (scoped_endpoints_stay_in_their_workspace (J:=ref_jws) (U:=ascii_case) cfg0
           (env_at 4000 "z") E_removeMember remove_bob_req db_partnership
           _ (serve (J:=ref_jws) (U:=ascii_case) cfg0 (env_at 4000 "z") E_removeMember
                remove_bob_req db_partnership).1 ("w", w1_sole)).
  - reflexivity.
  - reflexivity.
  - apply surjective_pairing.
Defined.

(** X26. [updateProfitSplit] changes nothing but one profit split: users,
    workspaces and invitations are as before and every member keeps its
    user, workspace, role and owner flag.  On 200 the caller is an OWNER,
    the member named belongs to the caller's workspace and holds the
    number sent (its old split when none was sent); otherwise the store is
    unchanged. *)
Theorem updateProfitSplit_changes_only_the_split (req : Request) (db db' : Db)
    (resp : Response) :
  updateProfitSplit req db = (resp, db') ->
  users db' = users db /\ workspaces db' = workspaces db /\
  invitations db' = invitations db /\
  (forall k, memberIdentity <$> workspaceMembers db' !! k
             = memberIdentity <$> workspaceMembers db !! k) /\
  (status resp = 200 ->
   exists ws caller id m split,
     workspace req = Some ws /\ workspaceMember req = Some caller /\
     wm_role caller.2 = OWNER /\
     field "memberId" (reqBody req) = JStr id /\
     numericColumn (field "profitSplit" (reqBody req)) = inr split /\
     workspaceMembers db !! id = Some m /\ wm_workspaceId m = ws.1 /\
     (wm_profitSplit <$> workspaceMembers db' !! id)
       = Some (default (wm_profitSplit m) split) /\
     forall k, k <> id -> workspaceMembers db' !! k = workspaceMembers db !! k) /\
  (status resp <> 200 -> db' = db).
Proof.
  intros Hrun.
  apply updateProfitSplit_cases in Hrun
    as [[-> Hno]|(ws & caller & id & m & split & Hws & Hc & Hr & Hid & Hsp & Hm &
                  Hw & -> & ->)].
  - split_and!; try done.
  - split_and!; try done.
    + intros k. cbn. destruct (decide (k = id)) as [->|Hne].
      * now rewrite lookup_insert_eq, Hm.
      * now rewrite lookup_insert_ne.
    + intros _. exists ws, caller, id, m, split. split_and!; try done.
      * cbn. now rewrite lookup_insert_eq.
      * intros k Hne. cbn. now rewrite lookup_insert_ne.
Qed.


Lemma updateProfitSplit_changes_only_the_split_witness :
  let out := updateProfitSplit split_req db_partnership in
  users out.2 = users db_partnership /\
  workspaces out.2 = workspaces db_partnership /\
  invitations out.2 = invitations db_partnership /\
  (forall k, memberIdentity <$> workspaceMembers out.2 !! k
             = memberIdentity <$> workspaceMembers db_partnership !! k) /\
  (status out.1 = 200 ->
   exists ws caller id m split,
     workspace split_req = Some ws /\ workspaceMember split_req = Some caller /\
     wm_role caller.2 = OWNER /\
     field "memberId" (reqBody split_req) = JStr id /\
     numericColumn (field "profitSplit" (reqBody split_req)) = inr split /\
     workspaceMembers db_partnership !! id = Some m /\
     wm_workspaceId m = ws.1 /\
     (wm_profitSplit <$> workspaceMembers out.2 !! id)
       = Some (default (wm_profitSplit m) split) /\
     forall k, k <> id ->
       workspaceMembers out.2 !! k = workspaceMembers db_partnership !! k) /\
  (status out.1 <> 200 -> out.2 = db_partnership).
Proof.
  intros out.
  apply (updateProfitSplit_changes_only_the_split split_req db_partnership
           out.2 out.1).
  apply surjective_pairing.
Defined.

Lemma patched_idem n t w : patched n t (patched n t w) = patched n t w.
Proof.
  unfold patched. destruct n, t; cbn; try reflexivity.
  all: repeat case_match; cbn; try reflexivity.
  all: try (f_equal; destruct (workspaceTypeOfString _); reflexivity).
Qed.

(** X27. [updateWorkspace] is idempotent on the store: serving the same
    request again leaves the store as the first call left it. *)
Theorem updateWorkspace_idempotent (req : Request) (db db' : Db)
    (resp : Response) :
  updateWorkspace req db = (resp, db') -> (updateWorkspace req db').2 = db'.
Proof.
  intros Hrun. pose proof Hrun as Hc.
  apply updateWorkspace_cases in Hc
    as [[-> _]|(ws & caller & w & Hws & Hcl & _ & Hw & _ & ->)].
  - now rewrite Hrun.
  - clear Hrun. destruct (updateWorkspace req _) as [resp2 db2] eqn:H2.
    cbn [snd].
    apply updateWorkspace_cases in H2
      as [[-> _]|(ws2 & caller2 & w2 & Hws2 & _ & _ & Hw2 & _ & ->)];
      [reflexivity|].
    rewrite Hws in Hws2. injection Hws2 as <-.
    cbn in Hw2. rewrite lookup_insert_eq in Hw2. injection Hw2 as <-.
    rewrite patched_idem. apply with_workspaces_insert_id.
    cbn. apply lookup_insert_eq.
Qed.

Lemma updateWorkspace_idempotent_witness :
  let db' := (updateWorkspace revert_req db_partnership).2 in
  (updateWorkspace revert_req db').2 = db'.
Proof.
  intros db'.
  apply (updateWorkspace_idempotent revert_req db_partnership db'
           (updateWorkspace revert_req db_partnership).1).
  apply surjective_pairing.
Defined.
